(** * RoadFighter: token gate, session validation, payment split

    A shallow embedding of the server code of the multiplayer Road Fighter
    repository (TypeScript) and the properties its specification states
    about it.

    - JavaScript numbers are IEEE 754 binary64 values, modelled with the
      Standard Library's [spec_float] at precision 53 and [emax] 1024, and
      given an exact rational value by [F2Q].
    - A JavaScript [Date] is its time value: an integral number of
      milliseconds within +-8.64e15, or the Invalid Date.
    - The relational store (Prisma) and the cache (Redis) are finite maps
      threaded explicitly through the request handlers.
    - The session operations and the settlement have no code in the
      repository (its handlers are placeholders); they are modelled from
      the specification, in the modules [Lifecycle] and [Settlement], over
      the entities of [schema.prisma].
    - The second half of the development covers more of the code:
      the array, object, retry and date utilities, authentication, the
      profile routes, pagination and the error handler, with properties
      read off the source. *)

From Stdlib Require Import ZArith QArith Qround Qabs Lia Lqa Bool List.
From Stdlib Require Import Floats.SpecFloat.
From stdpp Require Import gmap strings.

Local Open Scope Z_scope.

(* ===================================================================== *)
(** * JavaScript numbers *)
(* ===================================================================== *)

Module Num.

(** binary64 *)
Definition prec : Z := 53.
Definition emax : Z := 1024.

Definition number : Type := spec_float.

(** A well-formed double: the mantissa is canonical for its exponent. *)
Definition wf (x : number) : bool := valid_binary prec emax x.

(** The double nearest to an integer (exact below 2^53). *)
Definition of_Z (z : Z) : number := binary_normalize prec emax z 0 false.

(** IEEE operations, round to nearest even. *)
Definition mul (x y : number) : number := SFmul prec emax x y.
Definition div (x y : number) : number := SFdiv prec emax x y.
Definition add (x y : number) : number := SFadd prec emax x y.
Definition sub (x y : number) : number := SFsub prec emax x y.

(** The JavaScript relational operators; every comparison with NaN is
    false. *)
Definition lt (x y : number) : bool := SFltb x y.
Definition le (x y : number) : bool := SFleb x y.
Definition gt (x y : number) : bool := SFltb y x.
Definition ge (x y : number) : bool := SFleb y x.

Definition isNaN (x : number) : bool :=
  match x with S754_nan => true | _ => false end.

(** [Number.isFinite] *)
Definition isFinite (x : number) : bool :=
  match x with
  | S754_zero _ | S754_finite _ _ _ => true
  | S754_infinity _ | S754_nan => false
  end.

(** 2^e as a rational. *)
Definition pow2Q (e : Z) : Q :=
  match e with
  | Z0 => 1
  | Zpos p => inject_Z (Zpos (2 ^ p))
  | Zneg p => 1 # (2 ^ p)
  end.

(** The exact value of a finite double; [None] for NaN and the
    infinities. *)
Definition F2Q (x : number) : option Q :=
  match x with
  | S754_zero _ => Some 0%Q
  | S754_finite s m e => Some (inject_Z (cond_Zopp s (Zpos m)) * pow2Q e)%Q
  | S754_infinity _ | S754_nan => None
  end.

(** [Number.isInteger]: finite, and [floor(abs(x)) = abs(x)]. *)
Definition isInteger (x : number) : bool :=
  match F2Q x with
  | None => false
  | Some q => Qeq_bool (inject_Z (Qfloor (Qabs q))) (Qabs q)
  end.

(** Literals used by the source, each the double its decimal text
    denotes. *)
Definition lit_1 : number := Eval vm_compute in of_Z 1.          (* 1, 1.00 *)
Definition lit_8 : number := Eval vm_compute in of_Z 8.
Definition lit_100 : number := Eval vm_compute in of_Z 100.      (* 100, 100.00 *)
Definition lit_0_25 : number :=
  Eval vm_compute in div (of_Z 1) (of_Z 4).                      (* 0.25 *)
Definition lit_0_50 : number :=
  Eval vm_compute in div (of_Z 1) (of_Z 2).                      (* 0.50 *)

(** The number a decimal text with two fractional digits denotes: the
    double nearest to [c / 100].  Both [c] and [100] are exact doubles
    for |c| < 2^53, where the correctly rounded quotient is that double. *)
Definition of_cents (c : Z) : number := div (of_Z c) lit_100.

End Num.

(* ===================================================================== *)
(** * src/shared/utils/index.ts: validation *)
(* ===================================================================== *)

(** [amount >= 1.00 && amount <= 100.00 && Number.isFinite(amount)] *)
Definition validateEntryFee (amount : Num.number) : bool :=
  Num.ge amount Num.lit_1 && Num.le amount Num.lit_100 && Num.isFinite amount.

(** [playerCount >= 1 && playerCount <= 8 && Number.isInteger(playerCount)] *)
Definition validateSessionSize (playerCount : Num.number) : bool :=
  Num.ge playerCount Num.lit_1 && Num.le playerCount Num.lit_8
  && Num.isInteger playerCount.

(* ===================================================================== *)
(** * JavaScript dates (ECMA-262, Date objects) *)
(* ===================================================================== *)

Module JSDate.

Definition msPerDay : Z := 86400000.
Definition msPerHour : Z := 3600000.
Definition msPerMinute : Z := 60000.
Definition msPerSecond : Z := 1000.

(** The largest magnitude of a time value. *)
Definition maxTime : Z := 8640000000000000.

(** A Date is its time value; [None] is the Invalid Date (NaN). *)
Definition Date : Type := option Z.

Definition TimeClip (t : Z) : Date :=
  if Z.abs t >? maxTime then None else Some t.

Definition Day (t : Z) : Z := t / msPerDay.
Definition TimeWithinDay (t : Z) : Z := t mod msPerDay.

Definition DaysInYear (y : Z) : Z :=
  if negb (y mod 4 =? 0) then 365
  else if negb (y mod 100 =? 0) then 366
  else if negb (y mod 400 =? 0) then 365
  else 366.

Definition DayFromYear (y : Z) : Z :=
  365 * (y - 1970) + (y - 1969) / 4 - (y - 1901) / 100 + (y - 1601) / 400.

Definition TimeFromYear (y : Z) : Z := msPerDay * DayFromYear y.

(** The year of a day number, by 400-, 100-, 4- and 1-year cycles counted
    from 1 January 1601 (day -134774). *)
Definition YearFromDay (d : Z) : Z :=
  let n := d + 134774 in
  let q400 := n / 146097 in
  let r400 := n mod 146097 in
  let q100 := Z.min (r400 / 36524) 3 in
  let r100 := r400 - 36524 * q100 in
  let q4 := r100 / 1461 in
  let r4 := r100 mod 1461 in
  let q1 := Z.min (r4 / 365) 3 in
  1601 + 400 * q400 + 100 * q100 + 4 * q4 + q1.

(** The largest [y] with [TimeFromYear y <= t]. *)
Definition YearFromTime (t : Z) : Z := YearFromDay (Day t).

Definition InLeapYear (t : Z) : Z :=
  if DaysInYear (YearFromTime t) =? 366 then 1 else 0.

Definition DayWithinYear (t : Z) : Z := Day t - DayFromYear (YearFromTime t).

Definition MonthFromTime (t : Z) : Z :=
  let d := DayWithinYear t in
  let l := InLeapYear t in
  if d <? 31 then 0
  else if d <? 59 + l then 1
  else if d <? 90 + l then 2
  else if d <? 120 + l then 3
  else if d <? 151 + l then 4
  else if d <? 181 + l then 5
  else if d <? 212 + l then 6
  else if d <? 243 + l then 7
  else if d <? 273 + l then 8
  else if d <? 304 + l then 9
  else if d <? 334 + l then 10
  else 11.

Definition DateFromTime (t : Z) : Z :=
  let d := DayWithinYear t in
  let l := InLeapYear t in
  match MonthFromTime t with
  | 0 => d + 1
  | 1 => d - 30
  | 2 => d - 58 - l
  | 3 => d - 89 - l
  | 4 => d - 119 - l
  | 5 => d - 150 - l
  | 6 => d - 180 - l
  | 7 => d - 211 - l
  | 8 => d - 242 - l
  | 9 => d - 272 - l
  | 10 => d - 303 - l
  | _ => d - 333 - l
  end.

Definition MakeTime (hour min sec ms : Z) : Z :=
  hour * msPerHour + min * msPerMinute + sec * msPerSecond + ms.

(** Day number of the first day of month [mn] (0..11) of year [ym]. *)
Definition DayOfMonthStart (ym mn : Z) : Z :=
  let l := if DaysInYear ym =? 366 then 1 else 0 in
  DayFromYear ym +
  match mn with
  | 0 => 0
  | 1 => 31
  | 2 => 59 + l
  | 3 => 90 + l
  | 4 => 120 + l
  | 5 => 151 + l
  | 6 => 181 + l
  | 7 => 212 + l
  | 8 => 243 + l
  | 9 => 273 + l
  | 10 => 304 + l
  | _ => 334 + l
  end.

(** [MakeDay]: the day on which year [ym], month [mn] starts, plus
    [date - 1]; months beyond 0..11 carry into the year. *)
Definition MakeDay (year month date : Z) : Z :=
  let ym := year + month / 12 in
  let mn := month mod 12 in
  DayOfMonthStart ym mn + date - 1.

Definition MakeDate (day time : Z) : Z := day * msPerDay + time.

(** [new Date(d)] of a Date copies its time value. *)
Definition copy (d : Date) : Date := d.

(** [d.setUTCHours(0, 0, 0, 0)] *)
Definition setUTCHours0 (d : Date) : Date :=
  match d with
  | None => None
  | Some t => TimeClip (MakeDate (Day t) (MakeTime 0 0 0 0))
  end.

(** [d.getUTCDate()]; [None] is NaN. *)
Definition getUTCDate (d : Date) : option Z :=
  match d with
  | None => None
  | Some t => Some (DateFromTime t)
  end.

(** [d.setUTCDate(dt)]; a NaN argument gives the Invalid Date. *)
Definition setUTCDate (d : Date) (dt : option Z) : Date :=
  match d, dt with
  | Some t, Some n =>
      TimeClip (MakeDate (MakeDay (YearFromTime t) (MonthFromTime t) n)
                         (TimeWithinDay t))
  | _, _ => None
  end.

(** The relational operators on Dates compare the time values as
    numbers: false whenever one of them is NaN. *)
Definition le (a b : Date) : bool :=
  match a, b with Some x, Some y => x <=? y | _, _ => false end.
Definition lt (a b : Date) : bool :=
  match a, b with Some x, Some y => x <? y | _, _ => false end.
Definition ge (a b : Date) : bool := le b a.

(** [d + ms] read as a sum of time values (NaN when [d] is invalid). *)
Definition plus_ms (d : Date) (ms : Z) : option Z :=
  match d with Some t => Some (t + ms) | None => None end.

(** The time value of a Date as a number; [None] is NaN. *)
Definition getTime (d : Date) : option Z := d.

End JSDate.

(* ===================================================================== *)
(** * src/shared/utils/index.ts: time utilities *)
(* ===================================================================== *)

(** [const midnight = new Date(date); midnight.setUTCHours(0, 0, 0, 0)] *)
Definition getMidnightUTC (date : JSDate.Date) : JSDate.Date :=
  let midnight := JSDate.copy date in
  JSDate.setUTCHours0 midnight.

(** [const nextMidnight = getMidnightUTC(date);
     nextMidnight.setUTCDate(nextMidnight.getUTCDate() + 1)] *)
Definition getNextMidnightUTC (date : JSDate.Date) : JSDate.Date :=
  let nextMidnight := getMidnightUTC date in
  JSDate.setUTCDate nextMidnight
    (option_map (fun n => n + 1) (JSDate.getUTCDate nextMidnight)).

(* ===================================================================== *)
(** * prisma/schema.prisma: the persisted entities *)
(* ===================================================================== *)

Inductive SessionStatus := WAITING | STARTING | ACTIVE | COMPLETED | CANCELLED.

Inductive TransactionType :=
  ENTRY_FEE | PRIZE_PAYOUT | DEVELOPER_SPLIT | CREATOR_SPLIT
| CREDIT_PURCHASE | REFUND.

Inductive TransactionStatus :=
  TX_PENDING | TX_COMPLETED | TX_FAILED | TX_CANCELLED.

#[global] Instance SessionStatus_eq_dec : EqDecision SessionStatus.
Proof. solve_decision. Defined.
#[global] Instance TransactionType_eq_dec : EqDecision TransactionType.
Proof. solve_decision. Defined.
#[global] Instance TransactionStatus_eq_dec : EqDecision TransactionStatus.
Proof. solve_decision. Defined.

(** [model User]: money is [Decimal(10, 2)], kept in cents; a [DateTime]
    is a time value in milliseconds. *)
Record User := {
  user_id : string;
  whopUserId : string;
  username : string;
  creditsBalance : Z;
  tokensRemaining : Z;
  lastTokenReset : Z;
  createdAt : Z;
  updatedAt : Z
}.

(** [model GameSession], [model GameParticipant] and [model Transaction],
    without the columns nothing below reads ([gameData], [metadata],
    identifiers and bookkeeping timestamps). *)
Record GameSession := {
  session_id : string;
  creatorId : string;
  entryFee : Z;
  maxPlayers : Z;
  currentPlayers : Z;
  status : SessionStatus;
  startedAt : option Z;
  endedAt : option Z
}.

Record GameParticipant := {
  gp_sessionId : string;
  gp_userId : string;
  score : Z;
  placement : option Z
}.

Record Transaction := {
  tx_userId : string;
  tx_sessionId : option string;
  amount : Z;
  transactionType : TransactionType;
  tx_status : TransactionStatus
}.

(** The relational store.  [db_online = false] makes every query throw. *)
Record Database := {
  db_online : bool;
  users : gmap string User;
  sessions : gmap string GameSession;
  participants : list GameParticipant;
  transactions : list Transaction
}.

(* ===================================================================== *)
(** * src/server/services/redis.ts: the cache *)
(* ===================================================================== *)

(** The JSON values the handlers keep under the [user:tokens:<id>] keys.
    [requireTokens] writes and expects [{tokens, lastReset}]; the
    [/tokens] routes write [{tokensRemaining, lastTokenReset, maxTokens,
    nextReset}] under the same key. *)
Inductive CacheValue :=
| GateTokens (tokens : Z) (lastReset : Z)
| TokenStatus (tokensRemaining : Z) (lastTokenReset : Z) (maxTokens : Z)
              (nextReset : Z).

Record Cache := {
  cache_online : bool;
  entries : gmap string CacheValue
}.

(** [CacheService.get]: [null] on a miss and on any Redis error. *)
Definition cache_get (c : Cache) (key : string) : option CacheValue :=
  if cache_online c then entries c !! key else None.

(** [CacheService.set]: a Redis error is swallowed ([false] is returned and
    ignored by every caller).  The time to live (60 seconds for the token
    entries) is not modelled: an entry may be gone at any later time,
    which is a smaller [entries] map, and a statement about a later
    request says which entry that request still finds. *)
Definition cache_set (c : Cache) (key : string) (v : CacheValue) : Cache :=
  if cache_online c
  then {| cache_online := true; entries := <[key := v]> (entries c) |}
  else c.

Record World := {
  db : Database;
  cache : Cache
}.

(** [CACHE_KEYS.USER_TOKENS] *)
Definition USER_TOKENS (userId : string) : string :=
  String.append "user:tokens:" userId.

(** [TOKEN_CONFIG.DAILY_TOKEN_COUNT] *)
Definition DAILY_TOKEN_COUNT : Z := 3.

(** [ERROR_CODES] and the literal codes of the user routes. *)
Inductive ErrorCode :=
  UNAUTHORIZED | USER_NOT_FOUND | INTERNAL_ERROR | NO_TOKENS_REMAINING
| INSUFFICIENT_CREDITS | TOKENS_ALREADY_RESET | VALIDATION_ERROR.

(* ===================================================================== *)
(** * Requests and responses *)
(* ===================================================================== *)

(** [req.user], set by [authMiddleware]. *)
Record AuthUser := {
  au_id : string;
  au_whopUserId : string;
  au_username : string
}.

(** The [data] member of a JSON response. *)
Inductive ResponseData :=
| NoData
| TokenShortage (required : Z) (available : option Z) (nextReset : Z)
| CreditShortage (required available deficit : Num.number)
| ResetRefused (tokensRemaining lastReset nextReset : Z)
| TokenData (v : CacheValue)
| Joined (sessionId : string).

(** [res.status(s).json({error, data})]; [res.json] alone is status 200.
    The [message] texts are left out. *)
Record Response := {
  res_status : Z;
  res_error : option ErrorCode;
  res_data : ResponseData
}.

(** What a middleware does with a request: answer it, or hand it on. *)
Inductive Outcome :=
| Respond (r : Response)
| Next.

Definition fail (s : Z) (e : ErrorCode) (d : ResponseData) : Outcome :=
  Respond {| res_status := s; res_error := Some e; res_data := d |}.

Definition ok (d : ResponseData) : Outcome :=
  Respond {| res_status := 200; res_error := None; res_data := d |}.

(** [prisma.user.findUnique({ where: { id } })]: [None] when the query
    throws, [Some None] for [null]. *)
Definition findUniqueUser (d : Database) (id : string) : option (option User) :=
  if db_online d then Some (users d !! id) else None.

(* ===================================================================== *)
(** * src/server/middleware/auth.ts: the gates *)
(* ===================================================================== *)

(** [getNextTokenReset]: [tomorrow.setUTCDate(tomorrow.getUTCDate() + 1);
    tomorrow.setUTCHours(0, 0, 0, 0); tomorrow.toISOString()].
    [toISOString] throws on the Invalid Date: [None]. *)
Definition getNextTokenReset (now : Z) : option Z :=
  let tomorrow := JSDate.TimeClip now in
  let tomorrow :=
    JSDate.setUTCDate tomorrow
      (option_map (fun n => n + 1) (JSDate.getUTCDate tomorrow)) in
  JSDate.setUTCHours0 tomorrow.

(** [tokenData.tokens]: [undefined] on an object without that member. *)
Definition tokens_member (v : CacheValue) : option Z :=
  match v with
  | GateTokens t _ => Some t
  | TokenStatus _ _ _ _ => None
  end.

(** [a < b] with [a] possibly [undefined]: [undefined] converts to NaN and
    the comparison is false. *)
Definition js_lt (a : option Z) (b : Z) : bool :=
  match a with
  | Some x => x <? b
  | None => false
  end.

(** The tail of [requireTokens] once [tokenData] is known. *)
Definition checkTokens (requiredTokens now : Z) (tokenData : CacheValue)
    (w : World) : Outcome * World :=
  if js_lt (tokens_member tokenData) requiredTokens then
    match getNextTokenReset now with
    | Some nextReset =>
        (fail 403 NO_TOKENS_REMAINING
           (TokenShortage requiredTokens (tokens_member tokenData) nextReset), w)
    | None => (fail 500 INTERNAL_ERROR NoData, w)
    end
  else (Next, w).

(** The middleware [requireTokens(requiredTokens)] returns, applied to a
    request ([requiredTokens] defaults to 1 in the source); [now] is the
    clock read by [getNextTokenReset]. *)
Definition requireTokens (requiredTokens : Z) (now : Z)
    (user : option AuthUser) (w : World) : Outcome * World :=
  match user with
  | None => (fail 401 UNAUTHORIZED NoData, w)
  | Some u =>
      let userId := au_id u in
      let cacheKey := USER_TOKENS userId in
      match cache_get (cache w) cacheKey with
      | Some tokenData => checkTokens requiredTokens now tokenData w
      | None =>
          match findUniqueUser (db w) userId with
          | None => (fail 500 INTERNAL_ERROR NoData, w)
          | Some None => (fail 401 USER_NOT_FOUND NoData, w)
          | Some (Some user) =>
              let tokenData :=
                GateTokens (tokensRemaining user) (lastTokenReset user) in
              let w' :=
                {| db := db w; cache := cache_set (cache w) cacheKey tokenData |} in
              checkTokens requiredTokens now tokenData w'
          end
      end
  end.

(** The middleware [requireCredits(requiredAmount)] returns, applied to
    a request. *)
Definition requireCredits (requiredAmount : Num.number)
    (user : option AuthUser) (w : World) : Outcome * World :=
  match user with
  | None => (fail 401 UNAUTHORIZED NoData, w)
  | Some u =>
      match findUniqueUser (db w) (au_id u) with
      | None => (fail 500 INTERNAL_ERROR NoData, w)
      | Some None => (fail 401 USER_NOT_FOUND NoData, w)
      | Some (Some user) =>
          (* parseFloat(user.creditsBalance.toString()) *)
          let balance := Num.of_cents (creditsBalance user) in
          if Num.lt balance requiredAmount then
            (fail 403 INSUFFICIENT_CREDITS
               (CreditShortage requiredAmount balance
                  (Num.sub requiredAmount balance)), w)
          else (Next, w)
      end
  end.

(* ===================================================================== *)
(** * src/server/routes/user.ts: the token routes *)
(* ===================================================================== *)

(** A route handler wrapped in [asyncHandler]: an exception it throws
    reaches [errorHandler], whose default answer is 500 INTERNAL_ERROR.
    Each request reads the clock once ([now]). *)
Definition thrown : Outcome := fail 500 INTERNAL_ERROR NoData.

(** [router.get('/tokens', ...)] *)
Definition getTokens (now : Z) (user : option AuthUser) (w : World)
    : Outcome * World :=
  match user with
  | None => (thrown, w)                      (* req.user!.id *)
  | Some u =>
      let userId := au_id u in
      let cacheKey := USER_TOKENS userId in
      match cache_get (cache w) cacheKey with
      | Some tokenData => (ok (TokenData tokenData), w)
      | None =>
          match findUniqueUser (db w) userId with
          | None => (thrown, w)
          | Some None => (fail 404 USER_NOT_FOUND NoData, w)
          | Some (Some user) =>
              match getNextTokenReset now with
              | None => (thrown, w)
              | Some nextReset =>
                  let tokenData :=
                    TokenStatus (tokensRemaining user) (lastTokenReset user)
                      DAILY_TOKEN_COUNT nextReset in
                  (ok (TokenData tokenData),
                   {| db := db w;
                      cache := cache_set (cache w) cacheKey tokenData |})
              end
          end
      end
  end.

(** [prisma.user.update({ where: { id }, data: { tokensRemaining,
    lastTokenReset } })]; [updatedAt] carries [@updatedAt]. *)
Definition updateUserTokens (d : Database) (id : string) (u : User)
    (tokens : Z) (reset : Z) : Database * User :=
  let u' := {| user_id := user_id u; whopUserId := whopUserId u;
               username := username u; creditsBalance := creditsBalance u;
               tokensRemaining := tokens; lastTokenReset := reset;
               createdAt := createdAt u; updatedAt := reset |} in
  ({| db_online := db_online d; users := <[id := u']> (users d);
      sessions := sessions d; participants := participants d;
      transactions := transactions d |}, u').

(** [router.post('/tokens/reset', ...)] *)
Definition resetTokens (now : Z) (user : option AuthUser) (w : World)
    : Outcome * World :=
  match user with
  | None => (thrown, w)
  | Some u =>
      let userId := au_id u in
      let now_d := JSDate.TimeClip now in
      let lastMidnight := JSDate.setUTCHours0 (JSDate.copy now_d) in
      match findUniqueUser (db w) userId with
      | None => (thrown, w)
      | Some None => (fail 404 USER_NOT_FOUND NoData, w)
      | Some (Some user) =>
          let lastReset := JSDate.TimeClip (lastTokenReset user) in
          if JSDate.ge lastReset lastMidnight then
            match getNextTokenReset now with
            | None => (thrown, w)
            | Some nextReset =>
                (fail 400 TOKENS_ALREADY_RESET
                   (ResetRefused (tokensRemaining user) (lastTokenReset user)
                      nextReset), w)
            end
          else
            match now_d with
            | None => (thrown, w)            (* an invalid DateTime is refused *)
            | Some t =>
                let '(d', updatedUser) :=
                  updateUserTokens (db w) userId user DAILY_TOKEN_COUNT t in
                match getNextTokenReset now with
                | None => (thrown, {| db := d'; cache := cache w |})
                | Some nextReset =>
                    let tokenData :=
                      TokenStatus (tokensRemaining updatedUser)
                        (lastTokenReset updatedUser) DAILY_TOKEN_COUNT
                        nextReset in
                    (ok (TokenData tokenData),
                     {| db := d';
                        cache := cache_set (cache w) (USER_TOKENS userId)
                                   tokenData |})
                end
            end
      end
  end.

(* ===================================================================== *)
(** * src/server/routes/session.ts *)
(* ===================================================================== *)

(** A member of a parsed JSON body. *)
Inductive JsValue :=
| JUndefined
| JNull
| JBool (b : bool)
| JNum (x : Num.number)
| JStr (s : string)
| JCompound.

(** [req.body]: an object with its members, or anything else. *)
Inductive Body :=
| BodyObject (members : gmap string JsValue)
| BodyOther.

(** Reading a member that is absent gives [undefined]. *)
Definition member (o : gmap string JsValue) (k : string) : JsValue :=
  default JUndefined (o !! k).

(** zod: [z.number().min(lo).max(hi)] accepts a value of type number that
    is not NaN, is not below [lo] and is not above [hi]. *)
Definition z_number_min_max (lo hi : Num.number) (v : JsValue) : bool :=
  match v with
  | JNum x => negb (Num.isNaN x) && negb (Num.lt x lo) && negb (Num.gt x hi)
  | _ => false
  end.

(** zod: [.optional()] also accepts [undefined]. *)
Definition z_optional (inner : JsValue -> bool) (v : JsValue) : bool :=
  match v with
  | JUndefined => true
  | _ => inner v
  end.

(** [createSessionSchema.safeParse(req.body).success] *)
Definition createSessionSchema (b : Body) : bool :=
  match b with
  | BodyObject o =>
      z_number_min_max Num.lit_1 Num.lit_100 (member o "entryFee")
      && z_optional (z_number_min_max Num.lit_1 Num.lit_8)
           (member o "maxPlayers")
  | BodyOther => false
  end.

(** The result of a route handler: an answer, or an error thrown to
    [errorHandler]. *)
Inductive CreateResult :=
| CreateOk (entryFee : JsValue) (maxPlayers : JsValue)
| CreateThrows (e : ErrorCode) (statusCode : Z).

(** [router.post('/create', ...)]: [throw new ValidationError(...)], which
    is [AppError(VALIDATION_ERROR, message, 400)], or the placeholder
    answer carrying the parsed data.  The store is not touched. *)
Definition createSession (b : Body) : CreateResult :=
  if createSessionSchema b then
    match b with
    | BodyObject o => CreateOk (member o "entryFee") (member o "maxPlayers")
    | BodyOther => CreateThrows VALIDATION_ERROR 400
    end
  else CreateThrows VALIDATION_ERROR 400.

(** [router.post('/:id/join', ...)]: the placeholder answer; no query is
    issued. *)
Definition joinSession (sessionId : string) (w : World) : Outcome * World :=
  (ok (Joined sessionId), w).

(** A middleware in front of a handler, as Express chains them. *)
Definition guarded (gate : World -> Outcome * World)
    (handler : World -> Outcome * World) (w : World) : Outcome * World :=
  match gate w with
  | (Next, w') => handler w'
  | (Respond r, w') => (Respond r, w')
  end.

(* ===================================================================== *)
(** * src/shared/utils/index.ts: calculatePaymentSplit *)
(* ===================================================================== *)

(** The string [x.toFixed(2)] produces. *)
Inductive FixedString :=
| Decimal2 (negative : bool) (n : Z)   (* the digits of n, point before the last two *)
| Verbatim (x : Num.number).           (* ToString(x): NaN, infinities, x >= 1e21 *)

(** [Number.prototype.toFixed] with two fraction digits: [n] is the
    integer for which [n / 100 - x] is as close to zero as possible, the
    larger one when there are two. *)
Definition toFixed2 (x : Num.number) : FixedString :=
  match Num.F2Q x with
  | None => Verbatim x
  | Some q =>
      let negative := Qlt_le_dec q 0 in
      let a := Qabs q in
      if Qle_bool (inject_Z (10 ^ 21)) a then Verbatim x
      else Decimal2 (if negative then true else false)
                    (Qfloor (a * 100 + (1 # 2)))
  end.

(** [Number(s)] of such a string: the double nearest to the decimal it
    spells (see [Num.of_cents]; [-0] for "-0.00"). *)
Definition Number_of (s : FixedString) : Num.number :=
  match s with
  | Verbatim x => x
  | Decimal2 negative n =>
      if n =? 0 then S754_zero negative
      else Num.of_cents (cond_Zopp negative n)
  end.

Record PaymentSplit := {
  developer : Num.number;
  creator : Num.number;
  winner : Num.number
}.

Definition calculatePaymentSplit (totalAmount : Num.number) : PaymentSplit :=
  let developerAmount := Num.mul totalAmount Num.lit_0_25 in
  let creatorAmount := Num.mul totalAmount Num.lit_0_25 in
  let winnerAmount := Num.mul totalAmount Num.lit_0_50 in
  {| developer := Number_of (toFixed2 developerAmount);
     creator := Number_of (toFixed2 creatorAmount);
     winner := Number_of (toFixed2 winnerAmount) |}.

(* ===================================================================== *)
(** * The session life cycle *)
(* ===================================================================== *)

Module Lifecycle.

(** Modelled from the spec: the operations of the Session State Machine
    (section 4.3: join, start, the lobby timeout, recordInput, complete,
    cancel, the disconnect grace timeout).  [start] is taken in its two
    steps, entering the pre-race countdown and the countdown running
    out.  The repository declares [SessionStatus] and
    [GameSession.status] (default [WAITING]); its route and socket
    handlers for these operations are placeholders that never write the
    status. *)
Inductive Op :=
| Join
| Start (ready : bool)     (* threshold met, or the creator forces it *)
| Countdown
| LobbyTimeout
| RecordInput
| Complete
| Cancel
| AllDisconnected.

(** Modelled from the spec: the statuses an operation writes, in order,
    when the session is in status [s]; [None] when the operation is
    rejected there. *)
Definition writes (op : Op) (s : SessionStatus) : option (list SessionStatus) :=
  match op, s with
  | Join, WAITING => Some []
  | Start true, WAITING => Some [STARTING]
  | Start false, WAITING => Some []
  | Countdown, STARTING => Some [ACTIVE]
  | LobbyTimeout, WAITING => Some [CANCELLED]
  | RecordInput, ACTIVE => Some []
  | Complete, ACTIVE => Some [COMPLETED]
  | Cancel, (WAITING | STARTING | ACTIVE) => Some [CANCELLED]
  | AllDisconnected, ACTIVE => Some [CANCELLED]
  | _, _ => None
  end.

(** The status a session is left in: the last one written, if any. *)
Definition after (op : Op) (s : SessionStatus) : SessionStatus :=
  match writes op s with
  | Some l => List.last l s
  | None => s
  end.

(** Every status written by a run of operations, oldest first. *)
Fixpoint history (ops : list Op) (s : SessionStatus) : list SessionStatus :=
  match ops with
  | [] => []
  | op :: rest => default [] (writes op s) ++ history rest (after op s)
  end.

(** Modelled from the spec: the transitions the data model allows
    (section 3, invariants). *)
Definition legal (a b : SessionStatus) : bool :=
  match a, b with
  | WAITING, STARTING | STARTING, ACTIVE | ACTIVE, COMPLETED => true
  | (WAITING | STARTING | ACTIVE), CANCELLED => true
  | _, _ => false
  end.

Definition terminal (s : SessionStatus) : bool :=
  match s with
  | COMPLETED | CANCELLED => true
  | _ => false
  end.

(** Every step of [s :: l] is a legal transition. *)
Fixpoint chain (s : SessionStatus) (l : list SessionStatus) : bool :=
  match l with
  | [] => true
  | s' :: rest => legal s s' && chain s' rest
  end.

(** [GameSession.status] has [@default(WAITING)]. *)
Definition initial : SessionStatus := WAITING.

End Lifecycle.

(* ===================================================================== *)
(** * Settlement *)
(* ===================================================================== *)

Module Settlement.

(** Modelled from the spec: the store together with the per-session
    settlement flags that guard [settle] (section 4.4); the schema has no
    such column. *)
Record Ledger := {
  store : Database;
  settled : gset string
}.

Inductive SettleError := SessionNotFound | NotCompleted | NoWinner.

(** Modelled from the spec: the account credited with the developer
    share. *)
Definition developerAccount : string := "developer".

Definition isSplit (t : TransactionType) : bool :=
  match t with
  | DEVELOPER_SPLIT | CREATOR_SPLIT | PRIZE_PAYOUT => true
  | _ => false
  end.

(** The split transactions recorded for a session. *)
Definition splitsOf (sid : string) (txs : list Transaction) : list Transaction :=
  List.filter
    (fun t => isSplit (transactionType t)
              && bool_decide (tx_sessionId t = Some sid)) txs.

(** Modelled from the spec: the pool is what was debited as entry fees
    for the session (section 4.4). *)
Definition poolOf (sid : string) (txs : list Transaction) : Z :=
  fold_right Z.add 0
    (List.map (fun t => Z.abs (amount t))
       (List.filter
          (fun t => bool_decide (transactionType t = ENTRY_FEE)
                    && bool_decide (tx_sessionId t = Some sid)) txs)).

(** Modelled from the spec: 25% / 25% / 50% in whole cents, the winner
    taking the remainder (section 4.4). *)
Definition splitOf (pool : Z) : Z * Z * Z :=
  let d := (pool * 25) / 100 in
  let c := (pool * 25) / 100 in
  (d, c, pool - d - c).

(** Modelled from the spec: the winner is the participant placed first
    in the session (section 4.4). *)
Definition winnerOf (sid : string) (ps : list GameParticipant) : option string :=
  option_map gp_userId
    (List.find
       (fun p => bool_decide (gp_sessionId p = sid)
                 && bool_decide (placement p = Some 1)) ps).

Definition credit (uid sid : string) (a : Z) (t : TransactionType) : Transaction :=
  {| tx_userId := uid; tx_sessionId := Some sid; amount := a;
     transactionType := t; tx_status := TX_COMPLETED |}.

Definition appendTransactions (d : Database) (txs : list Transaction) : Database :=
  {| db_online := db_online d; users := users d; sessions := sessions d;
     participants := participants d;
     transactions := transactions d ++ txs |}.

(** Modelled from the spec: [settle(sessionId)] of the Settlement Engine
    (section 4.4), guarded by the per-session settlement flag: a no-op
    once the session is flagged; otherwise all three split transactions
    and the flag, or nothing.  The repository has the [Transaction] and
    [GameSession] tables and no settlement code. *)
Definition settle (sid : string) (l : Ledger) : SettleError + Ledger :=
  if bool_decide (sid ∈ settled l) then inr l
  else
    match sessions (store l) !! sid with
    | None => inl SessionNotFound
    | Some s =>
        if bool_decide (status s = COMPLETED) then
          match winnerOf sid (participants (store l)) with
          | None => inl NoWinner
          | Some w =>
              let '(d, c, p) := splitOf (poolOf sid (transactions (store l))) in
              inr {| store :=
                       appendTransactions (store l)
                         [credit developerAccount sid d DEVELOPER_SPLIT;
                          credit (creatorId s) sid c CREATOR_SPLIT;
                          credit w sid p PRIZE_PAYOUT];
                     settled := {[sid]} ∪ settled l |}
          end
        else inl NotCompleted
    end.

(** Modelled from the spec: what else changes the ledger.  Entry fees,
    refunds and purchases are recorded by the other components; the
    session table and the participants change freely; only [settle]
    records split transactions. *)
Inductive Event :=
| RecordTx (t : Transaction)
| PutSession (sid : string) (s : GameSession)
| PutParticipant (p : GameParticipant)
| Settle (sid : string).

Definition perform (e : Event) (l : Ledger) : Ledger :=
  match e with
  | RecordTx t =>
      if isSplit (transactionType t) then l
      else {| store := appendTransactions (store l) [t]; settled := settled l |}
  | PutSession sid s =>
      {| store :=
           {| db_online := db_online (store l); users := users (store l);
              sessions := <[sid := s]> (sessions (store l));
              participants := participants (store l);
              transactions := transactions (store l) |};
         settled := settled l |}
  | PutParticipant p =>
      {| store :=
           {| db_online := db_online (store l); users := users (store l);
              sessions := sessions (store l);
              participants := p :: participants (store l);
              transactions := transactions (store l) |};
         settled := settled l |}
  | Settle sid =>
      match settle sid l with
      | inr l' => l'
      | inl _ => l
      end
  end.

Definition run (es : list Event) (l : Ledger) : Ledger :=
  fold_left (fun acc e => perform e acc) es l.

(** The ledger before anything happened. *)
Definition genesis : Ledger :=
  {| store := {| db_online := true; users := ∅; sessions := ∅;
                 participants := []; transactions := [] |};
     settled := ∅ |}.

End Settlement.

(* ===================================================================== *)
(** * src/shared/utils/index.ts: array, object and timing utilities *)
(* ===================================================================== *)

(** [Array.prototype.slice(start, end)] on integral arguments: a negative
    index counts from the end, both are clamped to the array, and an
    empty range gives the empty array. *)
Definition slice {A : Type} (array : list A) (start finish : Z) : list A :=
  let len := Z.of_nat (length array) in
  let k := if start <? 0 then Z.max (len + start) 0 else Z.min start len in
  let final := if finish <? 0 then Z.max (len + finish) 0 else Z.min finish len in
  take (Z.to_nat (final - k)) (drop (Z.to_nat k) array).

(** The loop of [chunk]:
    [for (let i = 0; i < array.length; i += size)
       chunks.push(array.slice(i, i + size))].
    Each turn of the loop spends one unit of [fuel]; [None] when the
    fuel runs out before the loop ends. *)
Fixpoint chunk_loop {A : Type} (fuel : nat) (array : list A) (size i : Z)
    (chunks : list (list A)) : option (list (list A)) :=
  if i <? Z.of_nat (length array) then
    match fuel with
    | O => None
    | S fuel' =>
        chunk_loop fuel' array size (i + size)
          (chunks ++ [slice array i (i + size)])
    end
  else Some chunks.

(** [chunk(array, size)] for an integral [size]. *)
Definition chunk {A : Type} (fuel : nat) (array : list A) (size : Z)
    : option (list (list A)) :=
  chunk_loop fuel array size 0 [].

(** An ordinary JavaScript object as [pick] and [omit] see it: the
    members a spread [{ ...obj }] copies (own and enumerable), and the
    other members [key in obj] finds, under the names no such member
    carries: the own members that are not enumerable and those inherited
    through the prototype chain (the methods of a class instance, the
    members of [Object.prototype]).  Members are named by strings, a
    numeric key by its decimal text; symbols are not modelled. *)
Record JsObject (V : Type) := {
  own_members : gmap string V;
  other_members : gmap string V
}.
Arguments own_members {V} _.
Arguments other_members {V} _.

(** [obj[key]] where [key in obj] holds, [None] where it does not. *)
Definition js_get {V : Type} (obj : JsObject V) (key : string) : option V :=
  match own_members obj !! key with
  | Some v => Some v
  | None => other_members obj !! key
  end.

(** [pick(obj, keys)], as the own members of the object it returns:
    [keys.forEach(key => { if (key in obj) result[key] = obj[key] })].
    On the object made by [{}] the assignment makes a new own member, or
    gives the one there a new value.  That is so for every name but
    [__proto__], which reaches the setter of [Object.prototype] and can
    replace the prototype of [result]: [keys] is taken without that
    name. *)
Definition pick {V : Type} (obj : JsObject V) (keys : list string)
    : gmap string V :=
  foldl (fun result key =>
           match js_get obj key with           (* key in obj *)
           | Some v => <[key := v]> result     (* result[key] = obj[key] *)
           | None => result
           end) ∅ keys.

(** [omit(obj, keys)], as the own members of the object it returns:
    [const result = { ...obj }], then [delete result[key]] for every
    key. *)
Definition omit {V : Type} (obj : JsObject V) (keys : list string)
    : gmap string V :=
  foldl (fun result key => delete key result) (own_members obj) keys.

(** A settled promise. *)
Inductive Settled (T E : Type) :=
| Resolved (value : T)
| Rejected (error : E).
Arguments Resolved {T E} value.
Arguments Rejected {T E} error.

(** What a run of [retry] did: how it settled, how often [fn] was called
    and the arguments of its [sleep] calls, in order. *)
Record RetryRun (T E : Type) := {
  settled : Settled T (option E);
  calls : nat;
  sleeps : list Z
}.
Arguments settled {T E} r.
Arguments calls {T E} r.
Arguments sleeps {T E} r.

(** The loop of [retry], entered with counter [i] and [rest] turns left
    before [i] reaches [attempts].  [fn n] is how the call number [n] of
    [fn] settles.  [throw lastError!] after the loop throws [undefined]
    ([None]) when the loop body never ran. *)
Fixpoint retry_loop {T E : Type} (fn : nat -> Settled T E)
    (attempts delay : Z) (rest : nat) (i : Z) (lastError : option E)
    (slept : list Z) : RetryRun T E :=
  match rest with
  | O => {| settled := Rejected lastError; calls := Z.to_nat i;
            sleeps := slept |}
  | S rest' =>
      match fn (Z.to_nat i) with
      | Resolved v => {| settled := Resolved v; calls := S (Z.to_nat i);
                         sleeps := slept |}
      | Rejected error =>
          let slept' :=
            if i <? attempts - 1 then slept ++ [delay * (i + 1)] else slept in
          retry_loop fn attempts delay rest' (i + 1) (Some error) slept'
      end
  end.

(** [retry(fn, attempts, delay)] for integral [attempts] and [delay]
    (3 and 1000 by default). *)
Definition retry {T E : Type} (fn : nat -> Settled T E) (attempts delay : Z)
    : RetryRun T E :=
  retry_loop fn attempts delay (Z.to_nat attempts) 0 None [].

(** One call, at clock reading [now], of the function [throttle(func,
    delay)] returns: whether [func] is called, and the new [lastCall].
    Clock readings and [delay] are whole milliseconds. *)
Definition throttled (delay : Z) (lastCall now : Z) : bool * Z :=
  if delay <=? now - lastCall then (true, now) else (false, lastCall).

(** The clock readings at which [func] runs when the throttled function
    is called at the readings [clock], in order. *)
Fixpoint throttle_from (delay : Z) (lastCall : Z) (clock : list Z) : list Z :=
  match clock with
  | [] => []
  | now :: clock' =>
      let '(called, lastCall') := throttled delay lastCall now in
      if called then now :: throttle_from delay lastCall' clock'
      else throttle_from delay lastCall' clock'
  end.

(** [throttle(func, delay)]: [let lastCall = 0]. *)
Definition throttle (delay : Z) (clock : list Z) : list Z :=
  throttle_from delay 0 clock.

(* ===================================================================== *)
(** * src/shared/utils/index.ts: getDateString *)
(* ===================================================================== *)

(** The decimal digit [n] as a character. *)
Definition digitChar (n : Z) : Ascii.ascii :=
  Ascii.ascii_of_N (Z.to_N (48 + n)).

(** The characters ['T'], ['-'] and ['+']. *)
Definition char_T : Ascii.ascii := Ascii.ascii_of_N 84.
Definition char_minus : Ascii.ascii := Ascii.ascii_of_N 45.
Definition char_plus : Ascii.ascii := Ascii.ascii_of_N 43.

(** [n] written with [width] decimal digits, zeros in front. *)
Fixpoint padStart (width : nat) (n : Z) : string :=
  match width with
  | O => ""
  | S w =>
      String (digitChar (n / 10 ^ Z.of_nat w))
             (padStart w (n mod 10 ^ Z.of_nat w))
  end.

(** ECMA-262, Date Time String Format: a year from 0 to 9999 has four
    digits, any other year a sign and six digits. *)
Definition yearString (y : Z) : string :=
  if (0 <=? y) && (y <=? 9999) then padStart 4 y
  else String (if y <? 0 then char_minus else char_plus)
              (padStart 6 (Z.abs y)).

Definition HourFromTime (t : Z) : Z := (t / JSDate.msPerHour) mod 24.
Definition MinFromTime (t : Z) : Z := (t / JSDate.msPerMinute) mod 60.
Definition SecFromTime (t : Z) : Z := (t / JSDate.msPerSecond) mod 60.
Definition msFromTime (t : Z) : Z := t mod JSDate.msPerSecond.

(** The date part [YYYY-MM-DD] of the ISO string. *)
Definition isoDate (t : Z) : string :=
  yearString (JSDate.YearFromTime t)
  +:+ "-" +:+ padStart 2 (JSDate.MonthFromTime t + 1)
  +:+ "-" +:+ padStart 2 (JSDate.DateFromTime t).

(** The time part [HH:mm:ss.sssZ]. *)
Definition isoTime (t : Z) : string :=
  padStart 2 (HourFromTime t)
  +:+ ":" +:+ padStart 2 (MinFromTime t)
  +:+ ":" +:+ padStart 2 (SecFromTime t)
  +:+ "." +:+ padStart 3 (msFromTime t)
  +:+ "Z".

(** [Date.prototype.toISOString]; it throws a RangeError on the Invalid
    Date: [None]. *)
Definition toISOString (d : JSDate.Date) : option string :=
  match d with
  | None => None
  | Some t => Some (isoDate t +:+ "T" +:+ isoTime t)
  end.

(** [s.split('T')[0]]: what stands before the first ['T']. *)
Fixpoint split_T_0 (s : string) : string :=
  match s with
  | EmptyString => EmptyString
  | String c s' =>
      if Ascii.eqb c char_T then EmptyString else String c (split_T_0 s')
  end.

(** [getDateString]: [date.toISOString().split('T')[0]]. *)
Definition getDateString (date : JSDate.Date) : option string :=
  option_map split_T_0 (toISOString date).

(* ===================================================================== *)
(** * src/server/middleware/auth.ts: authentication *)
(* ===================================================================== *)

(** [CACHE_KEYS.USER_PROFILE] *)
Definition USER_PROFILE (userId : string) : string :=
  String.append "user:profile:" userId.

(** The row [getUserFromCacheOrDB] selects and caches:
    [{id, whopUserId, username, creditsBalance, tokensRemaining,
    lastTokenReset}]. *)
Record CachedUser := {
  cu_id : string;
  cu_whopUserId : string;
  cu_username : string;
  cu_creditsBalance : Z;
  cu_tokensRemaining : Z;
  cu_lastTokenReset : Z
}.

(** The [stats] member of [UserProfileResponse]. *)
Record UserStats := {
  totalGames : Z;
  totalWins : Z;
  totalEarnings : Num.number;
  bestScore : Z;
  winRate : Num.number
}.

(** The JSON values kept under the [user:profile:<id>] keys.
    [getUserFromCacheOrDB] writes and expects the selected row; [GET
    /profile] writes its [UserProfileResponse], [{user: {...}, stats:
    {...}}], under the same key. *)
Inductive ProfileEntry :=
| AuthRow (row : CachedUser)
| ProfilePage (user : User) (balance : Num.number) (stats : UserStats).

(** The server state: the store and the token entries of the cache, and
    the entries under the [user:profile:] keys, which are apart from the
    [user:tokens:] keys.  It is one Redis: [cache_online] is shared. *)
Record Server := {
  world : World;
  profiles : gmap string ProfileEntry
}.

(** [cache.get], [cache.set] and [cache.del] on a profile key. *)
Definition profile_get (s : Server) (key : string) : option ProfileEntry :=
  if cache_online (cache (world s)) then profiles s !! key else None.

Definition profile_set (s : Server) (key : string) (v : ProfileEntry) : Server :=
  if cache_online (cache (world s))
  then {| world := world s; profiles := <[key := v]> (profiles s) |}
  else s.

Definition profile_del (s : Server) (key : string) : Server :=
  if cache_online (cache (world s))
  then {| world := world s; profiles := delete key (profiles s) |}
  else s.

(** [extractTokenFromHeader]: [null] unless the header is there and
    starts with ['Bearer '], else [authHeader.substring(7)]. *)
Definition extractTokenFromHeader (authHeader : option string) : option string :=
  match authHeader with
  | None => None
  | Some h =>
      if (String.length h =? 0)%nat || negb (String.prefix "Bearer " h)
      then None
      else Some (String.substring 7 (String.length h - 7) h)
  end.

(** [jwt.verify(token, secret)]: the decoded payload, [None] when it
    throws (bad signature, expired, malformed). *)
Definition JwtVerify : Type := string -> string -> option Body.

Inductive Verified :=
| SecretMissing                (* throw new Error('JWT_SECRET not configured') *)
| VerifyThrows
| Decoded (payload : Body).

(** [verifyJwtToken]; [jwtSecret] is [process.env.JWT_SECRET]. *)
Definition verifyJwtToken (verify : JwtVerify) (jwtSecret : option string)
    (token : string) : Verified :=
  match jwtSecret with
  | None => SecretMissing
  | Some secret =>
      if (String.length secret =? 0)%nat then SecretMissing
      else match verify token secret with
           | Some payload => Decoded payload
           | None => VerifyThrows
           end
  end.

(** zod: [z.number()]. *)
Definition z_number (v : JsValue) : bool :=
  match v with JNum x => negb (Num.isNaN x) | _ => false end.

(** [tokenSchema.safeParse(decoded)]: on success, [userId] and
    [whopUserId] of the payload. *)
Definition tokenSchema (decoded : Body) : option (string * string) :=
  match decoded with
  | BodyObject o =>
      match member o "userId", member o "whopUserId" with
      | JStr userId, JStr whopUserId =>
          if z_number (member o "iat") && z_number (member o "exp")
          then Some (userId, whopUserId)
          else None
      | _, _ => None
      end
  | BodyOther => None
  end.

Definition selectAuthRow (u : User) : CachedUser :=
  {| cu_id := user_id u; cu_whopUserId := whopUserId u;
     cu_username := username u; cu_creditsBalance := creditsBalance u;
     cu_tokensRemaining := tokensRemaining u;
     cu_lastTokenReset := lastTokenReset u |}.

(** [getUserFromCacheOrDB]: [None] when the query throws, [Some None]
    for [null]. *)
Definition getUserFromCacheOrDB (userId : string) (s : Server)
    : option (option ProfileEntry) * Server :=
  let cacheKey := USER_PROFILE userId in
  match profile_get s cacheKey with
  | Some user => (Some (Some user), s)
  | None =>
      match findUniqueUser (db (world s)) userId with
      | None => (None, s)
      | Some None => (Some None, s)
      | Some (Some dbUser) =>
          let user := AuthRow (selectAuthRow dbUser) in
          (Some (Some user), profile_set s cacheKey user)
      end
  end.

(** What [authMiddleware] does with a request: it answers with a status
    and an [ERROR_CODES] member, or sets [req.user] and calls [next()]. *)
Inductive AuthOutcome :=
| AuthRespond (status : Z) (error : string)
| AuthNext (user : AuthUser).

(** [authMiddleware]; [authorization] is [req.headers.authorization]. *)
Definition authMiddleware (verify : JwtVerify) (jwtSecret : option string)
    (authorization : option string) (s : Server) : AuthOutcome * Server :=
  match extractTokenFromHeader authorization with
  | None => (AuthRespond 401 "UNAUTHORIZED", s)
  | Some token =>
      if (String.length token =? 0)%nat          (* !token *)
      then (AuthRespond 401 "UNAUTHORIZED", s)
      else
        match verifyJwtToken verify jwtSecret token with
        | SecretMissing => (AuthRespond 500 "INTERNAL_ERROR", s)
        | VerifyThrows => (AuthRespond 401 "INVALID_TOKEN", s)
        | Decoded decoded =>
            match tokenSchema decoded with
            | None => (AuthRespond 401 "INVALID_TOKEN", s)
            | Some (userId, whopUserId) =>
                match getUserFromCacheOrDB userId s with
                | (None, s') => (AuthRespond 500 "INTERNAL_ERROR", s')
                | (Some None, s') => (AuthRespond 401 "USER_NOT_FOUND", s')
                | (Some (Some (AuthRow user)), s') =>
                    if bool_decide (cu_whopUserId user = whopUserId)
                    then (AuthNext {| au_id := cu_id user;
                                      au_whopUserId := cu_whopUserId user;
                                      au_username := cu_username user |}, s')
                    else (AuthRespond 401 "INVALID_TOKEN", s')
                | (Some (Some (ProfilePage _ _ _)), s') =>
                    (* user.whopUserId is undefined *)
                    (AuthRespond 401 "INVALID_TOKEN", s')
                end
            end
        end
  end.

(** What [optionalAuthMiddleware] does with a request: the answer
    [authMiddleware] sent, or [next()] with or without [req.user]. *)
Inductive OptionalOutcome :=
| OptRespond (status : Z) (error : string)
| OptNext (user : option AuthUser).

(** [optionalAuthMiddleware]: without a Bearer header, [next()];
    otherwise [authMiddleware] with a callback that calls [next()].
    [authMiddleware] calls its callback only when it has authenticated
    the request. *)
Definition optionalAuthMiddleware (verify : JwtVerify)
    (jwtSecret : option string) (authorization : option string) (s : Server)
    : OptionalOutcome * Server :=
  match authorization with
  | None => (OptNext None, s)
  | Some h =>
      if (String.length h =? 0)%nat || negb (String.prefix "Bearer " h)
      then (OptNext None, s)
      else
        match authMiddleware verify jwtSecret authorization s with
        | (AuthRespond status error, s') => (OptRespond status error, s')
        | (AuthNext user, s') => (OptNext (Some user), s')
        end
  end.

(* ===================================================================== *)
(** * src/server/routes/user.ts: the profile routes *)
(* ===================================================================== *)

(** [Math.round]: the nearest whole number, the larger one of two;
    zeros, NaN and the infinities are returned as they are. *)
Definition Math_round (x : Num.number) : Num.number :=
  match Num.F2Q x with
  | None => x
  | Some q =>
      let n := Qfloor (q + (1 # 2)) in
      if Qeq_bool q 0 then x
      else if n =? 0 then S754_zero (if Qlt_le_dec q 0 then true else false)
      else Num.of_Z n
  end.

(** The statistics [GET /profile] computes from the participations of
    the user and from their completed prize payouts. *)
Definition profileStats (participations : list GameParticipant)
    (payouts : list Transaction) : UserStats :=
  let totalGames := Z.of_nat (length participations) in
  let totalWins :=
    Z.of_nat (length (filter (fun p => placement p = Some 1) participations)) in
  let totalEarnings :=
    foldl (fun sum t => Num.add sum (Num.of_cents (amount t)))
          (Num.of_Z 0) payouts in
  let bestScore := foldr Z.max 0 (score <$> participations) in
  let winRate :=
    if 0 <? totalGames
    then Num.mul (Num.div (Num.of_Z totalWins) (Num.of_Z totalGames)) Num.lit_100
    else Num.of_Z 0 in
  {| totalGames := totalGames; totalWins := totalWins;
     totalEarnings := totalEarnings; bestScore := bestScore;
     winRate := Num.div (Math_round (Num.mul winRate Num.lit_100)) Num.lit_100 |}.

(** The answers of [GET /profile]. *)
Inductive ProfileAnswer :=
| ProfileJson (body : ProfileEntry)       (* res.json(user) *)
| ProfileNotFound                         (* 404 USER_NOT_FOUND *)
| ProfileThrows.                          (* an exception, to errorHandler *)

(** [router.get('/profile', ...)] *)
Definition getProfile (user : option AuthUser) (s : Server)
    : ProfileAnswer * Server :=
  match user with
  | None => (ProfileThrows, s)                       (* req.user!.id *)
  | Some u =>
      let userId := au_id u in
      let cacheKey := USER_PROFILE userId in
      match profile_get s cacheKey with
      | Some user => (ProfileJson user, s)
      | None =>
          let d := db (world s) in
          match findUniqueUser d userId with
          | None => (ProfileThrows, s)
          | Some None => (ProfileNotFound, s)
          | Some (Some userData) =>
              let participations :=
                filter (fun p => gp_userId p = userId) (participants d) in
              let payouts :=
                filter (fun t => tx_userId t = userId
                                 /\ transactionType t = PRIZE_PAYOUT
                                 /\ tx_status t = TX_COMPLETED)
                       (transactions d) in
              let response :=
                ProfilePage userData (Num.of_cents (creditsBalance userData))
                  (profileStats participations payouts) in
              (ProfileJson response, profile_set s cacheKey response)
          end
      end
  end.

(** The pattern [/^[a-zA-Z0-9_-]+$/]. *)
Definition usernameChar (c : Ascii.ascii) : bool :=
  let n := Ascii.N_of_ascii c in
  ((97 <=? n) && (n <=? 122) || (65 <=? n) && (n <=? 90)
   || (48 <=? n) && (n <=? 57) || (n =? 95) || (n =? 45))%N.

Definition pattern_test (s : string) : bool :=
  negb (String.length s =? 0)%nat
  && forallb usernameChar (String.list_ascii_of_string s).

(** [validateUsername] of the shared utilities. *)
Definition validateUsername (username : string) : bool :=
  (3 <=? String.length username)%nat && (String.length username <=? 20)%nat
  && pattern_test username.

(** zod: [z.string().min(3).max(20).regex(/^[a-zA-Z0-9_-]+$/)]. *)
Definition z_username (v : JsValue) : bool :=
  match v with
  | JStr s =>
      (3 <=? String.length s)%nat && (String.length s <=? 20)%nat
      && pattern_test s
  | _ => false
  end.

(** [updateProfileSchema.safeParse(req.body).success] *)
Definition updateProfileSchema (b : Body) : bool :=
  match b with
  | BodyObject o => z_optional z_username (member o "username")
  | BodyOther => false
  end.

(** The answers of [PUT /profile]. *)
Inductive UpdateAnswer :=
| Updated (user : User)                   (* 200, the updated row *)
| UsernameTaken                           (* 409 USERNAME_TAKEN *)
| UpdateInvalid                           (* throw new ValidationError *)
| UpdateThrows.                           (* a query threw *)

(** [prisma.user.findFirst({ where: { username, id: { not: userId } } })],
    as far as the handler looks at it: is there such a row. *)
Definition usernameTakenByOther (d : Database) (name userId : string) : bool :=
  bool_decide (map_Exists (fun id u => username u = name /\ id <> userId)
                          (users d)).

(** [prisma.user.update({ where: { id }, data: { ...(username &&
    { username }), updatedAt: new Date() } })]. *)
Definition updateUserProfile (d : Database) (id : string) (u : User)
    (name : option string) (now : Z) : Database * User :=
  let u' := {| user_id := user_id u; whopUserId := whopUserId u;
               username := default (username u) name;
               creditsBalance := creditsBalance u;
               tokensRemaining := tokensRemaining u;
               lastTokenReset := lastTokenReset u;
               createdAt := createdAt u; updatedAt := now |} in
  ({| db_online := db_online d; users := <[id := u']> (users d);
      sessions := sessions d; participants := participants d;
      transactions := transactions d |}, u').

(** [router.put('/profile', ...)] *)
Definition putProfile (now : Z) (user : option AuthUser) (b : Body)
    (s : Server) : UpdateAnswer * Server :=
  match user with
  | None => (UpdateThrows, s)
  | Some u =>
      let userId := au_id u in
      if negb (updateProfileSchema b) then (UpdateInvalid, s)
      else
        let name :=
          match b with
          | BodyObject o =>
              match member o "username" with
              | JStr n => if (String.length n =? 0)%nat then None else Some n
              | _ => None
              end
          | BodyOther => None
          end in
        let d := db (world s) in
        if negb (db_online d) then (UpdateThrows, s)
        else if match name with
                | Some n => usernameTakenByOther d n userId
                | None => false
                end
        then (UsernameTaken, s)
        else
          match users d !! userId with
          | None => (UpdateThrows, s)          (* P2025: no such row *)
          | Some row =>
              let '(d', updatedUser) := updateUserProfile d userId row name now in
              let s' := {| world := {| db := d'; cache := cache (world s) |};
                           profiles := profiles s |} in
              (Updated updatedUser, profile_del s' (USER_PROFILE userId))
          end
  end.

(* ===================================================================== *)
(** * src/server/services/database.ts: paginate *)
(* ===================================================================== *)

(** The query object [paginate] is given, as far as [paginate] uses it:
    the rows it yields, of which [skip(n)] drops the first [n] and
    [take(m)] keeps the first [m], and whether it has a [count] method
    (which then gives the number of rows). *)
Record Query (T : Type) := {
  rows : list T;
  countable : bool
}.
Arguments rows {T} q.
Arguments countable {T} q.

(** [Math.ceil(total / limit)] for whole numbers below 2^53, on which the
    quotient of the doubles is exact enough for the ceiling to be that of
    the fraction: a whole number, or Infinity or NaN when [limit] is 0. *)
Inductive PageCount :=
| Pages (n : Z)
| InfinitePages
| NaNPages.

Definition Math_ceil_div (total limit : Z) : PageCount :=
  if limit =? 0 then
    (if total =? 0 then NaNPages else InfinitePages)
  else Pages (- ((- total) / limit)).

(** [page < totalPages] *)
Definition lt_pages (page : Z) (totalPages : PageCount) : bool :=
  match totalPages with
  | Pages n => page <? n
  | InfinitePages => true
  | NaNPages => false
  end.

Record Pagination := {
  pg_page : Z;
  pg_limit : Z;
  pg_total : Z;
  totalPages : PageCount;
  hasNext : bool;
  hasPrev : bool
}.

(** [paginate(query, { page, limit })].  What the query object does with
    a negative [skip] or [take] is its own affair and is not modelled:
    [None]. *)
Definition paginate {T : Type} (query : Query T) (page limit : Z)
    : option (list T * Pagination) :=
  let skip := (page - 1) * limit in
  if (skip <? 0) || (limit <? 0) then None
  else
    let data := take (Z.to_nat limit) (drop (Z.to_nat skip) (rows query)) in
    let total :=
      if countable query then Z.of_nat (length (rows query)) else 0 in
    let totalPages := Math_ceil_div total limit in
    Some (data,
          {| pg_page := page; pg_limit := limit; pg_total := total;
             totalPages := totalPages;
             hasNext := lt_pages page totalPages;
             hasPrev := 1 <? page |}).

(* ===================================================================== *)
(** * src/server/middleware/errorHandler.ts *)
(* ===================================================================== *)

(** What [errorHandler] asks of the error it is given: the class it is
    an instance of, its [name] and [message], and its [code] and
    [statusCode] when it has them. *)
Inductive ErrorClass :=
| ZodError
| PrismaClientKnownRequestError
| PrismaClientValidationError
| OtherError.

Record Thrown := {
  err_class : ErrorClass;
  err_name : string;
  err_message : string;
  err_code : option string;
  err_statusCode : option Z
}.

(** [handlePrismaError]: the switch on [error.code]. *)
Definition handlePrismaError (code : option string) : Z * string :=
  match code with
  | Some "P2002" => (409, "VALIDATION_ERROR")
  | Some "P2014" => (400, "VALIDATION_ERROR")
  | Some "P2003" => (400, "VALIDATION_ERROR")
  | Some "P2025" => (404, "VALIDATION_ERROR")
  | Some "P2021" => (500, "INTERNAL_ERROR")
  | Some "P2022" => (500, "INTERNAL_ERROR")
  | Some "P1008" => (504, "INTERNAL_ERROR")
  | Some "P1001" => (503, "INTERNAL_ERROR")
  | _ => (500, "INTERNAL_ERROR")
  end.

(** The switch on [error.message], with the default answer. *)
Definition messageSwitch (message : string) : Z * string :=
  if bool_decide (message = "USER_NOT_FOUND") then (404, "USER_NOT_FOUND")
  else if bool_decide (message = "SESSION_NOT_FOUND")
  then (404, "SESSION_NOT_FOUND")
  else if bool_decide (message = "INSUFFICIENT_CREDITS")
  then (403, "INSUFFICIENT_CREDITS")
  else if bool_decide (message = "NO_TOKENS_REMAINING")
  then (403, "NO_TOKENS_REMAINING")
  else if bool_decide (message = "SESSION_FULL") then (409, "SESSION_FULL")
  else if bool_decide (message = "ALREADY_IN_SESSION")
  then (409, "ALREADY_IN_SESSION")
  else if bool_decide (message = "PAYMENT_FAILED") then (402, "PAYMENT_FAILED")
  else (500, "INTERNAL_ERROR").

(** [errorHandler]: the status and the [error] member of the answer. *)
Definition errorHandler (error : Thrown) : Z * string :=
  match err_class error with
  | ZodError => (400, "VALIDATION_ERROR")
  | PrismaClientKnownRequestError => handlePrismaError (err_code error)
  | PrismaClientValidationError => (400, "VALIDATION_ERROR")
  | OtherError =>
      if bool_decide (err_name error = "JsonWebTokenError")
      then (401, "INVALID_TOKEN")
      else if bool_decide (err_name error = "TokenExpiredError")
      then (401, "INVALID_TOKEN")
      else
        match err_code error, err_statusCode error with
        | Some code, Some statusCode =>
            (* error.code && error.statusCode *)
            if negb (String.length code =? 0)%nat && negb (statusCode =? 0)
            then (statusCode, code)
            else messageSwitch (err_message error)
        | _, _ => messageSwitch (err_message error)
        end
  end.

(** [class AppError] and its subclasses: what their constructors set. *)
Definition AppError (code message : string) (statusCode : Z) : Thrown :=
  {| err_class := OtherError; err_name := "AppError"; err_message := message;
     err_code := Some code; err_statusCode := Some statusCode |}.

Definition renamed (name : string) (e : Thrown) : Thrown :=
  {| err_class := err_class e; err_name := name;
     err_message := err_message e; err_code := err_code e;
     err_statusCode := err_statusCode e |}.

Definition ValidationError (message : string) : Thrown :=
  renamed "ValidationError" (AppError "VALIDATION_ERROR" message 400).

Definition AuthenticationError (message : string) : Thrown :=
  renamed "AuthenticationError" (AppError "UNAUTHORIZED" message 401).

Definition AuthorizationError (message : string) : Thrown :=
  renamed "AuthorizationError" (AppError "UNAUTHORIZED" message 403).

Definition NotFoundError (resource : string) : Thrown :=
  renamed "NotFoundError"
    (AppError "USER_NOT_FOUND" (resource +:+ " not found") 404).

Definition ConflictError (message : string) : Thrown :=
  renamed "ConflictError" (AppError "VALIDATION_ERROR" message 409).

Definition PaymentError (message : string) : Thrown :=
  renamed "PaymentError" (AppError "PAYMENT_FAILED" message 402).

(* ===================================================================== *)
(** * Vocabulary of the statements *)
(* ===================================================================== *)

(** The value of a finite double counted in units of 2^-1074, the
    spacing of the smallest doubles: an integer for every well-formed
    double. *)
Definition ulps (x : Num.number) : Z :=
  match x with
  | S754_finite s m e => cond_Zopp s (Zpos m * 2 ^ (e + 1074))
  | _ => 0
  end.

(** [L] is the exact double of the integer [z]. *)
Definition exactly (L : Num.number) (z : Z) : Prop :=
  Num.wf L = true
  /\ exists q, Num.F2Q L = Some q /\ (q == inject_Z z)%Q.

(** A number whose value is a whole number. *)
Definition integral (x : Num.number) : Prop :=
  exists (q : Q) (z : Z), Num.F2Q x = Some q /\ (q == inject_Z z)%Q.

(** A body member that is a number with [lo <= value <= hi]. *)
Definition inRange (lo hi : Z) (v : JsValue) : Prop :=
  exists (x : Num.number) (q : Q),
    v = JNum x /\ Num.F2Q x = Some q
    /\ (inject_Z lo <= q)%Q /\ (q <= inject_Z hi)%Q.

(** Every number of a parsed body is a well-formed double. *)
Definition numbers_wf (o : gmap string JsValue) : Prop :=
  forall k x, o !! k = Some (JNum x) -> Num.wf x = true.

Definition body_wf (b : Body) : Prop :=
  match b with
  | BodyObject o => numbers_wf o
  | BodyOther => True
  end.

(** The bodies [POST /create] accepts. *)
Definition acceptable (b : Body) : Prop :=
  match b with
  | BodyObject o =>
      inRange 1 100 (member o "entryFee")
      /\ (member o "maxPlayers" = JUndefined
          \/ inRange 1 8 (member o "maxPlayers"))
  | BodyOther => False
  end.

(** A time value a Date can hold. *)
Definition validTime (t : Z) : Prop := Z.abs t <= JSDate.maxTime.

Definition isNext (o : Outcome) : bool :=
  match o with
  | Next => true
  | Respond _ => false
  end.

(** The token count [requireTokens] gets to see: the [tokens] member of
    the cached value, else the stored row. *)
Definition gateCount (u : AuthUser) (w : World) : option Z :=
  match cache_get (cache w) (USER_TOKENS (au_id u)) with
  | Some v => tokens_member v
  | None =>
      match findUniqueUser (db w) (au_id u) with
      | Some (Some user) => Some (tokensRemaining user)
      | _ => None
      end
  end.

(** What is checked of a pool of [c] cents: the quarter and the half of
    the double show [d] and [w] whole cents, both positive, within half a
    cent of the exact quarter and half. *)
Definition split_check (c : Z) : bool :=
  let x := Num.of_cents c in
  match toFixed2 (Num.mul x Num.lit_0_25), toFixed2 (Num.mul x Num.lit_0_50) with
  | Decimal2 false d, Decimal2 false w =>
      (0 <? d) && (0 <? w)
      && (Z.abs (4 * d - c) <=? 2) && (Z.abs (2 * w - c) <=? 1)
  | _, _ => false
  end.

Fixpoint all_from (f : Z -> bool) (lo : Z) (n : nat) : bool :=
  match n with
  | O => true
  | S k => f lo && all_from f (lo + 1) k
  end.

(** The doubles of the cent amounts [k], [k + 1], ... are well formed,
    finite and ascending, starting above [prev]. *)
Fixpoint ascending_from (prev : Num.number) (k : Z) (n : nat) : bool :=
  match n with
  | O => true
  | S n' =>
      let x := Num.of_cents k in
      Num.wf x && Num.isFinite x && Num.lt prev x
      && ascending_from x (k + 1) n'
  end.

(** Where [shr] stands after [k] steps on the mantissa [N]: the quotient
    by [2^k], the round bit (the remainder reaches half of [2^k]) and the
    sticky bit (the remainder is neither zero nor that half). *)
Definition shifted (N k : Z) (mrs : shr_record) : Prop :=
  shr_m mrs = N / 2 ^ k
  /\ (if shr_r mrs then 2 ^ k <= 2 * (N mod 2 ^ k) else 2 * (N mod 2 ^ k) < 2 ^ k)
  /\ (if shr_s mrs then N mod 2 ^ k <> 0 /\ 2 * (N mod 2 ^ k) <> 2 ^ k
      else N mod 2 ^ k = 0 \/ 2 * (N mod 2 ^ k) = 2 ^ k).

(** What is checked of the double of [c] cents, its value counted in
    units of 2^-59: it is not negative, below 128, and within 2^-47 of
    [c / 100]. *)
Definition cents_check (c : Z) : bool :=
  match Num.of_cents c with
  | S754_zero _ => c =? 0
  | S754_finite false m e =>
      (-59 <=? e) && (Zpos m * 2 ^ (e + 59) <? 2 ^ 66)
      && (Z.abs (100 * (Zpos m * 2 ^ (e + 59)) - c * 2 ^ 59) <=? 100 * 2 ^ 12)
  | _ => false
  end.

(** The same double, member by member. *)
Definition same_double (x y : Num.number) : bool :=
  match x, y with
  | S754_zero s, S754_zero s' => Bool.eqb s s'
  | S754_infinity s, S754_infinity s' => Bool.eqb s s'
  | S754_nan, S754_nan => true
  | S754_finite s m e, S754_finite s' m' e' =>
      Bool.eqb s s' && Pos.eqb m m' && Z.eqb e e'
  | _, _ => false
  end.

(** What is checked of a whole amount [a]: taking a smaller whole amount
    from it gives the double of the difference. *)
Definition units_check (a : Z) : bool :=
  all_from (fun b => same_double
                       (Num.sub (Num.of_cents (100 * a)) (Num.of_cents (100 * b)))
                       (Num.of_cents (100 * (a - b)))) 0 (Z.to_nat a).

(** 3 * 2^-47, a little over 2.1e-14. *)
Definition deficit_slack : Q := Qmake 3 (2 ^ 47).

(** The types of the split transactions recorded for a session. *)
Definition splitTypes (sid : string) (l : Settlement.Ledger) : list TransactionType :=
  List.map transactionType
    (Settlement.splitsOf sid (transactions (Settlement.store l))).

Definition oneSet : list TransactionType :=
  [DEVELOPER_SPLIT; CREATOR_SPLIT; PRIZE_PAYOUT].

(** Split transactions exist exactly for the flagged sessions. *)
Definition consistent (l : Settlement.Ledger) : Prop :=
  forall sid,
    splitTypes sid l
    = if bool_decide (sid ∈ Settlement.settled l) then oneSet else [].

(** ** Sample data *)

Definition alice : AuthUser :=
  {| au_id := "alice"; au_whopUserId := "whop_alice"; au_username := "alice" |}.

Definition alice_row (tokens reset balance : Z) : User :=
  {| user_id := "alice"; whopUserId := "whop_alice"; username := "alice";
     creditsBalance := balance; tokensRemaining := tokens;
     lastTokenReset := reset; createdAt := 1730000000000;
     updatedAt := reset |}.

Definition world_of (row : User) (c : gmap string CacheValue) : World :=
  {| db := {| db_online := true; users := {[ "alice" := row ]};
              sessions := ∅; participants := []; transactions := [] |};
     cache := {| cache_online := true; entries := c |} |}.

(** 2024-11-04T00:00:00.000Z *)
Definition day0 : Z := 1730678400000.

(** Alice has used her last token on 4 November; nothing is cached. *)
Definition spent_world : World := world_of (alice_row 0 day0 1000) ∅.

(** 2024-11-05T00:00:01.000Z *)
Definition next_day_0h00m01 : Z := day0 + JSDate.msPerDay + 1000.

(** The same world after Alice has asked [GET /api/user/tokens] at
    00:00:01 on 4 November. *)
Definition queried_world : World :=
  (getTokens (day0 + 1000) (Some alice) spent_world).2.

(** Alice holds 5.00 in credits. *)
Definition poor_world : World := world_of (alice_row 3 day0 500) ∅.

(** Alice's tokens were last reset on 3 November at 23:59:59. *)
Definition stale_world : World := world_of (alice_row 0 (day0 - 1000) 1000) ∅.

Definition entryFee_only : Body :=
  BodyObject {[ "entryFee" := JNum (Num.of_Z 5) ]}.

Definition demoSession : GameSession :=
  {| session_id := "s1"; creatorId := "carol"; entryFee := 1000;
     maxPlayers := 2; currentPlayers := 2; status := COMPLETED;
     startedAt := Some 1730678400000; endedAt := Some 1730678460000 |}.

Definition demoEvents : list Settlement.Event :=
  [ Settlement.PutSession "s1" demoSession;
    Settlement.PutParticipant
      {| gp_sessionId := "s1"; gp_userId := "alice"; score := 500;
         placement := Some 1 |};
    Settlement.PutParticipant
      {| gp_sessionId := "s1"; gp_userId := "bob"; score := 300;
         placement := Some 2 |};
    Settlement.RecordTx
      {| tx_userId := "alice"; tx_sessionId := Some "s1"; amount := -1000;
         transactionType := ENTRY_FEE; tx_status := TX_COMPLETED |};
    Settlement.RecordTx
      {| tx_userId := "bob"; tx_sessionId := Some "s1"; amount := -1000;
         transactionType := ENTRY_FEE; tx_status := TX_COMPLETED |} ].

Definition demoSettled : Settlement.Ledger :=
  Settlement.perform (Settlement.Settle "s1")
    (Settlement.run demoEvents Settlement.genesis).

(** ** Vocabulary of the further properties *)

(** The lengths [chunk] produces for an array of [len] members. *)
Definition chunk_lengths (len size : Z) : list Z :=
  replicate (Z.to_nat (len / size)) size
  ++ (if len mod size =? 0 then [] else [len mod size]).

(** The arguments of the [sleep] calls after the failures number [i],
    ..., [i + k - 1]: [delay * (i + 1)], each one [delay] longer than the
    one before. *)
Definition backoff (delay : Z) (i k : nat) : list Z :=
  (fun j => delay * (Z.of_nat j + 1)) <$> seq i k.

(** The calls number [i], ..., [i + k - 1] of [fn] are rejected. *)
Definition rejects {T E : Type} (fn : nat -> Settled T E) (i k : nat) : Prop :=
  forall n, (n < k)%nat -> exists e, fn (i + n)%nat = Rejected e.

(** Each reading is at least [delay] after the one before it, the first
    one at least [delay] after [last]. *)
Fixpoint spaced (delay last : Z) (run : list Z) : Prop :=
  match run with
  | [] => True
  | t :: run' => delay <= t - last /\ spaced delay t run'
  end.

(** Going from [d] to [d'], only the token columns (and [updatedAt]) of
    the row [id] may have changed: the row is there afterwards exactly
    when it was there before, with the same identity, user name, credit
    balance and creation time; every other row and every other table is
    as it was. *)
Definition token_columns_only (id : string) (d d' : Database) : Prop :=
  db_online d' = db_online d
  /\ sessions d' = sessions d
  /\ participants d' = participants d
  /\ transactions d' = transactions d
  /\ (forall other, other <> id -> users d' !! other = users d !! other)
  /\ match users d !! id, users d' !! id with
     | Some user, Some user' =>
         user_id user' = user_id user
         /\ whopUserId user' = whopUserId user
         /\ username user' = username user
         /\ creditsBalance user' = creditsBalance user
         /\ createdAt user' = createdAt user
     | None, None => True
     | _, _ => False
     end.

(** Rows are stored, and cached, under their own id. *)
Definition keyed (s : Server) : Prop :=
  (forall id u, users (db (world s)) !! id = Some u -> user_id u = id)
  /\ (forall id row, profiles s !! USER_PROFILE id = Some (AuthRow row) ->
        cu_id row = id).

(** A token [verify] accepts under the configured secret, with a payload
    of the expected shape for the user [userId]. *)
Definition validToken (verify : JwtVerify) (jwtSecret : option string)
    (token userId whopUserId : string) : Prop :=
  token <> ""
  /\ exists secret payload,
       jwtSecret = Some secret /\ secret <> ""
       /\ verify token secret = Some payload
       /\ tokenSchema payload = Some (userId, whopUserId).

(** No two rows carry the same user name. *)
Definition uniqueUsernames (d : Database) : Prop :=
  forall id1 id2 u1 u2,
    users d !! id1 = Some u1 -> users d !! id2 = Some u2 ->
    username u1 = username u2 -> id1 = id2.

(** The rows [skip((page - 1) * limit).take(limit)] yields. *)
Definition pageOf {T : Type} (l : list T) (limit : Z) (page : nat) : list T :=
  take (Z.to_nat limit) (drop (page * Z.to_nat limit) l).

(** The statuses [errorHandler] answers with of its own. *)
Definition errorStatuses : list Z := [400; 401; 402; 403; 404; 409; 500; 503; 504].

(** No character of the string is ['T']. *)
Definition noT (s : string) : bool :=
  forallb (fun c => negb (Ascii.eqb c char_T)) (String.list_ascii_of_string s).

(** ** Further sample data *)

(** A verifier that accepts the token "t-alice" under the
    secret "s3cret", and a server holding Alice's row. *)
Definition demoVerify : JwtVerify :=
  fun token secret =>
    if bool_decide (token = "t-alice" /\ secret = "s3cret")
    then Some (BodyObject {[ "userId" := JStr "alice";
                             "whopUserId" := JStr "whop_alice";
                             "iat" := JNum (Num.of_Z 1730678400);
                             "exp" := JNum (Num.of_Z 1731283200) ]})
    else None.

Definition demoServer : Server :=
  {| world := world_of (alice_row 3 day0 1000) ∅; profiles := ∅ |}.

(** Bob's row beside Alice's. *)
Definition bob_row : User :=
  {| user_id := "bob"; whopUserId := "whop_bob"; username := "bobby";
     creditsBalance := 2500; tokensRemaining := 3; lastTokenReset := day0;
     createdAt := 1730000000000; updatedAt := day0 |}.

Definition twoUsers : Server :=
  {| world :=
       {| db := {| db_online := true;
                   users := {[ "alice" := alice_row 3 day0 1000;
                               "bob" := bob_row ]};
                   sessions := ∅; participants := []; transactions := [] |};
          cache := {| cache_online := true; entries := ∅ |} |};
     profiles := ∅ |}.

(** Alice asks for the user name "alice_2"; for Bob's name "bobby". *)
Definition rename_alice_2 : Body := BodyObject {[ "username" := JStr "alice_2" ]}.
Definition rename_bobby : Body := BodyObject {[ "username" := JStr "bobby" ]}.

(** Alice has played twice (a win with 120 points, a second place with
    80) and has been paid one prize of 7.50; Bob has played once. *)
Definition playedServer : Server :=
  {| world :=
       {| db := {| db_online := true;
                   users := {[ "alice" := alice_row 3 day0 1000;
                               "bob" := bob_row ]};
                   sessions := ∅;
                   participants :=
                     [ {| gp_sessionId := "s1"; gp_userId := "alice";
                          score := 120; placement := Some 1 |};
                       {| gp_sessionId := "s1"; gp_userId := "bob";
                          score := 300; placement := Some 2 |};
                       {| gp_sessionId := "s2"; gp_userId := "alice";
                          score := 80; placement := Some 2 |} ];
                   transactions :=
                     [ {| tx_userId := "alice"; tx_sessionId := Some "s1";
                          amount := 750; transactionType := PRIZE_PAYOUT;
                          tx_status := TX_COMPLETED |} ] |};
          cache := {| cache_online := false; entries := ∅ |} |};
     profiles := ∅ |}.

(** An object with three members of its own and an inherited method. *)
Definition demoObject : JsObject Z :=
  {| own_members := {[ "a" := 1; "b" := 2; "c" := 3 ]};
     other_members := {[ "toString" := 0 ]} |}.

(** The statistics of Alice in [playedServer]. *)
Definition aliceStats : UserStats :=
  {| totalGames := 2; totalWins := 1; totalEarnings := Num.of_cents 750;
     bestScore := 120; winRate := Num.of_Z 50 |}.

(* ===================================================================== *)
(** * Doubles: order and integrality *)
(* ===================================================================== *)

Lemma pow2_pos (k : Z) : 0 <= k -> 0 < 2 ^ k.
Proof. intros. apply Z.pow_pos_nonneg; lia. Qed.

Lemma all_from_spec (f : Z -> bool) (n : nat) :
  forall lo, all_from f lo n = true ->
  forall c, lo <= c < lo + Z.of_nat n -> f c = true.
Proof.
  induction n as [| k IH]; intros lo H c Hc; [lia|].
  cbn [all_from] in H. apply andb_prop in H as [H0 Hk].
  destruct (Z.eq_dec c lo) as [-> | Hne]; [exact H0|].
  apply (IH (lo + 1) Hk). lia.
Qed.

Lemma digits2_pos_bounds (m : positive) :
  2 ^ (Zpos (digits2_pos m) - 1) <= Zpos m < 2 ^ Zpos (digits2_pos m).
Proof.
  induction m as [m IH | m IH |]; cbn [digits2_pos].
  - rewrite Pos2Z.inj_succ.
    replace (Z.succ (Zpos (digits2_pos m)) - 1)
      with (Z.succ (Zpos (digits2_pos m) - 1)) by lia.
    rewrite !Z.pow_succ_r by lia. lia.
  - rewrite Pos2Z.inj_succ.
    replace (Z.succ (Zpos (digits2_pos m)) - 1)
      with (Z.succ (Zpos (digits2_pos m) - 1)) by lia.
    rewrite !Z.pow_succ_r by lia. lia.
  - simpl. lia.
Qed.

(** What canonicity says of a binary64 mantissa and exponent. *)
Lemma bounded_inv (m : positive) (e : Z) :
  bounded Num.prec Num.emax m e = true ->
  -1074 <= e <= 971 /\ Zpos m < 2 ^ 53 /\ (e = -1074 \/ 2 ^ 52 <= Zpos m).
Proof.
  unfold bounded, canonical_mantissa, fexp, emin, Num.prec, Num.emax.
  intros H. apply andb_prop in H as [Hc He].
  apply Z.eqb_eq in Hc. apply Z.leb_le in He.
  pose proof (digits2_pos_bounds m) as [Hlo Hhi].
  set (d := Zpos (digits2_pos m)) in *.
  assert (Hd : d <= 53) by lia.
  split; [lia|]. split.
  - eapply Z.lt_le_trans; [exact Hhi|]. apply Z.pow_le_mono_r; lia.
  - destruct (Z.eq_dec e (-1074)) as [->|Hne]; [now left|right].
    assert (Hd53 : d = 53) by lia. rewrite Hd53 in Hlo. exact Hlo.
Qed.

Lemma magnitude_compare (m1 m2 : positive) (e1 e2 : Z) :
  bounded Num.prec Num.emax m1 e1 = true ->
  bounded Num.prec Num.emax m2 e2 = true ->
  (Zpos m1 * 2 ^ (e1 + 1074) ?= Zpos m2 * 2 ^ (e2 + 1074)) =
  match e1 ?= e2 with
  | Lt => Lt
  | Gt => Gt
  | Eq => Pos.compare_cont Eq m1 m2
  end.
Proof.
  intros H1 H2.
  apply bounded_inv in H1 as (He1 & Hm1 & Hn1).
  apply bounded_inv in H2 as (He2 & Hm2 & Hn2).
  assert (Hstep : forall (a b : positive) (ea eb : Z),
             -1074 <= ea -> ea < eb -> Zpos a < 2 ^ 53 -> 2 ^ 52 <= Zpos b ->
             Zpos a * 2 ^ (ea + 1074) < Zpos b * 2 ^ (eb + 1074)).
  { intros a b ea eb Hea Hlt Ha Hb.
    assert (Hp : 0 < 2 ^ (ea + 1074)) by (apply pow2_pos; lia).
    assert (Hmono : 2 ^ (ea + 1 + 1074) <= 2 ^ (eb + 1074))
      by (apply Z.pow_le_mono_r; lia).
    replace (ea + 1 + 1074) with (Z.succ (ea + 1074)) in Hmono by lia.
    rewrite Z.pow_succ_r in Hmono by lia.
    change (2 ^ 53) with (2 * 2 ^ 52) in Ha.
    set (P := 2 ^ (ea + 1074)) in *. set (R := 2 ^ (eb + 1074)) in *.
    set (T := 2 ^ 52) in *.
    assert (0 < T) by (subst T; reflexivity).
    nia. }
  destruct (Z.compare_spec e1 e2) as [Heq | Hlt | Hgt].
  - subst e2.
    assert (Hp : 0 < 2 ^ (e1 + 1074)) by (apply pow2_pos; lia).
    change (Pos.compare_cont Eq m1 m2) with (Z.pos m1 ?= Z.pos m2).
    destruct (Z.compare_spec (Z.pos m1) (Z.pos m2)) as [E | L | G].
    + rewrite E. apply Z.compare_refl.
    + apply Z.compare_lt_iff. nia.
    + apply Z.compare_gt_iff. nia.
  - apply Z.compare_lt_iff. apply Hstep; lia.
  - apply Z.compare_gt_iff. apply Hstep; lia.
Qed.

Lemma ulps_sign_pos (m : positive) (e : Z) :
  -1074 <= e -> 0 < Zpos m * 2 ^ (e + 1074).
Proof. intros. apply Z.mul_pos_pos; [lia | apply pow2_pos; lia]. Qed.

(** On well-formed finite doubles [SFcompare] is the order of the values. *)
Lemma compare_ulps (x y : Num.number) :
  Num.wf x = true -> Num.wf y = true ->
  Num.isFinite x = true -> Num.isFinite y = true ->
  SFcompare x y = Some (ulps x ?= ulps y).
Proof.
  intros Wx Wy Fx Fy.
  destruct x as [sx | sx | | sx mx ex]; try discriminate;
  destruct y as [sy | sy | | sy my ey]; try discriminate; cbn [ulps SFcompare].
  - reflexivity.
  - cbn in Wy. apply bounded_inv in Wy as (He & _).
    pose proof (ulps_sign_pos my ey ltac:(lia)).
    destruct sy; cbn [cond_Zopp]; f_equal; symmetry;
      [apply Z.compare_gt_iff | apply Z.compare_lt_iff]; lia.
  - cbn in Wx. apply bounded_inv in Wx as (He & _).
    pose proof (ulps_sign_pos mx ex ltac:(lia)).
    destruct sx; cbn [cond_Zopp]; f_equal; symmetry;
      [apply Z.compare_lt_iff | apply Z.compare_gt_iff]; lia.
  - cbn in Wx, Wy.
    pose proof (magnitude_compare mx my ex ey Wx Wy) as Hm.
    pose proof (magnitude_compare my mx ey ex Wy Wx) as Hm'.
    apply bounded_inv in Wx as (Hex & _). apply bounded_inv in Wy as (Hey & _).
    pose proof (ulps_sign_pos mx ex ltac:(lia)).
    pose proof (ulps_sign_pos my ey ltac:(lia)).
    destruct sx, sy; cbn [cond_Zopp]; f_equal.
    + rewrite Z.compare_opp, Hm'. rewrite (Z.compare_antisym ex ey).
      destruct (ex ?= ey); cbn; try reflexivity.
      rewrite (Pos.compare_cont_antisym). reflexivity.
    + symmetry. apply Z.compare_lt_iff. lia.
    + symmetry. apply Z.compare_gt_iff. lia.
    + rewrite Hm. reflexivity.
Qed.

Lemma pow2Q_scaled (e : Z) :
  -1074 <= e ->
  (Num.pow2Q e * inject_Z (2 ^ 1074) == inject_Z (2 ^ (e + 1074)))%Q.
Proof.
  intros He. destruct e as [| p | p]; unfold Num.pow2Q.
  - rewrite Qmult_1_l. reflexivity.
  - rewrite <- inject_Z_mult. rewrite Pos2Z.inj_pow.
    rewrite Z.pow_add_r by lia. reflexivity.
  - unfold Qeq, Qmult, inject_Z. cbn [Qnum Qden].
    rewrite Pos.mul_1_r, !Z.mul_1_l, Z.mul_1_r, Pos2Z.inj_pow.
    rewrite <- Z.pow_add_r by lia. f_equal. lia.
Qed.

(** [ulps] is the value, scaled by 2^1074. *)
Lemma F2Q_ulps (x : Num.number) (q : Q) :
  Num.wf x = true -> Num.F2Q x = Some q ->
  (q * inject_Z (2 ^ 1074) == inject_Z (ulps x))%Q.
Proof.
  intros W H. destruct x as [s | s | | s m e]; try discriminate;
    cbn in H; injection H as <-.
  - cbn [ulps]. rewrite Qmult_0_l. reflexivity.
  - cbn in W. apply bounded_inv in W as (He & _).
    cbn [ulps]. rewrite <- Qmult_assoc, pow2Q_scaled by lia.
    rewrite <- inject_Z_mult. destruct s; cbn [cond_Zopp]; f_equal.
    rewrite Z.mul_opp_l. reflexivity.
Qed.

Lemma F2Q_finite (x : Num.number) (q : Q) :
  Num.F2Q x = Some q -> Num.isFinite x = true.
Proof. destruct x; cbn; congruence. Qed.

Lemma Qle_ulps (x y : Num.number) (qx qy : Q) :
  Num.wf x = true -> Num.wf y = true ->
  Num.F2Q x = Some qx -> Num.F2Q y = Some qy ->
  (qx <= qy)%Q <-> ulps x <= ulps y.
Proof.
  intros Wx Wy Hx Hy.
  pose proof (F2Q_ulps x qx Wx Hx) as Ex.
  pose proof (F2Q_ulps y qy Wy Hy) as Ey.
  assert (HK : (0 < inject_Z (2 ^ 1074))%Q).
  { rewrite <- (Zlt_Qlt 0). apply pow2_pos. lia. }
  rewrite Zle_Qle, <- Ex, <- Ey. symmetry. apply Qmult_le_r. exact HK.
Qed.

Lemma Qlt_ulps (x y : Num.number) (qx qy : Q) :
  Num.wf x = true -> Num.wf y = true ->
  Num.F2Q x = Some qx -> Num.F2Q y = Some qy ->
  (qx < qy)%Q <-> ulps x < ulps y.
Proof.
  intros Wx Wy Hx Hy.
  pose proof (Qle_ulps y x qy qx Wy Wx Hy Hx) as H.
  split; intros L.
  - apply Z.nle_gt. intros C. apply H in C. apply Qle_not_lt in C. tauto.
  - apply Qnot_le_lt. intros C. apply H in C. lia.
Qed.

(** The JavaScript [<=] and [<] on finite doubles are the order of their
    values. *)
Lemma le_value (x y : Num.number) (qx qy : Q) :
  Num.wf x = true -> Num.wf y = true ->
  Num.F2Q x = Some qx -> Num.F2Q y = Some qy ->
  Num.le x y = true <-> (qx <= qy)%Q.
Proof.
  intros Wx Wy Hx Hy.
  rewrite (Qle_ulps x y qx qy Wx Wy Hx Hy).
  unfold Num.le, SFleb.
  rewrite (compare_ulps x y Wx Wy (F2Q_finite _ _ Hx) (F2Q_finite _ _ Hy)).
  destruct (Z.compare_spec (ulps x) (ulps y)); split; intros;
    try lia; try discriminate; reflexivity.
Qed.

Lemma lt_value (x y : Num.number) (qx qy : Q) :
  Num.wf x = true -> Num.wf y = true ->
  Num.F2Q x = Some qx -> Num.F2Q y = Some qy ->
  Num.lt x y = true <-> (qx < qy)%Q.
Proof.
  intros Wx Wy Hx Hy.
  rewrite (Qlt_ulps x y qx qy Wx Wy Hx Hy).
  unfold Num.lt, SFltb.
  rewrite (compare_ulps x y Wx Wy (F2Q_finite _ _ Hx) (F2Q_finite _ _ Hy)).
  destruct (Z.compare_spec (ulps x) (ulps y)); split; intros;
    try lia; try discriminate; reflexivity.
Qed.

Lemma lt_ulps (x y : Num.number) :
  Num.wf x = true -> Num.wf y = true ->
  Num.isFinite x = true -> Num.isFinite y = true ->
  Num.lt x y = true <-> ulps x < ulps y.
Proof.
  intros Wx Wy Fx Fy. unfold Num.lt, SFltb.
  rewrite (compare_ulps x y Wx Wy Fx Fy).
  destruct (Z.compare_spec (ulps x) (ulps y)); split; intros;
    try lia; try discriminate; reflexivity.
Qed.

(** [Number.isInteger] holds exactly of the whole values. *)
Lemma isInteger_integral (x : Num.number) :
  Num.isInteger x = true <-> integral x.
Proof.
  unfold Num.isInteger, integral. split.
  - destruct (Num.F2Q x) as [q|]; [|discriminate].
    intros H. apply Qeq_bool_iff in H.
    exists q. destruct (Qlt_le_dec q 0) as [Hneg | Hpos].
    + exists (- Qfloor (Qabs q)). split; [reflexivity|].
      rewrite inject_Z_opp, H, Qabs_neg by (apply Qlt_le_weak; exact Hneg).
      rewrite Qopp_involutive. reflexivity.
    + exists (Qfloor (Qabs q)). split; [reflexivity|].
      rewrite H. symmetry. apply Qabs_pos. exact Hpos.
  - intros (q & z & HF & Hz). rewrite HF. apply Qeq_bool_iff.
    pose proof (Qabs_wd _ _ Hz) as Ha.
    change (Qabs (inject_Z z)) with (inject_Z (Z.abs z)) in Ha.
    rewrite (Qfloor_comp _ _ Ha), Qfloor_Z. symmetry. exact Ha.
Qed.

(** The integer literals of the validators are exact doubles. *)
Lemma lit_1_exact : exactly Num.lit_1 1.
Proof. split; [reflexivity | eexists; split; reflexivity]. Qed.

Lemma lit_8_exact : exactly Num.lit_8 8.
Proof. split; [reflexivity | eexists; split; reflexivity]. Qed.

Lemma lit_100_exact : exactly Num.lit_100 100.
Proof. split; [reflexivity | eexists; split; reflexivity]. Qed.

(** Not NaN, not below [L], not above [H]: a finite value in
    [[lo, hi]]. *)
Lemma within_bounds (L H : Num.number) (lo hi : Z) (x : Num.number) :
  exactly L lo -> exactly H hi ->
  Num.wf x = true ->
  negb (Num.isNaN x) && negb (Num.lt x L) && negb (Num.gt x H) = true
  <-> exists q, Num.F2Q x = Some q
                /\ (inject_Z lo <= q)%Q /\ (q <= inject_Z hi)%Q.
Proof.
  intros (Wl & ql & Fl & El) (Wh & qh & Fh & Eh) Wx.
  destruct (Num.F2Q x) as [q|] eqn:Fx.
  - assert (NN : Num.isNaN x = false) by (destruct x; cbn in *; congruence).
    rewrite NN. cbn [negb andb].
    change (Num.gt x H) with (Num.lt H x).
    pose proof (lt_value x L q ql Wx Wl Fx Fl) as L1.
    pose proof (lt_value H x qh q Wh Wx Fh Fx) as L2.
    rewrite andb_true_iff, !negb_true_iff.
    split.
    + intros [A B]. exists q. split; [reflexivity|]. split.
      * rewrite <- El. apply Qnot_lt_le. intros C. apply L1 in C. congruence.
      * rewrite <- Eh. apply Qnot_lt_le. intros C. apply L2 in C. congruence.
    + intros (q' & Eq & A & B). injection Eq as <-. split.
      * apply not_true_is_false. intros C. apply L1 in C.
        rewrite El in C. apply Qlt_not_le in C. tauto.
      * apply not_true_is_false. intros C. apply L2 in C.
        rewrite Eh in C. apply Qlt_not_le in C. tauto.
  - split; [|intros (q & Eq & _); discriminate].
    intros C. exfalso.
    destruct x as [sx | sx | | sx mx ex]; cbn in Fx; try discriminate.
    destruct L as [sl | sl | | sl ml el]; cbn in Fl; try discriminate;
      destruct H as [sh | sh | | sh mh eh]; cbn in Fh; try discriminate;
      destruct sx; cbn in C; discriminate.
Qed.

(** X1: [validateEntryFee] accepts exactly the finite values from 1 to
    100: NaN, the infinities and every value outside are rejected. *)
Lemma validateEntryFee_spec (x : Num.number) :
  Num.wf x = true ->
  validateEntryFee x = true
  <-> exists q, Num.F2Q x = Some q /\ (1 <= q)%Q /\ (q <= 100)%Q.
Proof.
  intros Wx. unfold validateEntryFee, Num.ge.
  destruct lit_1_exact as (W1 & q1 & F1 & E1).
  destruct lit_100_exact as (W100 & q100 & F100 & E100).
  change (inject_Z 1) with 1%Q in E1. change (inject_Z 100) with 100%Q in E100.
  destruct (Num.F2Q x) as [q|] eqn:F.
  - rewrite (F2Q_finite x q F), andb_true_r, andb_true_iff.
    rewrite (le_value _ _ q1 q W1 Wx F1 F), (le_value _ _ q q100 Wx W100 F F100).
    rewrite E1, E100. split.
    + intros [A B]. exists q. auto.
    + intros (q' & Eq & A & B). injection Eq as <-. auto.
  - assert (NF : Num.isFinite x = false) by (destruct x; cbn in *; congruence).
    rewrite NF, andb_false_r. split; [discriminate|].
    intros (q & Eq & _). discriminate.
Qed.

(** X2: [validateSessionSize] accepts exactly the whole values from 1
    to 8. *)
Lemma validateSessionSize_spec (x : Num.number) :
  Num.wf x = true ->
  validateSessionSize x = true
  <-> exists (q : Q) (n : Z),
        Num.F2Q x = Some q /\ (q == inject_Z n)%Q /\ 1 <= n <= 8.
Proof.
  intros Wx. unfold validateSessionSize.
  destruct lit_1_exact as (W1 & q1 & F1 & E1).
  destruct lit_8_exact as (W8 & q8 & F8 & E8).
  rewrite !andb_true_iff, isInteger_integral. unfold integral, Num.ge. split.
  - intros [[A B] (q & n & F & E)]. exists q, n. split; [exact F|].
    split; [exact E|].
    apply (le_value _ _ q1 q W1 Wx F1 F) in A.
    apply (le_value _ _ q q8 Wx W8 F F8) in B.
    rewrite E1, E in A. rewrite E8, E in B.
    rewrite <- Zle_Qle in A. rewrite <- Zle_Qle in B. lia.
  - intros (q & n & F & E & Hn). split; [split|].
    + apply (le_value _ _ q1 q W1 Wx F1 F). rewrite E1, E, <- Zle_Qle. lia.
    + apply (le_value _ _ q q8 Wx W8 F F8). rewrite E8, E, <- Zle_Qle. lia.
    + exists q, n. auto.
Qed.

(** C10: [validateSessionSize] accepts only integers: a number whose
    value is not a whole number (NaN and the infinities included) is
    rejected, also when it lies between 1 and 8. *)
Theorem validateSessionSize_integers_only (x : Num.number) :
  ~ integral x -> validateSessionSize x = false.
Proof.
  intros N. unfold validateSessionSize.
  destruct (Num.isInteger x) eqn:E.
  - exfalso. apply N, isInteger_integral, E.
  - apply andb_false_r.
Qed.

(** 4.5 lies between 1 and 8, is not an integer, and is rejected. *)
Lemma validateSessionSize_rejects_4_5 :
  ~ integral (Num.of_cents 450) /\ validateSessionSize (Num.of_cents 450) = false.
Proof.
  assert (N : ~ integral (Num.of_cents 450)).
  { intros H. apply isInteger_integral in H. vm_compute in H. discriminate. }
  split; [exact N | apply (validateSessionSize_integers_only (Num.of_cents 450) N)].
Defined.

(* ===================================================================== *)
(** * POST /api/sessions/create *)
(* ===================================================================== *)

Lemma z_number_min_max_spec (L H : Num.number) (lo hi : Z) (v : JsValue) :
  exactly L lo -> exactly H hi ->
  (forall x, v = JNum x -> Num.wf x = true) ->
  z_number_min_max L H v = true <-> inRange lo hi v.
Proof.
  intros Hlo Hhi W. unfold inRange.
  destruct v as [| | b | x | s |]; cbn [z_number_min_max];
    try (split; [discriminate | intros (x & q & E & _); discriminate]).
  rewrite (within_bounds L H lo hi x Hlo Hhi (W x eq_refl)).
  split.
  - intros (q & F & A & B). exists x, q. auto.
  - intros (x' & q & E & F & A & B). injection E as <-. exists q. auto.
Qed.

Lemma member_num (o : gmap string JsValue) (k : string) (x : Num.number) :
  member o k = JNum x -> o !! k = Some (JNum x).
Proof. unfold member. destruct (o !! k); cbn; congruence. Qed.

Lemma z_optional_spec (L H : Num.number) (lo hi : Z) (v : JsValue) :
  exactly L lo -> exactly H hi ->
  (forall x, v = JNum x -> Num.wf x = true) ->
  z_optional (z_number_min_max L H) v = true
  <-> v = JUndefined \/ inRange lo hi v.
Proof.
  intros Hlo Hhi W.
  pose proof (z_number_min_max_spec L H lo hi v Hlo Hhi W) as S.
  unfold z_optional.
  destruct v; try (rewrite S; split; [auto | intros [C | C]; [discriminate | exact C]]).
  split; auto.
Qed.

Lemma createSessionSchema_spec (b : Body) :
  body_wf b -> createSessionSchema b = true <-> acceptable b.
Proof.
  destruct b as [o|]; cbn [body_wf createSessionSchema acceptable];
    [|intros _; split; [discriminate | tauto]].
  intros W.
  assert (We : forall k x, member o k = JNum x -> Num.wf x = true)
    by (intros k x H; apply (W k), member_num, H).
  rewrite andb_true_iff.
  rewrite (z_number_min_max_spec Num.lit_1 Num.lit_100 1 100
             (member o "entryFee") lit_1_exact lit_100_exact (We "entryFee")).
  rewrite (z_optional_spec Num.lit_1 Num.lit_8 1 8
             (member o "maxPlayers") lit_1_exact lit_8_exact (We "maxPlayers")).
  reflexivity.
Qed.

(** C5 (amended): [POST /create] succeeds only when [entryFee] is a
    number in [1.00, 100.00] and [maxPlayers] is either left out or a
    number in [1, 8]; every body outside these bounds is answered by
    throwing the ValidationError (VALIDATION_ERROR, status 400). *)
Theorem createSession_bounds (b : Body) :
  body_wf b ->
  (forall fee players : JsValue,
     createSession b = CreateOk fee players ->
     exists o, b = BodyObject o
       /\ fee = member o "entryFee" /\ players = member o "maxPlayers"
       /\ inRange 1 100 fee
       /\ (players = JUndefined \/ inRange 1 8 players))
  /\ (~ acceptable b -> createSession b = CreateThrows VALIDATION_ERROR 400).
Proof.
  intros W. pose proof (createSessionSchema_spec b W) as S. split.
  - intros fee players. unfold createSession.
    destruct (createSessionSchema b) eqn:E; [|discriminate].
    destruct b as [o|]; [|discriminate].
    intros H. injection H as <- <-.
    destruct (proj1 S eq_refl) as [Hfee Hplayers]. exists o. auto.
  - intros N. unfold createSession.
    destruct (createSessionSchema b) eqn:E; [|reflexivity].
    exfalso. apply N, S. reflexivity.
Qed.

Lemma entryFee_only_wf : body_wf entryFee_only.
Proof.
  intros k x H. apply lookup_singleton_Some in H as [_ H].
  injection H as <-. reflexivity.
Qed.

(** [{entryFee: 5}] is accepted, and its fee lies within the bounds. *)
Lemma createSession_bounds_witness :
  body_wf entryFee_only
  /\ createSession entryFee_only = CreateOk (JNum (Num.of_Z 5)) JUndefined
  /\ inRange 1 100 (JNum (Num.of_Z 5)).
Proof.
  split; [exact entryFee_only_wf|]. split; [reflexivity|].
  destruct (proj1 (createSession_bounds entryFee_only entryFee_only_wf)
              (JNum (Num.of_Z 5)) JUndefined eq_refl)
    as (o & _ & _ & _ & Hfee & _).
  exact Hfee.
Defined.

(** C5, as stated, fails: the body [{entryFee: 5}] is accepted although it
    has no [maxPlayers] in [1, 8]. *)
Lemma createSession_without_maxPlayers :
  createSession entryFee_only = CreateOk (JNum (Num.of_Z 5)) JUndefined
  /\ ~ inRange 1 8 JUndefined.
Proof.
  split.
  - vm_compute. reflexivity.
  - intros (x & q & E & _). discriminate.
Qed.

(* ===================================================================== *)
(** * Dates and midnights *)
(* ===================================================================== *)

Lemma YearFromDay_spec (d : Z) :
  JSDate.DayFromYear (JSDate.YearFromDay d) <= d
  < JSDate.DayFromYear (JSDate.YearFromDay d + 1).
Proof.
  unfold JSDate.DayFromYear, JSDate.YearFromDay.
  Z.to_euclidean_division_equations; lia.
Qed.

Lemma DayFromYear_mono (y y' : Z) :
  y <= y' -> JSDate.DayFromYear y <= JSDate.DayFromYear y'.
Proof.
  unfold JSDate.DayFromYear. intros H.
  Z.to_euclidean_division_equations; lia.
Qed.

(** [YearFromTime t] is the largest year that starts at or before [t]. *)
Lemma YearFromTime_largest (t : Z) :
  JSDate.TimeFromYear (JSDate.YearFromTime t) <= t /\
  forall y, JSDate.TimeFromYear y <= t -> y <= JSDate.YearFromTime t.
Proof.
  unfold JSDate.TimeFromYear, JSDate.YearFromTime.
  pose proof (YearFromDay_spec (JSDate.Day t)) as [Hlo Hhi].
  assert (Hday : JSDate.msPerDay * JSDate.Day t <= t
                 < JSDate.msPerDay * JSDate.Day t + JSDate.msPerDay).
  { unfold JSDate.Day, JSDate.msPerDay. Z.to_euclidean_division_equations; lia. }
  unfold JSDate.msPerDay in *.
  split; [lia|].
  intros y Hy.
  destruct (Z_le_gt_dec y (JSDate.YearFromDay (JSDate.Day t))) as [|Hgt];
    [assumption|].
  pose proof (DayFromYear_mono (JSDate.YearFromDay (JSDate.Day t) + 1) y
                ltac:(lia)).
  lia.
Qed.

(** A year is as long as [DaysInYear] says. *)
Lemma DaysInYear_step (y : Z) :
  JSDate.DayFromYear (y + 1) = JSDate.DayFromYear y + JSDate.DaysInYear y.
Proof.
  unfold JSDate.DayFromYear, JSDate.DaysInYear.
  destruct (Z.eqb_spec (y mod 4) 0) as [H4 | H4];
    destruct (Z.eqb_spec (y mod 100) 0) as [H100 | H100];
    destruct (Z.eqb_spec (y mod 400) 0) as [H400 | H400]; cbn [negb];
    replace (y + 1 - 1970) with (y - 1969) by lia;
    replace (y + 1 - 1969) with (y - 1968) by lia;
    replace (y + 1 - 1901) with (y - 1900) by lia;
    replace (y + 1 - 1601) with (y - 1600) by lia;
    Z.to_euclidean_division_equations; lia.
Qed.

Lemma MonthFromTime_range (t : Z) : 0 <= JSDate.MonthFromTime t <= 11.
Proof.
  unfold JSDate.MonthFromTime.
  repeat (destruct (_ <? _); [lia|]). lia.
Qed.

(** Setting the day of the month to [DateFromTime t + k] moves [k] days,
    across the ends of months and years. *)
Lemma MakeDay_shift (t k : Z) :
  JSDate.MakeDay (JSDate.YearFromTime t) (JSDate.MonthFromTime t)
                 (JSDate.DateFromTime t + k)
  = JSDate.Day t + k.
Proof.
  pose proof (MonthFromTime_range t) as Hm.
  unfold JSDate.MakeDay.
  rewrite Z.div_small, Z.add_0_r, Z.mod_small by lia.
  unfold JSDate.DayOfMonthStart, JSDate.DateFromTime, JSDate.InLeapYear,
    JSDate.DayWithinYear.
  destruct (JSDate.MonthFromTime t) as [| p | p]; [lia | | lia].
  do 11 (destruct p as [p | p |]; try lia).
Qed.

Lemma TimeClip_valid (t : Z) : validTime t -> JSDate.TimeClip t = Some t.
Proof.
  unfold validTime, JSDate.TimeClip. intros H.
  destruct (Z.gtb_spec (Z.abs t) JSDate.maxTime); [lia | reflexivity].
Qed.

Lemma TimeClip_Some (t m : Z) :
  JSDate.TimeClip t = Some m -> m = t /\ validTime t.
Proof.
  unfold validTime, JSDate.TimeClip.
  destruct (Z.gtb_spec (Z.abs t) JSDate.maxTime) as [Hgt | Hle];
    [discriminate|].
  intros E. injection E as <-. auto.
Qed.

Lemma Day_bounds (t : Z) :
  JSDate.Day t * JSDate.msPerDay <= t
  < JSDate.Day t * JSDate.msPerDay + JSDate.msPerDay.
Proof.
  unfold JSDate.Day, JSDate.msPerDay. Z.to_euclidean_division_equations; lia.
Qed.

Lemma Day_of_midnight (n : Z) : JSDate.Day (n * JSDate.msPerDay) = n.
Proof. unfold JSDate.Day, JSDate.msPerDay. apply Z.div_mul. lia. Qed.

Lemma TimeWithinDay_of_midnight (n : Z) :
  JSDate.TimeWithinDay (n * JSDate.msPerDay) = 0.
Proof. unfold JSDate.TimeWithinDay, JSDate.msPerDay. apply Z.mod_mul. lia. Qed.

Lemma midnight_validTime (t : Z) :
  validTime t -> validTime (JSDate.Day t * JSDate.msPerDay).
Proof.
  unfold validTime, JSDate.maxTime. intros H.
  pose proof (Day_bounds t) as B. unfold JSDate.Day, JSDate.msPerDay in *.
  Z.to_euclidean_division_equations; lia.
Qed.

Lemma getMidnightUTC_unfold (t : Z) :
  getMidnightUTC (Some t) = JSDate.TimeClip (JSDate.Day t * JSDate.msPerDay).
Proof.
  unfold getMidnightUTC, JSDate.copy, JSDate.setUTCHours0, JSDate.MakeDate,
    JSDate.MakeTime.
  cbn [Z.mul Z.add]. rewrite Z.add_0_r. reflexivity.
Qed.

(** The midnight of a valid instant is the start of its day. *)
Lemma getMidnightUTC_valid (t : Z) :
  validTime t -> getMidnightUTC (Some t) = Some (JSDate.Day t * JSDate.msPerDay).
Proof.
  intros H. rewrite getMidnightUTC_unfold.
  apply TimeClip_valid, midnight_validTime, H.
Qed.

Lemma getMidnightUTC_le (t : Z) :
  validTime t -> JSDate.le (getMidnightUTC (Some t)) (Some t) = true.
Proof.
  intros H. rewrite getMidnightUTC_valid by exact H. cbn.
  apply Z.leb_le. apply Day_bounds.
Qed.

Lemma getMidnightUTC_idempotent (d : JSDate.Date) :
  getMidnightUTC (getMidnightUTC d) = getMidnightUTC d.
Proof.
  destruct d as [t|]; [|reflexivity].
  rewrite (getMidnightUTC_unfold t).
  destruct (JSDate.TimeClip (JSDate.Day t * JSDate.msPerDay)) as [m|] eqn:E;
    [|reflexivity].
  apply TimeClip_Some in E as [-> Hv].
  rewrite getMidnightUTC_unfold, Day_of_midnight.
  apply TimeClip_valid. exact Hv.
Qed.

(** Before the last instant, the next midnight is the midnight plus one
    day. *)
Lemma getNextMidnightUTC_valid (t : Z) :
  validTime t -> t < JSDate.maxTime ->
  getNextMidnightUTC (Some t)
  = Some (JSDate.Day t * JSDate.msPerDay + JSDate.msPerDay).
Proof.
  intros Hv Hlt. unfold getNextMidnightUTC.
  rewrite getMidnightUTC_valid by exact Hv.
  cbn [JSDate.getUTCDate option_map JSDate.setUTCDate].
  rewrite MakeDay_shift, Day_of_midnight, TimeWithinDay_of_midnight.
  unfold JSDate.MakeDate. rewrite Z.add_0_r.
  replace ((JSDate.Day t + 1) * JSDate.msPerDay)
    with (JSDate.Day t * JSDate.msPerDay + JSDate.msPerDay) by lia.
  apply TimeClip_valid.
  unfold validTime, JSDate.maxTime in *.
  pose proof (Day_bounds t) as B. unfold JSDate.Day, JSDate.msPerDay in *.
  Z.to_euclidean_division_equations; lia.
Qed.

(** C9 (amended): for every valid Date [d], [getMidnightUTC] is
    idempotent and [getMidnightUTC(d) <= d]; when [d] is moreover before
    the last representable instant (8.64e15 ms), [getNextMidnightUTC(d)]
    is [getMidnightUTC(d)] plus 24 hours and [d < getNextMidnightUTC(d)]. *)
Theorem midnight_brackets_valid_instants (t : Z) :
  validTime t ->
  getMidnightUTC (getMidnightUTC (Some t)) = getMidnightUTC (Some t)
  /\ JSDate.le (getMidnightUTC (Some t)) (Some t) = true
  /\ (t < JSDate.maxTime ->
      JSDate.getTime (getNextMidnightUTC (Some t))
        = JSDate.plus_ms (getMidnightUTC (Some t)) (24 * JSDate.msPerHour)
      /\ JSDate.lt (Some t) (getNextMidnightUTC (Some t)) = true).
Proof.
  intros Hv. split; [apply getMidnightUTC_idempotent|].
  split; [apply getMidnightUTC_le, Hv|].
  intros Hlt. rewrite getNextMidnightUTC_valid, getMidnightUTC_valid by assumption.
  split; [reflexivity|]. cbn. apply Z.ltb_lt. apply Day_bounds.
Qed.

Lemma day0_valid : validTime (day0 + 1000).
Proof. unfold validTime, day0, JSDate.maxTime. lia. Qed.

(** 2024-11-04T00:00:01Z lies between its midnight and the next one. *)
Lemma midnight_brackets_valid_instants_witness :
  validTime (day0 + 1000)
  /\ getMidnightUTC (getMidnightUTC (Some (day0 + 1000)))
     = getMidnightUTC (Some (day0 + 1000))
  /\ JSDate.le (getMidnightUTC (Some (day0 + 1000))) (Some (day0 + 1000)) = true
  /\ (day0 + 1000 < JSDate.maxTime ->
      JSDate.getTime (getNextMidnightUTC (Some (day0 + 1000)))
        = JSDate.plus_ms (getMidnightUTC (Some (day0 + 1000)))
            (24 * JSDate.msPerHour)
      /\ JSDate.lt (Some (day0 + 1000))
           (getNextMidnightUTC (Some (day0 + 1000))) = true).
Proof.
  split; [exact day0_valid
         | exact (midnight_brackets_valid_instants (day0 + 1000) day0_valid)].
Defined.

(** C9, as stated, fails at the Invalid Date, where no comparison holds,
    and at the last representable instant, whose next midnight is the
    Invalid Date. *)
Lemma midnight_fails_outside_valid_instants :
  JSDate.le (getMidnightUTC None) None = false
  /\ JSDate.lt None (getNextMidnightUTC None) = false
  /\ validTime JSDate.maxTime
  /\ getNextMidnightUTC (Some JSDate.maxTime) = None
  /\ JSDate.lt (Some JSDate.maxTime) (getNextMidnightUTC (Some JSDate.maxTime))
     = false.
Proof.
  split; [reflexivity|]. split; [reflexivity|].
  split; [unfold validTime, JSDate.maxTime; lia|].
  split; reflexivity.
Qed.

(* ===================================================================== *)
(** * The token gate *)
(* ===================================================================== *)

(** Tomorrow's midnight, as the gate and the token routes report it. *)
Lemma getNextTokenReset_valid (now : Z) :
  validTime now -> validTime (now + JSDate.msPerDay) ->
  getNextTokenReset now
  = Some (JSDate.Day now * JSDate.msPerDay + JSDate.msPerDay).
Proof.
  intros Hv Hv'. unfold getNextTokenReset.
  rewrite (TimeClip_valid now Hv).
  cbn [JSDate.getUTCDate option_map JSDate.setUTCDate].
  rewrite MakeDay_shift.
  assert (E : JSDate.MakeDate (JSDate.Day now + 1) (JSDate.TimeWithinDay now)
              = now + JSDate.msPerDay).
  { unfold JSDate.MakeDate, JSDate.TimeWithinDay, JSDate.Day, JSDate.msPerDay.
    Z.to_euclidean_division_equations; lia. }
  rewrite E, (TimeClip_valid _ Hv').
  change (JSDate.setUTCHours0 (Some (now + JSDate.msPerDay)))
    with (getMidnightUTC (Some (now + JSDate.msPerDay))).
  rewrite (getMidnightUTC_valid _ Hv'). f_equal.
  unfold JSDate.Day, JSDate.msPerDay.
  Z.to_euclidean_division_equations; lia.
Qed.

Lemma checkTokens_world (n now : Z) (v : CacheValue) (w : World) :
  (checkTokens n now v w).2 = w.
Proof.
  unfold checkTokens. destruct (js_lt _ _); [|reflexivity].
  destruct (getNextTokenReset now); reflexivity.
Qed.

Lemma checkTokens_verdict (n now now' : Z) (v : CacheValue) (w : World) :
  isNext (checkTokens n now v w).1 = isNext (checkTokens n now' v w).1.
Proof.
  unfold checkTokens. destruct (js_lt _ _); [|reflexivity].
  destruct (getNextTokenReset now), (getNextTokenReset now'); reflexivity.
Qed.

Lemma checkTokens_isNext (n now : Z) (v : CacheValue) (w : World) (t : Z) :
  tokens_member v = Some t ->
  isNext (checkTokens n now v w).1 = (n <=? t).
Proof.
  intros Hm. unfold checkTokens. rewrite Hm. cbn [js_lt].
  destruct (Z.ltb_spec t n); destruct (Z.leb_spec n t); try lia.
  - destruct (getNextTokenReset now); reflexivity.
  - reflexivity.
Qed.

Lemma checkTokens_short (n now t : Z) (v : CacheValue) (w : World) :
  validTime now -> validTime (now + JSDate.msPerDay) ->
  tokens_member v = Some t -> t < n ->
  checkTokens n now v w
  = (fail 403 NO_TOKENS_REMAINING
       (TokenShortage n (Some t)
          (JSDate.Day now * JSDate.msPerDay + JSDate.msPerDay)), w).
Proof.
  intros Hv Hv' Hm Hlt. unfold checkTokens. rewrite Hm. cbn [js_lt].
  destruct (Z.ltb_spec t n); [|lia].
  rewrite (getNextTokenReset_valid now Hv Hv'). reflexivity.
Qed.

(** X4: when the count the gate sees is short, it answers 403
    NO_TOKENS_REMAINING, the guarded handler does not run, and the store
    is as it was. *)
Lemma requireTokens_rejects_short_count
    (n now t : Z) (u : AuthUser) (w : World)
    (handler : World -> Outcome * World) :
  validTime now -> validTime (now + JSDate.msPerDay) ->
  gateCount u w = Some t -> t < n ->
  (guarded (requireTokens n now (Some u)) handler w).1
  = fail 403 NO_TOKENS_REMAINING
      (TokenShortage n (Some t)
         (JSDate.Day now * JSDate.msPerDay + JSDate.msPerDay))
  /\ db (guarded (requireTokens n now (Some u)) handler w).2 = db w.
Proof.
  intros Hv Hv' Hc Hlt. unfold guarded, requireTokens, gateCount in *.
  assert (Hcheck : forall v w0, tokens_member v = Some t ->
            checkTokens n now v w0
            = (fail 403 NO_TOKENS_REMAINING
                 (TokenShortage n (Some t)
                    (JSDate.Day now * JSDate.msPerDay + JSDate.msPerDay)), w0)).
  { intros v w0 Hm. unfold checkTokens. rewrite Hm. cbn [js_lt].
    destruct (Z.ltb_spec t n); [|lia].
    rewrite (getNextTokenReset_valid now Hv Hv'). reflexivity. }
  destruct (cache_get (cache w) (USER_TOKENS (au_id u))) as [v|].
  - rewrite (Hcheck v w Hc). split; reflexivity.
  - destruct (findUniqueUser (db w) (au_id u)) as [[user|]|]; try discriminate.
    injection Hc as Hc. rewrite Hcheck by (cbn; congruence).
    split; reflexivity.
Qed.

(** C4 (amended): the Token Gate makes no midnight check and performs no
    reset.  [requireTokens] never changes the stored rows (neither
    [tokensRemaining] nor [lastTokenReset]); on the same store and cache
    it decides the same, and leaves the same behind, at every time; and
    it measures the request against the count it reads (the [tokens]
    member of the cached entry or, with nothing cached, the stored row):
    with a count of [t] it lets a request for [n] tokens through exactly
    when [n <= t], and otherwise answers 403 NO_TOKENS_REMAINING with
    that count and the next midnight. *)
Theorem requireTokens_never_resets
    (n now : Z) (u : option AuthUser) (w : World) :
  db (requireTokens n now u w).2 = db w
  /\ (forall now' : Z,
        isNext (requireTokens n now' u w).1 = isNext (requireTokens n now u w).1
        /\ (requireTokens n now' u w).2 = (requireTokens n now u w).2)
  /\ (forall (au : AuthUser) (t : Z),
        u = Some au -> gateCount au w = Some t ->
        isNext (requireTokens n now u w).1 = (n <=? t)
        /\ (t < n -> validTime now -> validTime (now + JSDate.msPerDay) ->
            (requireTokens n now u w).1
            = Respond {| res_status := 403;
                         res_error := Some NO_TOKENS_REMAINING;
                         res_data :=
                           TokenShortage n (Some t)
                             (JSDate.Day now * JSDate.msPerDay
                              + JSDate.msPerDay) |})).
Proof.
  split; [|split].
  - unfold requireTokens. destruct u as [u|]; [|reflexivity].
    destruct (cache_get _ _) as [v|].
    + rewrite checkTokens_world. reflexivity.
    + destruct (findUniqueUser _ _) as [[user|]|]; try reflexivity.
      rewrite checkTokens_world. reflexivity.
  - intros now'. unfold requireTokens. destruct u as [u|]; [|split; reflexivity].
    destruct (cache_get _ _) as [v|].
    + rewrite !checkTokens_world. split; [apply checkTokens_verdict | reflexivity].
    + destruct (findUniqueUser _ _) as [[user|]|]; try (split; reflexivity).
      rewrite !checkTokens_world. split; [apply checkTokens_verdict | reflexivity].
  - intros au t -> Hc. unfold requireTokens, gateCount in *.
    destruct (cache_get (cache w) (USER_TOKENS (au_id au))) as [v|].
    + split; [apply checkTokens_isNext; exact Hc|].
      intros Hlt Hv Hv'. rewrite (checkTokens_short n now t v w Hv Hv' Hc Hlt).
      reflexivity.
    + destruct (findUniqueUser (db w) (au_id au)) as [[user|]|];
        try discriminate.
      injection Hc as Hc.
      split; [apply checkTokens_isNext; cbn; congruence|].
      intros Hlt Hv Hv'.
      rewrite (checkTokens_short n now t _ _ Hv Hv') by (cbn; congruence || lia).
      reflexivity.
Qed.

(** Alice, out of tokens since 4 November, at 00:00:01 on 5 November. *)
Lemma requireTokens_never_resets_witness :
  db (requireTokens 1 next_day_0h00m01 (Some alice) spent_world).2
  = db spent_world
  /\ isNext (requireTokens 1 next_day_0h00m01 (Some alice) spent_world).1
     = false
  /\ (requireTokens 1 next_day_0h00m01 (Some alice) spent_world).1
     = Respond {| res_status := 403;
                  res_error := Some NO_TOKENS_REMAINING;
                  res_data :=
                    TokenShortage 1 (Some 0)
                      (JSDate.Day next_day_0h00m01 * JSDate.msPerDay
                       + JSDate.msPerDay) |}.
Proof.
  destruct (requireTokens_never_resets 1 next_day_0h00m01 (Some alice)
              spent_world) as (Hdb & _ & Hcount).
  destruct (Hcount alice 0 eq_refl eq_refl) as [Hnext Hshort].
  split; [exact Hdb|]. split; [exact Hnext|].
  apply Hshort.
  - lia.
  - unfold validTime, next_day_0h00m01, day0, JSDate.maxTime, JSDate.msPerDay.
    lia.
  - unfold validTime, next_day_0h00m01, day0, JSDate.maxTime, JSDate.msPerDay.
    lia.
Defined.

(** C4, as stated, fails: Alice used her third token on 4 November; at
    00:00:01 on 5 November the time is past the midnight after her last
    reset, yet the gate answers 403 and her row still holds 0 tokens and
    the old reset time. *)
Lemma gate_rejects_after_midnight :
  JSDate.ge (JSDate.TimeClip next_day_0h00m01)
            (getNextMidnightUTC (JSDate.TimeClip day0)) = true
  /\ (requireTokens 1 next_day_0h00m01 (Some alice) spent_world).1
     = fail 403 NO_TOKENS_REMAINING
         (TokenShortage 1 (Some 0) (day0 + 2 * JSDate.msPerDay))
  /\ users (db (requireTokens 1 next_day_0h00m01 (Some alice) spent_world).2)
       !! "alice"
     = Some (alice_row 0 day0 1000).
Proof. vm_compute. repeat split; reflexivity. Qed.

(** C6, evaluated where it breaks: Alice has no tokens; after
    [GET /api/user/tokens] has cached [{tokensRemaining: 0, ...}] under
    her token key, the gate reads [tokens] as [undefined], lets the join
    through, and the answer is 200. *)
Theorem join_passes_gate_after_token_query :
  tokensRemaining <$> (users (db queried_world) !! "alice") = Some 0
  /\ entries (cache queried_world) !! USER_TOKENS "alice"
     = Some (TokenStatus 0 day0 3 (day0 + JSDate.msPerDay))
  /\ guarded (requireTokens 1 (day0 + 2000) (Some alice)) (joinSession "s1")
       queried_world
     = (ok (Joined "s1"), queried_world).
Proof. vm_compute. repeat split; reflexivity. Qed.

(* ===================================================================== *)
(** * The credit gate *)
(* ===================================================================== *)

Lemma ascending_from_spec (n : nat) :
  forall k, ascending_from (Num.of_cents (k - 1)) k n = true ->
  forall j, k <= j < k + Z.of_nat n ->
    Num.wf (Num.of_cents j) = true
    /\ Num.isFinite (Num.of_cents j) = true
    /\ Num.lt (Num.of_cents (j - 1)) (Num.of_cents j) = true.
Proof.
  induction n as [| n IH]; intros k H j Hj; [lia|].
  cbn [ascending_from] in H. cbv zeta in H.
  apply andb_prop in H as [H Hrest]. apply andb_prop in H as [H Hlt].
  apply andb_prop in H as [Hwf Hfin].
  destruct (Z.eq_dec j k) as [-> | Hne]; [auto|].
  apply (IH (k + 1)); [|lia].
  replace (k + 1 - 1) with k by lia. exact Hrest.
Qed.

Lemma cents_ascending_to_100_00 :
  ascending_from (Num.of_cents 0) 1 (Z.to_nat 10000) = true.
Proof. vm_compute. reflexivity. Qed.

(** Up to 100.00, a smaller amount of cents is a smaller double. *)
Lemma of_cents_ascending (b r : Z) :
  0 <= b < r -> r <= 10000 ->
  Num.lt (Num.of_cents b) (Num.of_cents r) = true.
Proof.
  intros Hb Hr.
  assert (G : forall j, 0 <= j <= 10000 ->
            Num.wf (Num.of_cents j) = true /\ Num.isFinite (Num.of_cents j) = true).
  { intros j Hj. destruct (Z.eq_dec j 0) as [-> | Hne]; [split; reflexivity|].
    pose proof (ascending_from_spec (Z.to_nat 10000) 1 cents_ascending_to_100_00 j)
      as S.
    rewrite Z2Nat.id in S by lia. destruct (S ltac:(lia)) as (A & B & _). auto. }
  assert (Step : forall j, 1 <= j <= 10000 ->
            ulps (Num.of_cents (j - 1)) < ulps (Num.of_cents j)).
  { intros j Hj.
    pose proof (ascending_from_spec (Z.to_nat 10000) 1 cents_ascending_to_100_00 j)
      as S.
    rewrite Z2Nat.id in S by lia. destruct (S ltac:(lia)) as (A & B & C).
    destruct (G (j - 1) ltac:(lia)) as [A' B'].
    apply (lt_ulps _ _ A' A B' B). exact C. }
  destruct (G b ltac:(lia)) as [Wb Fb]. destruct (G r ltac:(lia)) as [Wr Fr].
  apply (lt_ulps _ _ Wb Wr Fb Fr).
  assert (Mono : forall d, 0 <= d -> b + 1 + d <= 10000 ->
            ulps (Num.of_cents b) < ulps (Num.of_cents (b + 1 + d))).
  { intros d Hd. pattern d. apply natlike_ind; [| |exact Hd].
    - intros Hle. pose proof (Step (b + 1) ltac:(lia)) as S.
      replace (b + 1 - 1) with b in S by lia.
      replace (b + 1 + 0) with (b + 1) by lia. exact S.
    - intros x Hx IHx Hle.
      pose proof (Step (b + 1 + Z.succ x) ltac:(lia)) as S.
      replace (b + 1 + Z.succ x - 1) with (b + 1 + x) in S by lia.
      specialize (IHx ltac:(lia)). lia. }
  replace r with (b + 1 + (r - b - 1)) by lia. apply Mono; lia.
Qed.

Lemma of_cents_regular (j : Z) :
  0 <= j <= 10000 ->
  Num.wf (Num.of_cents j) = true /\ Num.isFinite (Num.of_cents j) = true.
Proof.
  intros Hj. destruct (Z.eq_dec j 0) as [-> | Hne]; [split; reflexivity|].
  pose proof (ascending_from_spec (Z.to_nat 10000) 1 cents_ascending_to_100_00 j)
    as S.
  rewrite Z2Nat.id in S by lia. destruct (S ltac:(lia)) as (A & B & _). auto.
Qed.

(** ** Rounding *)

Lemma shr_1_nonneg (m : Z) (r s : bool) :
  0 <= m ->
  shr_1 {| shr_m := m; shr_r := r; shr_s := s |}
  = {| shr_m := m / 2; shr_r := Z.odd m; shr_s := r || s |}.
Proof.
  intros H. destruct m as [|p|p]; [reflexivity| |lia].
  destruct p as [p|p|]; cbn [shr_1]; f_equal.
  - rewrite Pos2Z.inj_xI. Z.to_euclidean_division_equations; lia.
  - rewrite Pos2Z.inj_xO. Z.to_euclidean_division_equations; lia.
Qed.

Lemma shifted_start (N : Z) :
  shifted N 0 {| shr_m := N; shr_r := false; shr_s := false |}.
Proof.
  unfold shifted. cbn [shr_m shr_r shr_s].
  rewrite Z.pow_0_r, Z.div_1_r, Z.mod_1_r. split; [reflexivity|]. split; [lia|]. now left.
Qed.

Lemma shifted_step (N k : Z) (mrs : shr_record) :
  0 <= N -> 0 <= k -> shifted N k mrs -> shifted N (k + 1) (shr_1 mrs).
Proof.
  intros HN Hk. destruct mrs as [m r s]. unfold shifted. cbn [shr_m shr_r shr_s].
  intros (Hm & Hr & Hs).
  assert (HP : 0 < 2 ^ k) by (apply pow2_pos; lia).
  assert (Hm0 : 0 <= m) by (subst m; apply Z.div_pos; lia).
  rewrite (shr_1_nonneg m r s Hm0). cbn [shr_m shr_r shr_s].
  rewrite Z.pow_add_r, Z.pow_1_r by lia.
  set (P := 2 ^ k) in *.
  pose proof (Z.div_mod N P ltac:(lia)) as E.
  pose proof (Z.mod_pos_bound N P HP) as B.
  pose proof (Zmod_odd m) as Ho.
  pose proof (Z.div_mod m 2 ltac:(lia)) as E2.
  set (rho := N mod P) in *. rewrite <- Hm in E.
  assert (Eq : N / (P * 2) = m / 2).
  { symmetry. apply (Z.div_unique N (P * 2) (m / 2) ((m mod 2) * P + rho)).
    - left. destruct (Z.odd m); nia.
    - nia. }
  assert (Er : N mod (P * 2) = (m mod 2) * P + rho).
  { symmetry. apply (Z.mod_unique N (P * 2) (m / 2) ((m mod 2) * P + rho)).
    - left. destruct (Z.odd m); nia.
    - nia. }
  rewrite Eq, Er. split; [reflexivity|].
  destruct (Z.odd m); rewrite Ho; destruct r, s; cbn [orb]; split; try lia;
    try (destruct Hs; lia).
Qed.

Lemma shifted_iter (N : Z) (p : positive) :
  0 <= N ->
  forall k mrs, 0 <= k -> shifted N k mrs ->
    shifted N (k + Zpos p) (SpecFloat.iter_pos shr_1 p mrs).
Proof.
  intros HN. induction p as [p IH | p IH |]; intros k mrs Hk H; cbn [SpecFloat.iter_pos].
  - apply (shifted_step N k mrs HN Hk) in H.
    apply (IH (k + 1) _ ltac:(lia)) in H.
    apply (IH (k + 1 + Zpos p) _ ltac:(lia)) in H.
    replace (k + Zpos p~1) with (k + 1 + Zpos p + Zpos p) by lia. exact H.
  - apply (IH k _ Hk) in H. apply (IH (k + Zpos p) _ ltac:(lia)) in H.
    replace (k + Zpos p~0) with (k + Zpos p + Zpos p) by lia. exact H.
  - apply shifted_step; assumption.
Qed.

(** Rounding to nearest even after the shift: one of the two neighbours,
    at most half a unit of the shifted mantissa away. *)
Lemma round_nearest_even_shifted (N k : Z) (mrs : shr_record) :
  0 <= N -> 0 <= k -> shifted N k mrs ->
  let m2 := round_nearest_even (shr_m mrs) (loc_of_shr_record mrs) in
  N / 2 ^ k <= m2 <= N / 2 ^ k + 1
  /\ 2 * Z.abs (m2 * 2 ^ k - N) <= 2 ^ k.
Proof.
  intros HN Hk. destruct mrs as [m r s]. unfold shifted. cbn [shr_m shr_r shr_s].
  intros (Hm & Hr & Hs).
  assert (HP : 0 < 2 ^ k) by (apply pow2_pos; lia).
  set (P := 2 ^ k) in *.
  pose proof (Z.div_mod N P ltac:(lia)) as E.
  pose proof (Z.mod_pos_bound N P HP) as B.
  set (rho := N mod P) in *. rewrite <- Hm in *.
  destruct r, s; cbn [loc_of_shr_record round_nearest_even shr_m]; cbv zeta.
  - split; [lia|]. nia.
  - destruct (Z.even m); split; try lia; nia.
  - split; [lia|]. nia.
  - assert (rho = 0) by (destruct Hs; lia). split; [lia|]. nia.
Qed.

Lemma digits_of_bounds (m : positive) (d : Z) :
  2 ^ (d - 1) <= Zpos m < 2 ^ d -> 0 < d -> Zpos (digits2_pos m) = d.
Proof.
  intros [Hlo Hhi] Hd. pose proof (digits2_pos_bounds m) as [Dlo Dhi].
  set (D := Zpos (digits2_pos m)) in *.
  assert (HD : 0 < D) by (subst D; lia).
  destruct (Z.lt_trichotomy D d) as [L | [E | G]]; [|exact E|].
  - assert (2 ^ D <= 2 ^ (d - 1)) by (apply Z.pow_le_mono_r; lia). lia.
  - assert (2 ^ d <= 2 ^ (D - 1)) by (apply Z.pow_le_mono_r; lia). lia.
Qed.

Lemma fexp_binary64 (z : Z) :
  fexp Num.prec Num.emax z = Z.max (z - 53) (-1074).
Proof. reflexivity. Qed.

(** A mantissa that is canonical for its exponent is kept as it is. *)
Lemma binary_round_aux_canonical (m : positive) (e : Z) :
  fexp Num.prec Num.emax (Zpos (digits2_pos m) + e) = e -> e <= 971 ->
  binary_round_aux Num.prec Num.emax false (Zpos m) e loc_Exact
  = S754_finite false m e.
Proof.
  intros Hc He. unfold binary_round_aux, shr_fexp.
  cbn [Zdigits2 shr_record_of_loc]. rewrite Hc, Z.sub_diag.
  cbn [shr shr_m loc_of_shr_record round_nearest_even Zdigits2 shr_record_of_loc].
  rewrite Hc, Z.sub_diag. cbn [shr shr_m].
  destruct (Z.leb_spec e (Num.emax - Num.prec)) as [_ | C]; [reflexivity|].
  unfold Num.emax, Num.prec in C. lia.
Qed.

Lemma canonical_bounded (m : positive) (e : Z) :
  fexp Num.prec Num.emax (Zpos (digits2_pos m) + e) = e -> e <= 971 ->
  bounded Num.prec Num.emax m e = true.
Proof.
  intros Hc He. unfold bounded, canonical_mantissa. rewrite Hc, Z.eqb_refl.
  apply Z.leb_le. unfold Num.emax, Num.prec. lia.
Qed.

(** A mantissa with [k] digits too many is shifted by [k] and rounded to
    nearest even: the result is within half a unit of its last place. *)
Lemma binary_round_aux_rounds (n : positive) (e : Z) (p : positive) :
  Zpos p = Zpos (digits2_pos n) - 53 ->
  -1074 <= e -> e + Zpos p <= 970 ->
  exists (m' : positive) (e' : Z),
    binary_round_aux Num.prec Num.emax false (Zpos n) e loc_Exact
    = S754_finite false m' e'
    /\ bounded Num.prec Num.emax m' e' = true
    /\ 2 * Z.abs (Zpos m' * 2 ^ (e' + 1074) - Zpos n * 2 ^ (e + 1074))
       <= 2 ^ (e + Zpos p + 1074).
Proof.
  intros Hp He Hmax.
  pose proof (digits2_pos_bounds n) as [Dlo Dhi].
  set (k := Zpos p) in *.
  assert (Hk : 0 < k) by (subst k; lia).
  assert (Hd0 : Zpos (digits2_pos n) = k + 53) by lia.
  rewrite Hd0 in Dlo, Dhi.
  replace (k + 53 - 1) with (k + 52) in Dlo by lia.
  rewrite Z.pow_add_r in Dlo, Dhi by lia.
  assert (HP : 0 < 2 ^ k) by (apply pow2_pos; lia).
  pose proof (shifted_iter (Zpos n) p ltac:(lia) 0
                {| shr_m := Zpos n; shr_r := false; shr_s := false |}
                ltac:(lia) (shifted_start (Zpos n))) as Hs.
  rewrite Z.add_0_l in Hs. fold k in Hs.
  pose proof (round_nearest_even_shifted (Zpos n) k _ ltac:(lia) ltac:(lia) Hs)
    as [Hm2 Herr].
  cbv zeta in Hm2, Herr.
  assert (Hq : 2 ^ 52 <= Zpos n / 2 ^ k < 2 ^ 53).
  { split.
    - apply Z.div_le_lower_bound; lia.
    - apply Z.div_lt_upper_bound; lia. }
  unfold binary_round_aux, shr_fexp. cbn [Zdigits2 shr_record_of_loc].
  rewrite fexp_binary64, Hd0.
  replace (Z.max (k + 53 + e - 53) (-1074) - e) with (Zpos p) by lia.
  cbn [shr]. fold k.
  set (mrs := SpecFloat.iter_pos shr_1 p _) in *.
  set (m2 := round_nearest_even (shr_m mrs) (loc_of_shr_record mrs)) in *.
  assert (Hpow : 2 ^ (e + k + 1074) = 2 ^ k * 2 ^ (e + 1074))
    by (rewrite <- Z.pow_add_r by lia; f_equal; lia).
  assert (HE : 0 < 2 ^ (e + 1074)) by (apply pow2_pos; lia).
  destruct m2 as [| q | q] eqn:Em2; try lia.
  destruct (Z.eq_dec (Zpos q) (2 ^ 53)) as [Ecarry | Hne].
  - (* the rounding carried into a 54th digit *)
    assert (Eq : q = (2 ^ 53)%positive) by (apply Pos2Z.inj; exact Ecarry).
    subst q. exists (2 ^ 52)%positive, (e + k + 1).
    split.
    + cbn [Zdigits2]. rewrite fexp_binary64.
      change (Zpos (digits2_pos (2 ^ 53))) with 54.
      replace (Z.max (54 + (e + k) - 53) (-1074) - (e + k)) with 1 by lia.
      cbn [shr SpecFloat.iter_pos shr_record_of_loc]. 
      change (shr_m (shr_1 {| shr_m := Zpos (2 ^ 53); shr_r := false;
                              shr_s := false |}))
        with (Zpos (2 ^ 52)).
      destruct (Z.leb_spec (e + k + 1) (Num.emax - Num.prec)) as [_ | C];
        [reflexivity|]. unfold Num.emax, Num.prec in C. lia.
    + split.
      * apply canonical_bounded; [|lia]. rewrite fexp_binary64.
        change (Zpos (digits2_pos (2 ^ 52))) with 53. lia.
      * replace (e + k + 1 + 1074) with (1 + (k + (e + 1074))) by lia.
        rewrite !Z.pow_add_r by lia. rewrite Hpow.
        change (Zpos (2 ^ 52) * (2 ^ 1 * (2 ^ k * 2 ^ (e + 1074))))
          with (2 ^ 52 * (2 ^ 1 * (2 ^ k * 2 ^ (e + 1074)))).
        rewrite Ecarry in Herr.
        replace (2 ^ 52 * (2 ^ 1 * (2 ^ k * 2 ^ (e + 1074)))
                 - Zpos n * 2 ^ (e + 1074))
          with ((2 ^ 53 * 2 ^ k - Zpos n) * 2 ^ (e + 1074))
          by (change (2 ^ 53) with (2 ^ 52 * 2 ^ 1); ring).
        rewrite Z.abs_mul, (Z.abs_eq (2 ^ (e + 1074))) by lia. nia.
  - exists q, (e + k).
    assert (Hd : Zpos (digits2_pos q) = 53).
    { apply digits_of_bounds; [|lia]. change (53 - 1) with 52. lia. }
    split.
    + cbn [Zdigits2]. rewrite fexp_binary64, Hd.
      replace (Z.max (53 + (e + k) - 53) (-1074) - (e + k)) with 0 by lia.
      cbn [shr shr_record_of_loc shr_m].
      destruct (Z.leb_spec (e + k) (Num.emax - Num.prec)) as [_ | C];
        [reflexivity|]. unfold Num.emax, Num.prec in C. lia.
    + split.
      * apply canonical_bounded; [|lia]. rewrite fexp_binary64, Hd. lia.
      * rewrite Hpow.
        replace (Zpos q * (2 ^ k * 2 ^ (e + 1074)) - Zpos n * 2 ^ (e + 1074))
          with ((Zpos q * 2 ^ k - Zpos n) * 2 ^ (e + 1074)) by ring.
        rewrite Z.abs_mul, (Z.abs_eq (2 ^ (e + 1074))) by lia. nia.
Qed.

Lemma iter_xO_value (m d : positive) :
  Zpos (Pos.iter xO m d) = Zpos m * 2 ^ Zpos d.
Proof.
  change (Pos.iter xO m d) with (shift_pos d m).
  rewrite shift_pos_correct. change (Z.pow_pos 2 d) with (2 ^ Zpos d). ring.
Qed.

(** Aligning a mantissa to a smaller exponent keeps the value. *)
Lemma shl_align_value (m : positive) (e e' : Z) :
  e' <= e ->
  Zpos (shl_align m e e').1 = Zpos m * 2 ^ (e - e')
  /\ (shl_align m e e').2 = e'.
Proof.
  intros H. unfold shl_align.
  destruct (e' - e) as [| d | d] eqn:E; try lia.
  - replace (e - e') with 0 by lia. cbn [fst snd]. split; lia.
  - cbn [fst snd]. rewrite iter_xO_value. split; [|reflexivity].
    do 2 f_equal. lia.
Qed.

(** [binary_round] on a positive mantissa, short of overflow: a finite
    canonical double, within half a unit of its last place. *)
Lemma binary_round_near (n : positive) (e : Z) :
  -1074 <= e -> Zpos (digits2_pos n) + e <= 1023 ->
  exists (m' : positive) (e' : Z),
    binary_round Num.prec Num.emax false n e = S754_finite false m' e'
    /\ bounded Num.prec Num.emax m' e' = true
    /\ 2 * Z.abs (Zpos m' * 2 ^ (e' + 1074) - Zpos n * 2 ^ (e + 1074))
       <= 2 ^ (Z.max (Zpos (digits2_pos n) + e - 53) (-1074) + 1074).
Proof.
  intros He Hmax. unfold binary_round.
  pose proof (digits2_pos_bounds n) as [Dlo Dhi].
  set (d0 := Zpos (digits2_pos n)) in *.
  assert (Hd0 : 0 < d0) by (subst d0; lia).
  rewrite fexp_binary64.
  set (fe := Z.max (d0 + e - 53) (-1074)).
  assert (Hfe : -1074 <= fe /\ d0 + e - 53 <= fe
                /\ (fe = -1074 \/ fe = d0 + e - 53)) by (subst fe; lia).
  assert (Hpos : 0 <= 2 ^ (fe + 1074)) by (apply Z.pow_nonneg; lia).
  destruct (Z.lt_trichotomy fe e) as [Hlt | [Heq | Hgt]].
  - (* fewer than 53 digits: aligned to the left, exact *)
    destruct (shl_align_value n e fe ltac:(lia)) as [Hv He'].
    destruct (shl_align n e fe) as [mz ez]. cbn [fst snd] in Hv, He'. subst ez.
    assert (Hdz : Zpos (digits2_pos mz) = d0 + (e - fe)).
    { apply digits_of_bounds; [|lia]. rewrite Hv.
      replace (d0 + (e - fe) - 1) with ((d0 - 1) + (e - fe)) by lia.
      rewrite !Z.pow_add_r by lia.
      assert (0 < 2 ^ (e - fe)) by (apply pow2_pos; lia). nia. }
    assert (Hc : fexp Num.prec Num.emax (Zpos (digits2_pos mz) + fe) = fe).
    { rewrite fexp_binary64, Hdz. subst fe. lia. }
    exists mz, fe. split; [apply binary_round_aux_canonical; [exact Hc | lia]|].
    split; [apply canonical_bounded; [exact Hc | lia]|].
    rewrite Hv.
    replace (Zpos n * 2 ^ (e - fe) * 2 ^ (fe + 1074) - Zpos n * 2 ^ (e + 1074))
      with 0; [change (Z.abs 0) with 0; rewrite Z.mul_0_r; exact Hpos|].
    replace (e + 1074) with ((e - fe) + (fe + 1074)) by lia.
    rewrite (Z.pow_add_r 2 (e - fe) (fe + 1074)) by lia. ring.
  - (* canonical as it is *)
    destruct (shl_align_value n e fe ltac:(lia)) as [Hv He'].
    destruct (shl_align n e fe) as [mz ez]. cbn [fst snd] in Hv, He'. subst ez.
    replace (e - fe) with 0 in Hv by lia. rewrite Z.pow_0_r, Z.mul_1_r in Hv.
    apply Pos2Z.inj in Hv. subst mz.
    assert (Hc : fexp Num.prec Num.emax (Zpos (digits2_pos n) + fe) = fe).
    { rewrite fexp_binary64. fold d0. subst fe. lia. }
    exists n, fe. split; [apply binary_round_aux_canonical; [exact Hc | lia]|].
    split; [apply canonical_bounded; [exact Hc | lia]|].
    rewrite Heq, Z.sub_diag. change (Z.abs 0) with 0. rewrite Z.mul_0_r. apply Z.pow_nonneg. lia.
  - (* more than 53 digits: rounded *)
    assert (Hal : shl_align n e fe = (n, e)).
    { unfold shl_align. destruct (fe - e) eqn:E; try lia; reflexivity. }
    rewrite Hal.
    assert (Hk : exists p, Zpos p = d0 - 53).
    { destruct (d0 - 53) as [| p | p] eqn:E; try (subst fe; lia). now exists p. }
    destruct Hk as [p Hp].
    destruct (binary_round_aux_rounds n e p Hp He ltac:(subst fe; lia))
      as (m' & e' & Hr & Hb & Herr).
    exists m', e'. split; [exact Hr|]. split; [exact Hb|].
    replace (fe + 1074) with (e + Zpos p + 1074) by (subst fe; lia).
    exact Herr.
Qed.

Lemma ulps_finite (s : bool) (m : positive) (e : Z) :
  ulps (S754_finite s m e) = cond_Zopp s (Zpos m * 2 ^ (e + 1074)).
Proof. reflexivity. Qed.

(** The difference of two doubles below 128, the larger first: finite,
    well formed, and within 2^-47 of the exact difference. *)
Lemma sub_near (x y : Num.number) :
  Num.wf x = true -> Num.wf y = true ->
  Num.isFinite x = true -> Num.isFinite y = true ->
  0 <= ulps y < ulps x -> ulps x < 2 ^ 1081 ->
  Num.wf (Num.sub x y) = true
  /\ Num.isFinite (Num.sub x y) = true
  /\ Z.abs (ulps (Num.sub x y) - (ulps x - ulps y)) <= 2 ^ 1027.
Proof.
  intros Wx Wy Fx Fy Hxy Hx.
  remember (2 ^ 1081) as B eqn:EB. remember (2 ^ 1027) as K eqn:EK.
  assert (HB : forall d, 0 <= d -> 2 ^ d < B -> d < 1081).
  { intros d Hd H. subst B.
    apply (Z.pow_lt_mono_r_iff 2 d 1081); [reflexivity | easy | exact H]. }
  assert (HK : forall f, f <= 1028 -> 2 ^ f <= 2 * K).
  { intros f Hf. subst K. rewrite <- Z.pow_succ_r by easy.
    apply Z.pow_le_mono_r; [reflexivity | exact Hf]. }
  assert (HK0 : 0 < K) by (subst K; reflexivity).
  clear EB EK.
  destruct x as [sx | sx | | sx mx ex]; try discriminate;
    [cbn [ulps] in Hxy; lia|].
  cbn in Wx. pose proof (bounded_inv mx ex Wx) as (Hex & _ & _).
  pose proof (ulps_sign_pos mx ex ltac:(lia)) as Hpx.
  destruct sx; [rewrite ulps_finite in Hxy; cbn [cond_Zopp] in Hxy; lia|].
  destruct y as [sy | sy | | sy my ey]; try discriminate.
  - (* y = 0 *)
    cbn [Num.sub SFsub]. split; [exact Wx|]. split; [reflexivity|].
    cbn [ulps cond_Zopp]. replace (_ - _) with 0 by lia.
    change (Z.abs 0) with 0. lia.
  - cbn in Wy. pose proof (bounded_inv my ey Wy) as (Hey & _ & _).
    pose proof (ulps_sign_pos my ey ltac:(lia)) as Hpy.
    destruct sy; [rewrite ulps_finite in Hxy; cbn [cond_Zopp] in Hxy; lia|].
    rewrite !ulps_finite in *. cbn [cond_Zopp] in *.
    unfold Num.sub. cbn [SFsub cond_Zopp]. cbv zeta.
    set (ez := Z.min ex ey).
    destruct (shl_align_value mx ex ez ltac:(subst ez; lia)) as [Vx _].
    destruct (shl_align_value my ey ez ltac:(subst ez; lia)) as [Vy _].
    rewrite Vx, Vy.
    assert (Hez : -1074 <= ez) by (subst ez; lia).
    assert (HE : 0 < 2 ^ (ez + 1074)) by (apply pow2_pos; lia).
    assert (Ex : Zpos mx * 2 ^ (ex + 1074)
                 = Zpos mx * 2 ^ (ex - ez) * 2 ^ (ez + 1074)).
    { replace (ex + 1074) with ((ex - ez) + (ez + 1074)) by lia.
      rewrite (Z.pow_add_r 2 (ex - ez) (ez + 1074)) by (subst ez; lia). ring. }
    assert (Ey : Zpos my * 2 ^ (ey + 1074)
                 = Zpos my * 2 ^ (ey - ez) * 2 ^ (ez + 1074)).
    { replace (ey + 1074) with ((ey - ez) + (ez + 1074)) by lia.
      rewrite (Z.pow_add_r 2 (ey - ez) (ez + 1074)) by (subst ez; lia). ring. }
    set (N := Zpos mx * 2 ^ (ex - ez) - Zpos my * 2 ^ (ey - ez)).
    assert (EN : Zpos mx * 2 ^ (ex + 1074) - Zpos my * 2 ^ (ey + 1074)
                 = N * 2 ^ (ez + 1074)) by (rewrite Ex, Ey; subst N; ring).
    assert (HN : 0 < N) by nia.
    destruct N as [| n | n] eqn:EqN; try lia.
    cbn [binary_normalize].
    pose proof (digits2_pos_bounds n) as [Dlo Dhi].
    assert (Hd : Zpos (digits2_pos n) + ez <= 7).
    { assert (L : 2 ^ (Zpos (digits2_pos n) - 1 + (ez + 1074)) < B).
      { rewrite Z.pow_add_r by lia.
        eapply Z.le_lt_trans; [|exact Hx].
        set (E := 2 ^ (ez + 1074)) in *. clearbody E.
        set (D := 2 ^ (Zpos (digits2_pos n) - 1)) in *. clearbody D. nia. }
      apply HB in L; lia. }
    destruct (binary_round_near n ez Hez ltac:(lia)) as (m' & e' & Hr & Hb & Herr).
    rewrite Hr. split; [exact Hb|]. split; [reflexivity|].
    rewrite ulps_finite. cbn [cond_Zopp]. rewrite EN.
    pose proof (HK (Z.max (Zpos (digits2_pos n) + ez - 53) (-1074) + 1074)
                  ltac:(lia)) as Hpw.
    set (R := 2 ^ (Z.max (Zpos (digits2_pos n) + ez - 53) (-1074) + 1074)) in *.
    clearbody R. lia.
Qed.

Lemma same_double_eq (x y : Num.number) : same_double x y = true -> x = y.
Proof.
  destruct x as [s | s | | s m e], y as [s' | s' | | s' m' e'];
    cbn [same_double]; try discriminate; intros H.
  - apply Bool.eqb_prop in H. congruence.
  - apply Bool.eqb_prop in H. congruence.
  - reflexivity.
  - apply andb_prop in H as [H He]. apply andb_prop in H as [Hs Hm].
    apply Bool.eqb_prop in Hs. apply Pos.eqb_eq in Hm. apply Z.eqb_eq in He.
    congruence.
Qed.

Lemma cents_check_all : all_from cents_check 0 (Z.to_nat 10001) = true.
Proof. vm_compute. reflexivity. Qed.

Lemma units_check_all : all_from units_check 1 (Z.to_nat 100) = true.
Proof. vm_compute. reflexivity. Qed.

(** The double of an amount of up to 100.00 lies within 2^-47 of it. *)
Lemma of_cents_near (c : Z) :
  0 <= c <= 10000 ->
  0 <= ulps (Num.of_cents c) < 2 ^ 1081
  /\ Z.abs (100 * ulps (Num.of_cents c) - c * 2 ^ 1074) <= 100 * 2 ^ 1027.
Proof.
  intros Hc.
  pose proof (all_from_spec cents_check (Z.to_nat 10001) 0 cents_check_all c) as H.
  rewrite Z2Nat.id in H by lia. specialize (H ltac:(lia)).
  unfold cents_check in H.
  destruct (Num.of_cents c) as [s | s | | s m e]; try discriminate.
  - apply Z.eqb_eq in H. subst c. cbn [ulps]. split; [split; [lia | reflexivity]|].
    cbn. lia.
  - destruct s; [discriminate|].
    apply andb_prop in H as [H Herr]. apply andb_prop in H as [He Hlt].
    apply Z.leb_le in He, Herr. apply Z.ltb_lt in Hlt.
    rewrite ulps_finite. cbn [cond_Zopp].
    replace (e + 1074) with ((e + 59) + 1015) by lia.
    rewrite (Z.pow_add_r 2 (e + 59) 1015) by lia.
    rewrite (Z.mul_assoc (Zpos m) (2 ^ (e + 59)) (2 ^ 1015)).
    change (2 ^ 1081) with (2 ^ 66 * 2 ^ 1015).
    change (2 ^ 1074) with (2 ^ 59 * 2 ^ 1015).
    change (2 ^ 1027) with (2 ^ 12 * 2 ^ 1015).
    assert (HK : 0 < 2 ^ 1015) by reflexivity.
    assert (Hp : 0 < 2 ^ (e + 59)) by (apply pow2_pos; lia).
    set (K := 2 ^ 1015) in *. set (v := Zpos m * 2 ^ (e + 59)) in *.
    assert (Hv : 0 < v) by (subst v; lia).
    split; [nia|].
    replace (100 * (v * K) - c * (2 ^ 59 * K)) with ((100 * v - c * 2 ^ 59) * K)
      by ring.
    rewrite Z.abs_mul, (Z.abs_eq K) by lia.
    replace (100 * (2 ^ 12 * K)) with (100 * 2 ^ 12 * K) by ring.
    apply Z.mul_le_mono_nonneg_r; lia.
Qed.

Lemma finite_F2Q (x : Num.number) :
  Num.isFinite x = true -> exists q, Num.F2Q x = Some q.
Proof. destruct x; cbn; try discriminate; eauto. Qed.

(** From units of 2^-1074 to the value. *)
Lemma value_near (q : Q) (U D : Z) :
  (q * inject_Z (2 ^ 1074) == inject_Z U)%Q ->
  Z.abs (100 * U - D * 2 ^ 1074) <= 300 * 2 ^ 1027 ->
  (Qabs (q - inject_Z D / 100) <= deficit_slack)%Q.
Proof.
  intros Hq HU.
  assert (HS : (0 < 100 * inject_Z (2 ^ 1074))%Q) by reflexivity.
  apply (Qmult_le_r _ _ _ HS).
  rewrite <- (Qabs_pos (100 * inject_Z (2 ^ 1074))) at 1
    by (apply Qlt_le_weak; exact HS).
  rewrite <- Qabs_Qmult.
  setoid_replace ((q - inject_Z D / 100) * (100 * inject_Z (2 ^ 1074)))%Q
    with (100 * (q * inject_Z (2 ^ 1074)) - inject_Z D * inject_Z (2 ^ 1074))%Q
    using relation Qeq by field.
  rewrite Hq.
  change 100%Q with (inject_Z 100).
  rewrite <- !inject_Z_mult. unfold Qminus. rewrite <- inject_Z_opp, <- inject_Z_plus.
  change (Qabs (inject_Z (100 * U + - (D * 2 ^ 1074))))
    with (inject_Z (Z.abs (100 * U + - (D * 2 ^ 1074)))).
  setoid_replace (deficit_slack * inject_Z (100 * 2 ^ 1074))%Q
    with (inject_Z (300 * 2 ^ 1027)) using relation Qeq by reflexivity.
  rewrite <- Zle_Qle. exact HU.
Qed.

(** ** The reported deficit *)

(** The difference of the doubles of two amounts of up to 100.00, the
    larger first, lies within 3 * 2^-47 of the difference of the
    amounts. *)
Lemma sub_of_cents_near (b r : Z) :
  0 <= b < r -> r <= 10000 ->
  exists q,
    Num.F2Q (Num.sub (Num.of_cents r) (Num.of_cents b)) = Some q
    /\ (Qabs (q - inject_Z (r - b) / 100) <= deficit_slack)%Q.
Proof.
  intros Hb Hr.
  assert (Hb' : 0 <= b <= 10000) by lia.
  assert (Hr' : 0 <= r <= 10000) by lia.
  destruct (of_cents_regular b Hb') as [Wb Fb].
  destruct (of_cents_regular r Hr') as [Wr Fr].
  pose proof (of_cents_ascending b r Hb Hr) as Hlt.
  apply (lt_ulps _ _ Wb Wr Fb Fr) in Hlt.
  destruct (of_cents_near b Hb') as [Bb Nb].
  destruct (of_cents_near r Hr') as [Br Nr].
  destruct (sub_near (Num.of_cents r) (Num.of_cents b) Wr Wb Fr Fb
              (conj (proj1 Bb) Hlt) (proj2 Br)) as (Wd & Fd & Nd).
  destruct (finite_F2Q _ Fd) as [q Hq]. exists q. split; [exact Hq|].
  apply (value_near q _ (r - b) (F2Q_ulps _ q Wd Hq)).
  clear Bb Br Hq.
  remember (2 ^ 1027) as K eqn:EK. remember (2 ^ 1074) as T eqn:ET.
  clear EK ET. lia.
Qed.

Lemma whole_amounts_exact (a b : Z) :
  0 <= b < a -> a <= 100 ->
  Num.sub (Num.of_cents (100 * a)) (Num.of_cents (100 * b))
  = Num.of_cents (100 * (a - b)).
Proof.
  intros Hb Ha.
  pose proof (all_from_spec units_check (Z.to_nat 100) 1 units_check_all a) as H.
  rewrite Z2Nat.id in H by lia. specialize (H ltac:(lia)).
  unfold units_check in H.
  pose proof (all_from_spec _ (Z.to_nat a) 0 H b) as H'.
  rewrite Z2Nat.id in H' by lia.
  apply same_double_eq, H'. lia.
Qed.




(** The reported deficit is a difference of doubles: for 0.30 against
    0.10 it is 0.19999999999999998, the double just below 0.20. *)
Example deficit_of_0_30_against_0_10 :
  Num.sub (Num.of_cents 30) (Num.of_cents 10)
  = S754_finite false 7205759403792793 (-55)
  /\ Num.of_cents 20 = S754_finite false 7205759403792794 (-55).
Proof. split; reflexivity. Qed.

(* ===================================================================== *)
(** * POST /api/user/tokens/reset *)
(* ===================================================================== *)

Lemma findUniqueUser_update (d : Database) (id : string) (u : User) (n t : Z) :
  db_online d = true ->
  findUniqueUser (updateUserTokens d id u n t).1 id
  = Some (Some (updateUserTokens d id u n t).2).
Proof.
  intros H. unfold findUniqueUser, updateUserTokens. cbn. rewrite H.
  rewrite lookup_insert_eq. reflexivity.
Qed.

Lemma findUniqueUser_online (d : Database) (id : string) (r : option User) :
  findUniqueUser d id = Some r -> db_online d = true.
Proof.
  unfold findUniqueUser. destruct (db_online d); [reflexivity | discriminate].
Qed.

(** Once the stored reset time is at or after today's midnight the
    handler leaves the world alone. *)
Lemma resetTokens_refused (now : Z) (u : AuthUser) (user : User) (w : World) :
  findUniqueUser (db w) (au_id u) = Some (Some user) ->
  JSDate.ge (JSDate.TimeClip (lastTokenReset user))
            (getMidnightUTC (JSDate.TimeClip now)) = true ->
  (resetTokens now (Some u) w).2 = w.
Proof.
  intros Hu Hge. unfold resetTokens. rewrite Hu.
  change (JSDate.setUTCHours0 (JSDate.copy (JSDate.TimeClip now)))
    with (getMidnightUTC (JSDate.TimeClip now)).
  rewrite Hge. destruct (getNextTokenReset now); reflexivity.
Qed.

Lemma resetTokens_refused_answer (now : Z) (u : AuthUser) (user : User) (w : World) :
  validTime now -> validTime (now + JSDate.msPerDay) ->
  findUniqueUser (db w) (au_id u) = Some (Some user) ->
  JSDate.ge (JSDate.TimeClip (lastTokenReset user))
            (getMidnightUTC (JSDate.TimeClip now)) = true ->
  (resetTokens now (Some u) w).1
  = fail 400 TOKENS_ALREADY_RESET
      (ResetRefused (tokensRemaining user) (lastTokenReset user)
         (JSDate.Day now * JSDate.msPerDay + JSDate.msPerDay)).
Proof.
  intros Hv Hv' Hu Hge. unfold resetTokens. rewrite Hu.
  change (JSDate.setUTCHours0 (JSDate.copy (JSDate.TimeClip now)))
    with (getMidnightUTC (JSDate.TimeClip now)).
  rewrite Hge, (getNextTokenReset_valid now Hv Hv'). reflexivity.
Qed.

Lemma resetTokens_performed (now : Z) (u : AuthUser) (user : User) (w : World) :
  validTime now ->
  findUniqueUser (db w) (au_id u) = Some (Some user) ->
  JSDate.ge (JSDate.TimeClip (lastTokenReset user))
            (getMidnightUTC (JSDate.TimeClip now)) = false ->
  findUniqueUser (db (resetTokens now (Some u) w).2) (au_id u)
  = Some (Some (updateUserTokens (db w) (au_id u) user DAILY_TOKEN_COUNT now).2).
Proof.
  intros Hv Hu Hge. unfold resetTokens. rewrite Hu.
  change (JSDate.setUTCHours0 (JSDate.copy (JSDate.TimeClip now)))
    with (getMidnightUTC (JSDate.TimeClip now)).
  rewrite Hge, (TimeClip_valid now Hv).
  pose proof (findUniqueUser_update (db w) (au_id u) user DAILY_TOKEN_COUNT now
                (findUniqueUser_online _ _ _ Hu)) as Hf.
  destruct (updateUserTokens _ _ _ _ _) as [d' user'] eqn:E. cbn in Hf.
  destruct (getNextTokenReset now); cbn; exact Hf.
Qed.

(** C8: [POST /api/user/tokens/reset] is idempotent.  If the tokens were
    already reset today ([lastTokenReset] at or after today's UTC
    midnight) the call changes nothing; otherwise it stores the daily cap
    of 3 (and the time of the call as [lastTokenReset]); and whatever the
    first call did, a second call on the same UTC day changes nothing. *)
Theorem resetTokens_idempotent (now now' : Z) (u : AuthUser) (w : World) :
  getMidnightUTC (JSDate.TimeClip now') = getMidnightUTC (JSDate.TimeClip now) ->
  (forall user,
      findUniqueUser (db w) (au_id u) = Some (Some user) ->
      JSDate.ge (JSDate.TimeClip (lastTokenReset user))
                (getMidnightUTC (JSDate.TimeClip now)) = true ->
      (resetTokens now (Some u) w).2 = w)
  /\ (forall user,
      validTime now ->
      findUniqueUser (db w) (au_id u) = Some (Some user) ->
      JSDate.ge (JSDate.TimeClip (lastTokenReset user))
                (getMidnightUTC (JSDate.TimeClip now)) = false ->
      exists user',
        users (db (resetTokens now (Some u) w).2) !! au_id u = Some user'
        /\ tokensRemaining user' = DAILY_TOKEN_COUNT
        /\ lastTokenReset user' = now)
  /\ (resetTokens now' (Some u) (resetTokens now (Some u) w).2).2
     = (resetTokens now (Some u) w).2.
Proof.
  intros Hday. set (w1 := (resetTokens now (Some u) w).2). split; [|split].
  - intros user Hu Hge. apply (resetTokens_refused now u user w Hu Hge).
  - intros user Hv Hu Hge.
    pose proof (resetTokens_performed now u user w Hv Hu Hge) as Hf.
    fold w1 in Hf. unfold findUniqueUser in Hf.
    destruct (db_online (db w1)); [|discriminate].
    injection Hf as Hf. eexists. split; [exact Hf|]. split; reflexivity.
  - destruct (findUniqueUser (db w) (au_id u)) as [[user|]|] eqn:Hu.
    + destruct (JSDate.ge (JSDate.TimeClip (lastTokenReset user))
                  (getMidnightUTC (JSDate.TimeClip now))) eqn:Hge.
      * assert (E : w1 = w) by apply (resetTokens_refused now u user w Hu Hge).
        rewrite E. apply (resetTokens_refused now' u user w Hu).
        rewrite Hday. exact Hge.
      * destruct (JSDate.TimeClip now) as [t|] eqn:Hclip.
        -- apply TimeClip_Some in Hclip as Hclip'. destruct Hclip' as [-> Hv].
           rewrite <- Hclip in Hge.
           pose proof (resetTokens_performed now u user w Hv Hu Hge) as Hf.
           fold w1 in Hf.
           apply (resetTokens_refused now' u _ w1 Hf).
           rewrite Hday. cbn [updateUserTokens snd lastTokenReset].
           rewrite Hclip.
           change (JSDate.ge (Some now) (getMidnightUTC (Some now)))
             with (JSDate.le (getMidnightUTC (Some now)) (Some now)).
           apply getMidnightUTC_le, Hv.
        -- (* the clock is out of range: both calls throw *)
           assert (E : w1 = w).
           { subst w1. unfold resetTokens. rewrite Hu, Hclip. cbn. reflexivity. }
           rewrite E.
           assert (Hclip' : JSDate.TimeClip now' = None).
           { destruct (JSDate.TimeClip now') as [t'|] eqn:E'; [|reflexivity].
             exfalso. apply TimeClip_Some in E' as [-> Hv'].
             rewrite (getMidnightUTC_valid now' Hv') in Hday. cbn in Hday.
             discriminate. }
           unfold resetTokens. rewrite Hu, Hclip'. cbn. reflexivity.
    + assert (E : w1 = w) by (subst w1; unfold resetTokens; rewrite Hu; reflexivity).
      rewrite E. unfold resetTokens. rewrite Hu. reflexivity.
    + assert (E : w1 = w) by (subst w1; unfold resetTokens; rewrite Hu; reflexivity).
      rewrite E. unfold resetTokens. rewrite Hu. reflexivity.
Qed.

(** Alice, last reset on 3 November, resets at 00:00:01 on 4 November and
    again four seconds later. *)
Lemma resetTokens_idempotent_witness :
  getMidnightUTC (JSDate.TimeClip (day0 + 5000))
  = getMidnightUTC (JSDate.TimeClip (day0 + 1000))
  /\ tokensRemaining
       <$> (users (db (resetTokens (day0 + 1000) (Some alice) stale_world).2)
              !! "alice") = Some 3
  /\ (resetTokens (day0 + 5000) (Some alice)
        (resetTokens (day0 + 1000) (Some alice) stale_world).2).2
     = (resetTokens (day0 + 1000) (Some alice) stale_world).2.
Proof.
  split; [reflexivity|]. split; [vm_compute; reflexivity|].
  exact (proj2 (proj2 (resetTokens_idempotent (day0 + 1000) (day0 + 5000)
                         alice stale_world eq_refl))).
Defined.

(* ===================================================================== *)
(** * The payment split *)
(* ===================================================================== *)

(** The whole number [toFixed] picks: none is nearer, and of two equally
    near ones it is the larger. *)
Lemma nearest_larger_on_ties (y : Q) (k : Z) :
  let n := Qfloor (y + (1 # 2)) in
  (Qabs (inject_Z n - y) <= Qabs (inject_Z k - y))%Q
  /\ ((Qabs (inject_Z k - y) == Qabs (inject_Z n - y))%Q -> k <= n).
Proof.
  intros n.
  pose proof (Qfloor_le (y + (1 # 2))) as Hlo.
  pose proof (Qlt_floor (y + (1 # 2))) as Hhi.
  fold n in Hlo, Hhi. rewrite inject_Z_plus in Hhi.
  change (inject_Z 1) with 1%Q in Hhi.
  assert (Hn : (Qabs (inject_Z n - y) <= 1 # 2)%Q).
  { apply Qabs_Qle_condition. split; lra. }
  destruct (Z_lt_le_dec n k) as [Hgt | Hle].
  - (* above n: strictly farther *)
    assert (Hk : (inject_Z n + 1 <= inject_Z k)%Q).
    { change 1%Q with (inject_Z 1). rewrite <- inject_Z_plus, <- Zle_Qle. lia. }
    assert (Hfar : (1 # 2 < Qabs (inject_Z k - y))%Q).
    { apply Qabs_gt. lra. }
    split; [lra|]. intros E. rewrite E in Hfar. lra.
  - split; [|intros _; exact Hle].
    destruct (Z.eq_dec k n) as [-> | Hne]; [apply Qle_refl|].
    assert (Hk : (inject_Z k <= inject_Z (n - 1))%Q)
      by (rewrite <- Zle_Qle; lia).
    assert (E : (inject_Z (n - 1) == inject_Z n - 1)%Q)
      by (unfold Z.sub; rewrite inject_Z_plus; reflexivity).
    assert (Hfar : (1 # 2 <= Qabs (inject_Z k - y))%Q).
    { rewrite <- Qabs_opp. apply Qabs_ge. lra. }
    lra.
Qed.

(** [toFixed2] shows the whole number of cents nearest to the value, the
    larger one on a tie. *)
Lemma toFixed2_nearest (x : Num.number) (q : Q) (negative : bool) (n k : Z) :
  Num.F2Q x = Some q -> toFixed2 x = Decimal2 negative n ->
  (Qabs (inject_Z n - Qabs q * 100) <= Qabs (inject_Z k - Qabs q * 100))%Q
  /\ ((Qabs (inject_Z k - Qabs q * 100) == Qabs (inject_Z n - Qabs q * 100))%Q
      -> k <= n).
Proof.
  intros F. unfold toFixed2. rewrite F.
  destruct (Qle_bool _ _); [discriminate|].
  intros E.
  assert (En : Qfloor (Qabs q * 100 + (1 # 2)) = n) by congruence.
  rewrite <- En. exact (nearest_larger_on_ties (Qabs q * 100) k).
Qed.

(** A string of positive whole cents is read back as that amount. *)
Lemma Number_of_cents (n : Z) :
  0 < n -> Number_of (Decimal2 false n) = Num.of_cents n.
Proof.
  intros H. unfold Number_of. destruct (Z.eqb_spec n 0); [lia | reflexivity].
Qed.

(** Every pool from 1.00 to 100.00, cent by cent. *)
Lemma split_check_all : all_from split_check 100 (Z.to_nat 9901) = true.
Proof. vm_compute. reflexivity. Qed.

(** C1 (amended): for every pool of [c] cents from 1.00 to 100.00,
    [calculatePaymentSplit] returns 25% for the developer, 25% for the
    creator and 50% for the winner, each rounded on its own to whole
    cents; the developer and creator shares are equal, and the three
    parts sum to the pool, one cent more or one cent less (exactly to the
    pool when [c] is a multiple of 4).  No share absorbs the rounding
    remainder. *)
Theorem calculatePaymentSplit_rounds_each_share (c : Z) :
  100 <= c <= 10000 ->
  exists d w : Z,
    calculatePaymentSplit (Num.of_cents c)
    = {| developer := Num.of_cents d; creator := Num.of_cents d;
         winner := Num.of_cents w |}
    /\ Z.abs (4 * d - c) <= 2
    /\ Z.abs (2 * w - c) <= 1
    /\ Z.abs (d + d + w - c) <= 1
    /\ (c mod 4 = 0 -> d + d + w = c).
Proof.
  intros Hc.
  pose proof (all_from_spec split_check (Z.to_nat 9901) 100 split_check_all c)
    as H.
  rewrite Z2Nat.id in H by lia. specialize (H ltac:(lia)).
  unfold split_check in H. cbv zeta in H.
  destruct (toFixed2 (Num.mul (Num.of_cents c) Num.lit_0_25))
    as [[] d |] eqn:Ed; try discriminate.
  destruct (toFixed2 (Num.mul (Num.of_cents c) Num.lit_0_50))
    as [[] w |] eqn:Ew; try discriminate.
  repeat (apply andb_prop in H as [H ?]).
  repeat match goal with
         | E : (_ <=? _) = true |- _ => apply Z.leb_le in E
         | E : (_ <? _) = true |- _ => apply Z.ltb_lt in E
         end.
  exists d, w. split.
  - unfold calculatePaymentSplit. cbv zeta. rewrite Ed, Ew.
    rewrite !Number_of_cents by assumption. reflexivity.
  - repeat split; try lia.
    intros Hm. apply Z.mod_divide in Hm; [|lia]. destruct Hm as [k ->]. lia.
Qed.

(** The pool of 10.50. *)
Lemma calculatePaymentSplit_rounds_each_share_witness :
  100 <= 1050 <= 10000 /\
  exists d w : Z,
    calculatePaymentSplit (Num.of_cents 1050)
    = {| developer := Num.of_cents d; creator := Num.of_cents d;
         winner := Num.of_cents w |}
    /\ Z.abs (4 * d - 1050) <= 2
    /\ Z.abs (2 * w - 1050) <= 1
    /\ Z.abs (d + d + w - 1050) <= 1
    /\ (1050 mod 4 = 0 -> d + d + w = 1050).
Proof.
  split; [lia | apply (calculatePaymentSplit_rounds_each_share 1050); lia].
Defined.

(** C1, as stated, fails: 10.50 is a valid entry fee and splits into
    2.63 + 2.63 + 5.25, which is 10.51; the winner's 5.25 is its own
    rounded half, not what the other two leave of the pool. *)
Lemma split_of_10_50_sums_to_10_51 :
  validateEntryFee (Num.of_cents 1050) = true
  /\ calculatePaymentSplit (Num.of_cents 1050)
     = {| developer := Num.of_cents 263; creator := Num.of_cents 263;
          winner := Num.of_cents 525 |}
  /\ Num.add (Num.add (Num.of_cents 263) (Num.of_cents 263)) (Num.of_cents 525)
     = Num.of_cents 1051
  /\ Num.of_cents 1051 <> Num.of_cents 1050
  /\ 263 + 263 + 525 <> 1050.
Proof.
  split; [reflexivity|]. split; [vm_compute; reflexivity|].
  split; [vm_compute; reflexivity|]. split; [vm_compute; discriminate | lia].
Qed.

(* ===================================================================== *)
(** * The session life cycle *)
(* ===================================================================== *)

Lemma writes_chain (op : Lifecycle.Op) (s : SessionStatus) (l : list SessionStatus) :
  Lifecycle.writes op s = Some l -> Lifecycle.chain s l = true.
Proof.
  destruct op as [| [] | | | | | |], s; cbn; intros H; try discriminate;
    injection H as <-; reflexivity.
Qed.

Lemma last_cons (a s : SessionStatus) (l : list SessionStatus) :
  List.last (a :: l) s = List.last l a.
Proof.
  revert a s. induction l as [| b l IH]; intros a s; [reflexivity|].
  change (List.last (a :: b :: l) s) with (List.last (b :: l) s).
  rewrite !(IH b). reflexivity.
Qed.

Lemma chain_app (s : SessionStatus) (l1 l2 : list SessionStatus) :
  Lifecycle.chain s l1 = true ->
  Lifecycle.chain (List.last l1 s) l2 = true ->
  Lifecycle.chain s (l1 ++ l2) = true.
Proof.
  revert s. induction l1 as [| a l1 IH]; intros s H1 H2; [exact H2|].
  cbn [Lifecycle.chain app] in *. apply andb_prop in H1 as [Ha Hr].
  rewrite Ha. cbn [andb]. apply IH; [exact Hr|].
  rewrite <- (last_cons a s l1). exact H2.
Qed.

Lemma history_chain (ops : list Lifecycle.Op) :
  forall s, Lifecycle.chain s (Lifecycle.history ops s) = true.
Proof.
  induction ops as [| op ops IH]; intros s; [reflexivity|].
  cbn [Lifecycle.history]. unfold Lifecycle.after.
  destruct (Lifecycle.writes op s) as [l|] eqn:E; cbn [default].
  - apply chain_app; [apply (writes_chain op s l E) | apply IH].
  - apply IH.
Qed.

Lemma history_terminal (ops : list Lifecycle.Op) (s : SessionStatus) :
  Lifecycle.terminal s = true -> Lifecycle.history ops s = [].
Proof.
  intros T. induction ops as [| op ops IH]; [reflexivity|].
  cbn [Lifecycle.history]. unfold Lifecycle.after.
  assert (E : Lifecycle.writes op s = None)
    by (destruct op as [| [] | | | | | |], s; cbn in *; congruence).
  rewrite E. cbn. exact IH.
Qed.

(** A full life: created, started, raced, completed. *)
Example history_of_a_completed_session :
  Lifecycle.history
    [Lifecycle.Join; Lifecycle.Start true; Lifecycle.Countdown;
     Lifecycle.RecordInput; Lifecycle.Complete; Lifecycle.Cancel]
    Lifecycle.initial
  = [STARTING; ACTIVE; COMPLETED].
Proof. reflexivity. Qed.

(** C3: whatever operations are run on a session, in whatever status,
    every status change they make is one of WAITING -> STARTING,
    STARTING -> ACTIVE, ACTIVE -> COMPLETED, or a change to CANCELLED from
    WAITING, STARTING or ACTIVE; from COMPLETED and from CANCELLED nothing
    changes the status any more. *)
Theorem only_legal_transitions (ops : list Lifecycle.Op) (s : SessionStatus) :
  Lifecycle.chain s (Lifecycle.history ops s) = true
  /\ Lifecycle.history ops COMPLETED = []
  /\ Lifecycle.history ops CANCELLED = []
  /\ (forall a b,
        Lifecycle.legal a b = true <->
        In (a, b) [(WAITING, STARTING); (STARTING, ACTIVE); (ACTIVE, COMPLETED);
                   (WAITING, CANCELLED); (STARTING, CANCELLED);
                   (ACTIVE, CANCELLED)]).
Proof.
  split; [apply history_chain|].
  split; [apply history_terminal; reflexivity|].
  split; [apply history_terminal; reflexivity|].
  intros a b. split.
  - destruct a, b; cbn; intros H; try discriminate; tauto.
  - cbn. intros H.
    repeat (destruct H as [H | H]; [injection H as <- <-; reflexivity|]).
    destruct H.
Qed.

(* ===================================================================== *)
(** * Settlement *)
(* ===================================================================== *)

(** The three shares of the modelled split add up to the pool. *)
Lemma splitOf_sums (pool : Z) :
  let '(d, c, p) := Settlement.splitOf pool in d + c + p = pool.
Proof. unfold Settlement.splitOf. lia. Qed.

Lemma splitsOf_app (sid : string) (a b : list Transaction) :
  Settlement.splitsOf sid (a ++ b)
  = Settlement.splitsOf sid a ++ Settlement.splitsOf sid b.
Proof. unfold Settlement.splitsOf. apply List.filter_app. Qed.

(** A successful [settle] either found the flag and did nothing, or set
    the flag and appended the three split transactions. *)
Lemma settle_inv (sid : string) (l l' : Settlement.Ledger) :
  Settlement.settle sid l = inr l' ->
  (sid ∈ Settlement.settled l /\ l' = l)
  \/ ((sid ∉ Settlement.settled l)
      /\ (Settlement.settled l' = {[sid]} ∪ Settlement.settled l)
      /\ exists d c p cr w,
           transactions (Settlement.store l')
           = transactions (Settlement.store l)
             ++ [Settlement.credit Settlement.developerAccount sid d DEVELOPER_SPLIT;
                 Settlement.credit cr sid c CREATOR_SPLIT;
                 Settlement.credit w sid p PRIZE_PAYOUT]).
Proof.
  unfold Settlement.settle. case_bool_decide as Hin.
  - intros H. injection H as <-. left. auto.
  - destruct (sessions (Settlement.store l) !! sid) as [s|]; [|discriminate].
    case_bool_decide as Hc; [|discriminate].
    destruct (Settlement.winnerOf sid _) as [w|]; [|discriminate].
    destruct (Settlement.splitOf _) as [[d c] p].
    intros H. injection H as <-. right. cbn. split; [exact Hin|].
    split; [reflexivity|]. eauto 8.
Qed.

Lemma settle_consistent (sid : string) (l l' : Settlement.Ledger) :
  consistent l -> Settlement.settle sid l = inr l' -> consistent l'.
Proof.
  intros C H.
  apply settle_inv in H as [[_ ->] | (Hnot & Hs & d & c & p & cr & w & Ht)];
    [exact C|].
  intros sid'. unfold splitTypes. rewrite Ht, splitsOf_app, List.map_app.
  fold (splitTypes sid' l). rewrite (C sid'), Hs.
  destruct (decide (sid' = sid)) as [-> | Hne].
  - rewrite (bool_decide_eq_false_2 _ Hnot).
    rewrite bool_decide_eq_true_2
      by (apply elem_of_union_l, elem_of_singleton; reflexivity).
    unfold Settlement.splitsOf. cbn.
    rewrite !bool_decide_eq_true_2 by reflexivity.
    reflexivity.
  - assert (E : Settlement.splitsOf sid'
                  [Settlement.credit Settlement.developerAccount sid d DEVELOPER_SPLIT;
                   Settlement.credit cr sid c CREATOR_SPLIT;
                   Settlement.credit w sid p PRIZE_PAYOUT] = []).
    { unfold Settlement.splitsOf. cbn.
      rewrite !bool_decide_eq_false_2 by congruence. reflexivity. }
    rewrite E, app_nil_r.
    destruct (decide (sid' ∈ Settlement.settled l)) as [Hin | Hout].
    + rewrite (bool_decide_eq_true_2 _ Hin).
      rewrite bool_decide_eq_true_2 by (apply elem_of_union_r, Hin).
      reflexivity.
    + rewrite (bool_decide_eq_false_2 _ Hout).
      rewrite bool_decide_eq_false_2; [reflexivity|].
      intros [Hx | Hx]%elem_of_union;
        [apply elem_of_singleton in Hx; contradiction | contradiction].
Qed.

Lemma perform_consistent (e : Settlement.Event) (l : Settlement.Ledger) :
  consistent l -> consistent (Settlement.perform e l).
Proof.
  intros C. destruct e as [t | sid s | p | sid]; cbn [Settlement.perform].
  - destruct (Settlement.isSplit (transactionType t)) eqn:E; [exact C|].
    intros sid. unfold splitTypes.
    cbn [Settlement.store Settlement.appendTransactions transactions
         Settlement.settled].
    rewrite splitsOf_app.
    assert (E' : Settlement.splitsOf sid [t] = [])
      by (unfold Settlement.splitsOf; cbn; rewrite E; reflexivity).
    rewrite E', app_nil_r. apply C.
  - exact C.
  - exact C.
  - destruct (Settlement.settle sid l) as [err | l'] eqn:E; [exact C|].
    apply (settle_consistent sid l l' C E).
Qed.

Lemma run_consistent (es : list Settlement.Event) (l : Settlement.Ledger) :
  consistent l -> consistent (Settlement.run es l).
Proof.
  revert l. induction es as [| e es IH]; intros l C; [exact C|].
  cbn. apply IH, perform_consistent, C.
Qed.

Lemma genesis_consistent : consistent Settlement.genesis.
Proof. intros sid. reflexivity. Qed.

Lemma perform_settled_mono (e : Settlement.Event) (l : Settlement.Ledger)
    (sid : string) :
  sid ∈ Settlement.settled l -> sid ∈ Settlement.settled (Settlement.perform e l).
Proof.
  intros H. destruct e as [t | sid' s | p | sid']; cbn [Settlement.perform].
  - destruct (Settlement.isSplit _); exact H.
  - exact H.
  - exact H.
  - destruct (Settlement.settle sid' l) as [err | l'] eqn:E; [exact H|].
    apply settle_inv in E as [[_ ->] | (_ & -> & _)];
      [exact H | apply elem_of_union_r, H].
Qed.

Lemma run_settled_mono (es : list Settlement.Event) (l : Settlement.Ledger)
    (sid : string) :
  sid ∈ Settlement.settled l -> sid ∈ Settlement.settled (Settlement.run es l).
Proof.
  revert l. induction es as [| e es IH]; intros l H; [exact H|].
  cbn. apply IH, perform_settled_mono, H.
Qed.

(** C2: settlement of a session happens at most once.  After the first
    successful [settle(s)], a repeated [settle(s)] returns the ledger
    unchanged, and whatever happens next (further [settle(s)] calls
    included) the session has exactly one developer split, one creator
    split and one prize payout: three transactions, never six. *)
Theorem settle_at_most_once
    (es : list Settlement.Event) (sid : string) (l' : Settlement.Ledger) :
  Settlement.settle sid (Settlement.run es Settlement.genesis) = inr l' ->
  Settlement.settle sid l' = inr l'
  /\ forall es', splitTypes sid (Settlement.run es' l') = oneSet.
Proof.
  intros H.
  pose proof (run_consistent es _ genesis_consistent) as C.
  pose proof (settle_consistent sid _ l' C H) as C'.
  assert (Hin : sid ∈ Settlement.settled l').
  { apply settle_inv in H as [[Hin ->] | (_ & -> & _)];
      [exact Hin | apply elem_of_union_l, elem_of_singleton; reflexivity]. }
  split.
  - unfold Settlement.settle. rewrite bool_decide_eq_true_2 by exact Hin.
    reflexivity.
  - intros es'. rewrite (run_consistent es' l' C' sid).
    rewrite bool_decide_eq_true_2 by (apply run_settled_mono, Hin).
    reflexivity.
Qed.

(** Two players at 10.00 each, the session completed, settled once. *)
Lemma settle_at_most_once_witness :
  Settlement.settle "s1" (Settlement.run demoEvents Settlement.genesis)
  = inr demoSettled
  /\ Settlement.settle "s1" demoSettled = inr demoSettled
  /\ forall es', splitTypes "s1" (Settlement.run es' demoSettled) = oneSet.
Proof.
  assert (H : Settlement.settle "s1"
                (Settlement.run demoEvents Settlement.genesis)
              = inr demoSettled)
    by (vm_compute; reflexivity).
  split; [exact H | exact (settle_at_most_once demoEvents "s1" demoSettled H)].
Defined.

(* ===================================================================== *)
(** * The validators and the route schemas *)
(* ===================================================================== *)

Lemma SFcompare_antisym (x y : Num.number) :
  SFcompare y x = option_map CompOpp (SFcompare x y).
Proof.
  destruct x as [sx | sx | | sx mx ex], y as [sy | sy | | sy my ey];
    cbn; try reflexivity;
    try (destruct sx; reflexivity); try (destruct sy; reflexivity);
    try (destruct sx, sy; reflexivity).
  destruct sx, sy; try reflexivity;
    rewrite (Z.compare_antisym ey ex);
    destruct (ey ?= ex) eqn:E; cbn; try reflexivity;
    rewrite (Pos.compare_cont_antisym mx my Eq); cbn;
    try rewrite CompOpp_involutive; reflexivity.
Qed.

Lemma SFcompare_numbers (x y : Num.number) :
  Num.isNaN x = false -> Num.isNaN y = false ->
  exists c, SFcompare x y = Some c.
Proof.
  destruct x, y; cbn; intros; try discriminate; eexists; reflexivity.
Qed.

(** Not below a bound that is a number: at or above it. *)
Lemma not_lt_ge (x L : Num.number) :
  Num.isNaN L = false ->
  negb (Num.isNaN x) && negb (Num.lt x L) = Num.ge x L.
Proof.
  intros HL. unfold Num.lt, Num.ge, SFltb, SFleb.
  rewrite (SFcompare_antisym x L).
  destruct (Num.isNaN x) eqn:Hx.
  - destruct x; try discriminate. reflexivity.
  - destruct (SFcompare_numbers x L Hx HL) as (c & ->).
    destruct c; reflexivity.
Qed.

Lemma not_gt_le (x H : Num.number) :
  Num.isNaN H = false ->
  negb (Num.isNaN x) && negb (Num.gt x H) = Num.le x H.
Proof.
  intros HH. unfold Num.gt, Num.le, SFltb, SFleb.
  rewrite (SFcompare_antisym x H).
  destruct (Num.isNaN x) eqn:Hx.
  - destruct x; try discriminate. reflexivity.
  - destruct (SFcompare_numbers x H Hx HH) as (c & ->).
    destruct c; reflexivity.
Qed.

Lemma z_number_min_max_bounds (L H x : Num.number) :
  Num.isNaN L = false -> Num.isNaN H = false ->
  z_number_min_max L H (JNum x) = Num.ge x L && Num.le x H.
Proof.
  intros HL HH. cbn [z_number_min_max].
  rewrite <- (not_lt_ge x L HL), <- (not_gt_le x H HH).
  destruct (Num.isNaN x), (Num.lt x L), (Num.gt x H); reflexivity.
Qed.

(** X3: the schema of [POST /api/sessions/create] and the shared
    validators apply the same bounds.  On every number the schema's
    [entryFee] rule decides as [validateEntryFee]; its [maxPlayers] rule
    is [validateSessionSize] without the integer test, so the route
    accepts the fractional player counts between 1 and 8 that the
    validator rejects. *)
Theorem createSessionSchema_matches_validators (x : Num.number) :
  z_number_min_max Num.lit_1 Num.lit_100 (JNum x) = validateEntryFee x
  /\ validateSessionSize x
     = z_number_min_max Num.lit_1 Num.lit_8 (JNum x) && Num.isInteger x.
Proof.
  split.
  - rewrite z_number_min_max_bounds by reflexivity. unfold validateEntryFee.
    destruct (Num.isFinite x) eqn:F; [rewrite andb_true_r; reflexivity|].
    rewrite andb_false_r.
    destruct x as [sx | sx | | sx mx ex]; try discriminate;
      [destruct sx|]; reflexivity.
  - rewrite z_number_min_max_bounds by reflexivity. reflexivity.
Qed.

(* ===================================================================== *)
(** * The credit gate, both ways *)
(* ===================================================================== *)

(** Up to 100.00, the doubles of two cent amounts compare as the
    amounts. *)
Lemma of_cents_lt (b r : Z) :
  0 <= b <= 10000 -> 0 <= r <= 10000 ->
  Num.lt (Num.of_cents b) (Num.of_cents r) = (b <? r).
Proof.
  intros Hb Hr. destruct (Z.ltb_spec b r) as [Hlt | Hge].
  - apply of_cents_ascending; lia.
  - apply not_true_is_false. intros C.
    destruct (of_cents_regular b Hb) as [Wb Fb].
    destruct (of_cents_regular r Hr) as [Wr Fr].
    apply (lt_ulps _ _ Wb Wr Fb Fr) in C.
    destruct (Z.eq_dec r b) as [-> | Hne]; [lia|].
    pose proof (of_cents_ascending r b ltac:(lia) ltac:(lia)) as D.
    apply (lt_ulps _ _ Wr Wb Fr Fb) in D. lia.
Qed.

(** X5: for a stored user and amounts of whole cents up to 100.00,
    [requireCredits(required)] hands the request on exactly when the
    balance is at least [required]; either way it leaves the store and
    the cache as they were (the balance is not charged). *)
Theorem requireCredits_admits_sufficient_balance
    (required : Z) (u : AuthUser) (user : User) (w : World) :
  findUniqueUser (db w) (au_id u) = Some (Some user) ->
  0 <= creditsBalance user <= 10000 -> 0 <= required <= 10000 ->
  isNext (requireCredits (Num.of_cents required) (Some u) w).1
  = (required <=? creditsBalance user)
  /\ (requireCredits (Num.of_cents required) (Some u) w).2 = w.
Proof.
  intros Hu Hb Hr. unfold requireCredits. rewrite Hu. cbv zeta.
  rewrite (of_cents_lt _ _ Hb Hr).
  destruct (Z.ltb_spec (creditsBalance user) required);
    destruct (Z.leb_spec required (creditsBalance user)); try lia;
    split; reflexivity.
Qed.

Lemma requireCredits_admits_sufficient_balance_witness :
  isNext (requireCredits (Num.of_cents 500) (Some alice) poor_world).1 = true
  /\ isNext (requireCredits (Num.of_cents 501) (Some alice) poor_world).1 = false.
Proof.
  split.
  - apply (proj1 (requireCredits_admits_sufficient_balance 500 alice
                    (alice_row 3 day0 500) poor_world eq_refl
                    ltac:(simpl; lia) ltac:(lia))).
  - apply (proj1 (requireCredits_admits_sufficient_balance 501 alice
                    (alice_row 3 day0 500) poor_world eq_refl
                    ltac:(simpl; lia) ltac:(lia))).
Defined.

(* ===================================================================== *)
(** * The token routes *)
(* ===================================================================== *)

(** X6: the reset time the gate and the token routes announce is the
    first UTC midnight after the clock reading: a whole number of days,
    later than [now] and at most 24 hours away; it is the instant
    [getNextMidnightUTC] of the shared utilities gives. *)
Theorem getNextTokenReset_is_next_midnight (now : Z) :
  validTime now -> validTime (now + JSDate.msPerDay) ->
  exists nextReset,
    getNextTokenReset now = Some nextReset
    /\ getNextMidnightUTC (JSDate.TimeClip now) = Some nextReset
    /\ nextReset mod JSDate.msPerDay = 0
    /\ now < nextReset <= now + JSDate.msPerDay.
Proof.
  intros Hv Hv'. exists (JSDate.Day now * JSDate.msPerDay + JSDate.msPerDay).
  split; [apply getNextTokenReset_valid; assumption|].
  split.
  - rewrite (TimeClip_valid now Hv). apply getNextMidnightUTC_valid; [exact Hv|].
    unfold validTime, JSDate.maxTime, JSDate.msPerDay in *. lia.
  - pose proof (Day_bounds now) as B. split.
    + unfold JSDate.msPerDay. Z.to_euclidean_division_equations; lia.
    + lia.
Qed.

Lemma getNextTokenReset_is_next_midnight_witness :
  exists nextReset,
    getNextTokenReset (day0 + 1000) = Some nextReset
    /\ getNextMidnightUTC (JSDate.TimeClip (day0 + 1000)) = Some nextReset
    /\ nextReset mod JSDate.msPerDay = 0
    /\ day0 + 1000 < nextReset <= day0 + 1000 + JSDate.msPerDay.
Proof.
  apply (getNextTokenReset_is_next_midnight (day0 + 1000)).
  - unfold validTime, day0, JSDate.maxTime. lia.
  - unfold validTime, day0, JSDate.maxTime, JSDate.msPerDay. lia.
Defined.

Lemma token_columns_only_refl (id : string) (d : Database) :
  token_columns_only id d d.
Proof.
  unfold token_columns_only.
  do 4 (split; [reflexivity|]). split; [reflexivity|].
  destruct (users d !! id); [|exact I]. repeat split; reflexivity.
Qed.

Lemma updateUserTokens_columns (d : Database) (id : string) (user : User)
    (n t : Z) :
  users d !! id = Some user ->
  token_columns_only id d (updateUserTokens d id user n t).1.
Proof.
  intros Hrow. unfold token_columns_only, updateUserTokens. cbn.
  do 4 (split; [reflexivity|]). split.
  - intros other Hne. apply lookup_insert_ne. congruence.
  - rewrite Hrow, lookup_insert_eq. cbn. repeat split; reflexivity.
Qed.

(** X7: [POST /tokens/reset] touches nothing but the caller's token
    columns: sessions, participants and transactions are as before, every
    other user's row is as before, and the caller's row stays in place
    and keeps its identity, user name, credit balance and creation
    time. *)
Theorem resetTokens_touches_only_token_columns
    (now : Z) (u : AuthUser) (w : World) :
  token_columns_only (au_id u) (db w) (db (resetTokens now (Some u) w).2).
Proof.
  unfold resetTokens. set (id := au_id u).
  destruct (findUniqueUser (db w) id) as [[user|]|] eqn:Hu;
    try apply token_columns_only_refl.
  assert (Hrow : users (db w) !! id = Some user).
  { unfold findUniqueUser in Hu. destruct (db_online (db w)); congruence. }
  destruct (JSDate.ge _ _).
  - destruct (getNextTokenReset now); apply token_columns_only_refl.
  - destruct (JSDate.TimeClip now) as [t|]; [|apply token_columns_only_refl].
    pose proof (updateUserTokens_columns (db w) id user DAILY_TOKEN_COUNT t Hrow)
      as Hc.
    destruct (updateUserTokens _ _ _ _ _) as [d' updatedUser].
    destruct (getNextTokenReset now); exact Hc.
Qed.



(** The profile keys and the token keys of the cache never meet. *)
Lemma profile_and_token_keys_apart (a b : string) :
  USER_PROFILE a <> USER_TOKENS b.
Proof.
  unfold USER_PROFILE, USER_TOKENS. cbv [String.append]. discriminate.
Qed.

(** X28: once [GET /tokens] has answered 200 with the cache up, the
    user's token entry is that answer, and for as long as the entry is
    kept (it lives 60 seconds) a later [GET /tokens] of the same user
    repeats the answer, whatever the clock reads and whatever the store
    holds by then; the first request leaves the store as it was. *)
Theorem getTokens_repeats_cached_answer
    (now now' : Z) (u : AuthUser) (w w' : World) (v : CacheValue) :
  cache_online (cache w) = true ->
  (getTokens now (Some u) w).1 = ok (TokenData v) ->
  cache_get (cache w') (USER_TOKENS (au_id u))
  = cache_get (cache (getTokens now (Some u) w).2) (USER_TOKENS (au_id u)) ->
  db (getTokens now (Some u) w).2 = db w
  /\ cache_get (cache (getTokens now (Some u) w).2) (USER_TOKENS (au_id u))
     = Some v
  /\ getTokens now' (Some u) w' = (ok (TokenData v), w').
Proof.
  intros Hon Hans Hkept.
  assert (Hr : db (getTokens now (Some u) w).2 = db w
               /\ cache_get (cache (getTokens now (Some u) w).2)
                    (USER_TOKENS (au_id u)) = Some v).
  { revert Hans. unfold getTokens.
    destruct (cache_get (cache w) (USER_TOKENS (au_id u))) as [v0|] eqn:G.
    - cbn [fst snd]. intros E. injection E as ->. auto.
    - destruct (findUniqueUser (db w) (au_id u)) as [[user|]|];
        try (cbn; discriminate).
      destruct (getNextTokenReset now) as [nextReset|]; [|cbn; discriminate].
      cbn [fst snd db cache]. intros E. injection E as <-.
      split; [reflexivity|]. unfold cache_get, cache_set.
      rewrite Hon. cbn [cache_online entries]. apply lookup_insert_eq. }
  destruct Hr as [Hd Hc]. split; [exact Hd|]. split; [exact Hc|].
  rewrite Hc in Hkept. unfold getTokens. rewrite Hkept. reflexivity.
Qed.

(** Alice asks at 00:00:01; thirty seconds later her row has changed in
    the store, and the answer has not. *)
Lemma getTokens_repeats_cached_answer_witness :
  (getTokens (day0 + 1000) (Some alice) spent_world).1
  = ok (TokenData (TokenStatus 0 day0 3 (day0 + JSDate.msPerDay)))
  /\ getTokens (day0 + 31000) (Some alice)
       {| db := db stale_world;
          cache := cache (getTokens (day0 + 1000) (Some alice) spent_world).2 |}
     = (ok (TokenData (TokenStatus 0 day0 3 (day0 + JSDate.msPerDay))),
        {| db := db stale_world;
           cache := cache (getTokens (day0 + 1000) (Some alice) spent_world).2 |}).
Proof.
  split; [reflexivity|].
  apply (proj2 (proj2 (getTokens_repeats_cached_answer (day0 + 1000)
                  (day0 + 31000) alice spent_world
                  {| db := db stale_world;
                     cache := cache (getTokens (day0 + 1000) (Some alice)
                                       spent_world).2 |}
                  (TokenStatus 0 day0 3 (day0 + JSDate.msPerDay))
                  eq_refl eq_refl eq_refl))).
Defined.

(** X29: when the count the gate sees is [t], [requireTokens(n)] hands
    the request on exactly when [n <= t]; the store is unchanged (no
    token is consumed), and after a cache miss with the cache up the
    stored count is cached as [{tokens, lastReset}] under the user's
    token key. *)
Theorem requireTokens_admits_enough_tokens
    (n now t : Z) (u : AuthUser) (w : World) :
  gateCount u w = Some t ->
  isNext (requireTokens n now (Some u) w).1 = (n <=? t)
  /\ db (requireTokens n now (Some u) w).2 = db w
  /\ (cache_online (cache w) = true ->
      exists v, cache_get (cache (requireTokens n now (Some u) w).2)
                  (USER_TOKENS (au_id u)) = Some v
                /\ tokens_member v = Some t).
Proof.
  intros Hc. unfold requireTokens, gateCount in *.
  destruct (cache_get (cache w) (USER_TOKENS (au_id u))) as [v|] eqn:G.
  - rewrite (checkTokens_isNext n now v w t Hc), checkTokens_world.
    split; [reflexivity|]. split; [reflexivity|].
    intros _. exists v. auto.
  - destruct (findUniqueUser (db w) (au_id u)) as [[user|]|]; try discriminate.
    injection Hc as Hc.
    rewrite (checkTokens_isNext n now _ _ t) by (cbn; congruence).
    rewrite checkTokens_world. cbn [db cache].
    split; [reflexivity|]. split; [reflexivity|].
    intros Hon. eexists. split.
    + unfold cache_get, cache_set. rewrite Hon. cbn [cache_online entries].
      apply lookup_insert_eq.
    + cbn. congruence.
Qed.

Lemma requireTokens_admits_enough_tokens_witness :
  isNext (requireTokens 3 (day0 + 1000) (Some alice) poor_world).1 = true
  /\ isNext (requireTokens 4 (day0 + 1000) (Some alice) poor_world).1 = false.
Proof.
  split.
  - apply (proj1 (requireTokens_admits_enough_tokens 3 (day0 + 1000) 3 alice
                    poor_world eq_refl)).
  - apply (proj1 (requireTokens_admits_enough_tokens 4 (day0 + 1000) 3 alice
                    poor_world eq_refl)).
Defined.

(* ===================================================================== *)
(** * Array and object utilities *)
(* ===================================================================== *)

Lemma chunk_lengths_step (n size : Z) :
  1 <= size -> size <= n ->
  chunk_lengths n size = size :: chunk_lengths (n - size) size.
Proof.
  intros Hs Hn. unfold chunk_lengths.
  assert (Ed : n / size = (n - size) / size + 1).
  { replace n with ((n - size) + 1 * size) at 1 by lia.
    apply Z.div_add. lia. }
  assert (Em : n mod size = (n - size) mod size).
  { replace n with ((n - size) + 1 * size) at 1 by lia.
    apply Z.mod_add. lia. }
  rewrite Ed, Em.
  replace (Z.to_nat ((n - size) / size + 1))
    with (S (Z.to_nat ((n - size) / size)))
    by (pose proof (Z.div_pos (n - size) size); lia).
  reflexivity.
Qed.

Lemma chunk_lengths_last (n size : Z) :
  0 < n < size -> chunk_lengths n size = [n].
Proof.
  intros Hn. unfold chunk_lengths.
  rewrite Z.div_small, Z.mod_small by lia.
  destruct (Z.eqb_spec n 0); [lia | reflexivity].
Qed.

Lemma slice_inside {A : Type} (array : list A) (i size : Z) :
  0 <= i -> 0 <= size ->
  slice array i (i + size) = take (Z.to_nat size) (drop (Z.to_nat i) array).
Proof.
  intros Hi Hs. unfold slice.
  destruct (Z.ltb_spec i 0); [lia|].
  destruct (Z.ltb_spec (i + size) 0); [lia|].
  set (len := Z.of_nat (length array)).
  destruct (Z.le_gt_cases len i) as [Hle|Hlt].
  - rewrite !drop_ge by lia. rewrite !take_nil. reflexivity.
  - rewrite (Z.min_l i len) by lia.
    destruct (Z.le_gt_cases (i + size) len).
    + rewrite Z.min_l by lia. f_equal. lia.
    + rewrite Z.min_r by lia.
      rewrite !take_ge; [reflexivity | | ]; rewrite length_drop; lia.
Qed.

Lemma chunk_loop_spec {A : Type} (array : list A) (size : Z) :
  1 <= size ->
  forall (fuel : nat) (i : Z) (chunks : list (list A)),
    0 <= i ->
    Z.of_nat (length array) - i <= Z.of_nat fuel ->
    exists rest,
      chunk_loop fuel array size i chunks = Some (chunks ++ rest)
      /\ concat rest = drop (Z.to_nat i) array
      /\ (Z.of_nat ∘ length) <$> rest
         = chunk_lengths (Z.of_nat (length (drop (Z.to_nat i) array))) size.
Proof.
  intros Hs. induction fuel as [|fuel IH]; intros i chunks Hi Hf.
  - exists []. cbn [chunk_loop]. destruct (Z.ltb_spec i (Z.of_nat (length array))); [lia|].
    rewrite app_nil_r, drop_ge by lia.
    split; [reflexivity | split; [reflexivity | reflexivity]].
  - cbn [chunk_loop]. destruct (Z.ltb_spec i (Z.of_nat (length array))) as [Hlt|Hge].
    + destruct (IH (i + size) (chunks ++ [slice array i (i + size)]))
        as (rest & E & Hc & Hl); [lia | lia |].
      exists (slice array i (i + size) :: rest).
      rewrite E, <- app_assoc. split; [reflexivity|].
      rewrite slice_inside by lia. split.
      * cbn [concat]. rewrite Hc.
        replace (Z.to_nat (i + size)) with (Z.to_nat i + Z.to_nat size)%nat by lia.
        rewrite <- drop_drop. apply take_drop.
      * cbn [fmap list_fmap]. rewrite Hl. unfold compose.
        rewrite length_take, !length_drop.
        set (len := Z.of_nat (length array)) in *.
        replace (Z.of_nat (length array - Z.to_nat (i + size)))
          with (Z.max 0 (len - i - size)) by lia.
        replace (Z.of_nat (Z.to_nat size `min` (length array - Z.to_nat i)))
          with (Z.min size (len - i)) by lia.
        replace (Z.of_nat (length array - Z.to_nat i)) with (len - i) by lia.
        destruct (Z.le_gt_cases size (len - i)) as [Hfull|Hpart].
        -- rewrite Z.min_l, Z.max_r by lia.
           symmetry. apply chunk_lengths_step; lia.
        -- rewrite Z.min_r, Z.max_l by lia.
           symmetry. apply chunk_lengths_last; lia.
    + exists []. rewrite app_nil_r, drop_ge by lia.
      split; [reflexivity | split; [reflexivity | reflexivity]].
Qed.

(** X9: for a size of at least 1, [chunk] returns after at most
    [array.length] turns of its loop; the chunks, concatenated, are the
    array; and their lengths are [size], ..., [size] followed by the
    remainder [array.length mod size] when that is not 0. *)
Theorem chunk_partitions {A : Type} (array : list A) (size : Z) (fuel : nat) :
  1 <= size -> (length array <= fuel)%nat ->
  exists chunks,
    chunk fuel array size = Some chunks
    /\ concat chunks = array
    /\ (Z.of_nat ∘ length) <$> chunks
       = chunk_lengths (Z.of_nat (length array)) size.
Proof.
  intros Hs Hf.
  destruct (chunk_loop_spec array size Hs fuel 0 []) as (rest & E & Hc & Hl);
    [lia | lia |].
  exists rest. unfold chunk. rewrite E. cbn in Hc, Hl. auto.
Qed.

Lemma chunk_partitions_witness :
  chunk 5 [1; 2; 3; 4; 5] 2 = Some [[1; 2]; [3; 4]; [5]]
  /\ exists chunks,
       chunk 5 [1; 2; 3; 4; 5] 2 = Some chunks
       /\ concat chunks = [1; 2; 3; 4; 5]
       /\ (Z.of_nat ∘ length) <$> chunks = chunk_lengths 5 2.
Proof.
  split; [reflexivity|].
  apply (chunk_partitions [1; 2; 3; 4; 5] 2 5); [lia | simpl; lia].
Defined.

(** X10: for a size of 0 or less and an array that is not empty, the loop
    of [chunk] never ends: its counter never reaches [array.length]. *)
Theorem chunk_diverges {A : Type} (array : list A) (size : Z) (fuel : nat) :
  size <= 0 -> array <> [] -> chunk fuel array size = None.
Proof.
  intros Hs Hne. unfold chunk.
  assert (Hlen : 0 < Z.of_nat (length array)).
  { destruct array; [congruence | cbn; lia]. }
  assert (G : forall i chunks, i <= 0 -> chunk_loop fuel array size i chunks = None).
  { induction fuel as [|fuel IH]; intros i chunks Hi; cbn [chunk_loop];
      destruct (Z.ltb_spec i (Z.of_nat (length array))); try lia.
    - reflexivity.
    - apply IH. lia. }
  apply G. lia.
Qed.

Lemma chunk_diverges_witness :
  chunk 1000 [1; 2; 3] 0 = None.
Proof. apply chunk_diverges; [lia | discriminate]. Defined.

Lemma pick_fold_lookup {V : Type} (obj : JsObject V) (keys : list string)
    (acc : gmap string V) (k : string) :
  foldl (fun result key =>
           match js_get obj key with
           | Some v => <[key := v]> result
           | None => result
           end) acc keys !! k
  = match (if bool_decide (k ∈ keys) then js_get obj k else None) with
    | Some v => Some v
    | None => acc !! k
    end.
Proof.
  revert acc. induction keys as [|key keys IH]; intros acc.
  - reflexivity.
  - cbn [foldl]. rewrite IH.
    destruct (decide (k = key)) as [->|Hne].
    + rewrite (bool_decide_eq_true_2 (key ∈ key :: keys)) by left.
      destruct (js_get obj key) as [v|] eqn:Ho.
      * destruct (bool_decide (key ∈ keys)); [reflexivity|].
        apply lookup_insert_eq.
      * destruct (bool_decide (key ∈ keys)); reflexivity.
    + assert (Hm : bool_decide (k ∈ key :: keys) = bool_decide (k ∈ keys)).
      { apply bool_decide_ext. rewrite elem_of_cons. tauto. }
      rewrite Hm.
      destruct (if bool_decide (k ∈ keys) then js_get obj k else None);
        [reflexivity|].
      destruct (js_get obj key); [apply lookup_insert_ne; congruence | reflexivity].
Qed.

Lemma pick_lookup {V : Type} (obj : JsObject V) (keys : list string)
    (k : string) :
  pick obj keys !! k = if bool_decide (k ∈ keys) then js_get obj k else None.
Proof.
  unfold pick. rewrite pick_fold_lookup, lookup_empty.
  destruct (if bool_decide (k ∈ keys) then js_get obj k else None); reflexivity.
Qed.

Lemma omit_fold_lookup {V : Type} (acc : gmap string V) (keys : list string)
    (k : string) :
  foldl (fun result key => delete key result) acc keys !! k
  = if bool_decide (k ∈ keys) then None else acc !! k.
Proof.
  revert acc. induction keys as [|key keys IH]; intros acc.
  - reflexivity.
  - cbn [foldl]. rewrite IH.
    destruct (decide (k = key)) as [->|Hne].
    + rewrite (bool_decide_eq_true_2 (key ∈ key :: keys)) by left.
      rewrite lookup_delete_eq. destruct (bool_decide (key ∈ keys)); reflexivity.
    + assert (Hm : bool_decide (k ∈ key :: keys) = bool_decide (k ∈ keys)).
      { apply bool_decide_ext. rewrite elem_of_cons. tauto. }
      rewrite Hm, lookup_delete_ne by congruence. reflexivity.
Qed.

Lemma omit_lookup {V : Type} (obj : JsObject V) (keys : list string)
    (k : string) :
  omit obj keys !! k
  = if bool_decide (k ∈ keys) then None else own_members obj !! k.
Proof. apply omit_fold_lookup. Qed.

(** X11: for [keys] without the name [__proto__], [pick(obj, keys)]
    holds the members named in [keys] that [key in obj] finds, own or
    inherited, each with the value [obj[key]], and [omit(obj, keys)]
    holds the own enumerable members of [obj] not named in [keys].  No
    member is in both, and when [keys] names no member that is only
    inherited the two together are the own members of [obj]. *)
Theorem pick_omit_split {V : Type} (obj : JsObject V) (keys : list string) :
  "__proto__" ∉ keys ->
  (forall k, pick obj keys !! k
             = if bool_decide (k ∈ keys) then js_get obj k else None)
  /\ (forall k, omit obj keys !! k
                = if bool_decide (k ∈ keys) then None
                  else own_members obj !! k)
  /\ pick obj keys ##ₘ omit obj keys
  /\ ((forall k, k ∈ keys ->
          own_members obj !! k = None -> other_members obj !! k = None) ->
      pick obj keys ∪ omit obj keys = own_members obj).
Proof.
  intros _.
  split; [apply pick_lookup|]. split; [apply omit_lookup|]. split.
  - apply map_disjoint_spec. intros k x y Hp Ho.
    rewrite pick_lookup in Hp. rewrite omit_lookup in Ho.
    destruct (bool_decide (k ∈ keys)); discriminate.
  - intros Hown. apply map_eq. intros k.
    rewrite lookup_union, pick_lookup, omit_lookup.
    destruct (decide (k ∈ keys)) as [Hin | Hnin].
    + rewrite !bool_decide_eq_true_2 by exact Hin.
      unfold js_get. destruct (own_members obj !! k) as [v|] eqn:E;
        [reflexivity|].
      rewrite (Hown k Hin E). reflexivity.
    + rewrite !bool_decide_eq_false_2 by exact Hnin.
      destruct (own_members obj !! k); reflexivity.
Qed.

(** [pick] and [omit] of the members "a" and "c" split [demoObject];
    picking "toString" copies the inherited method. *)
Lemma pick_omit_split_witness :
  pick demoObject ["a"; "c"] ∪ omit demoObject ["a"; "c"]
  = own_members demoObject
  /\ pick demoObject ["toString"] !! "toString" = Some 0.
Proof.
  split.
  - apply (proj2 (proj2 (proj2 (pick_omit_split demoObject ["a"; "c"]
                                  ltac:(apply (bool_decide_unpack _); vm_compute; exact I))))).
    intros k Hk. apply elem_of_cons in Hk as [-> | Hk];
      [|apply elem_of_cons in Hk as [-> | Hk]; [|apply elem_of_nil in Hk; tauto]];
      (intros C; vm_compute in C; discriminate).
  - rewrite (proj1 (pick_omit_split demoObject ["toString"]
                      ltac:(apply (bool_decide_unpack _); vm_compute; exact I)) "toString").
    reflexivity.
Defined.

(* ===================================================================== *)
(** * retry and throttle *)
(* ===================================================================== *)

Lemma backoff_snoc (delay : Z) (i k : nat) :
  backoff delay i (S k)
  = delay * (Z.of_nat i + 1) :: backoff delay (S i) k.
Proof. reflexivity. Qed.

Lemma retry_loop_resolves {T E : Type} (fn : nat -> Settled T E)
    (attempts delay : Z) (v : T) :
  forall (k rest : nat) (i : nat) (lastError : option E) (slept : list Z),
    Z.of_nat rest = attempts - Z.of_nat i ->
    (k < rest)%nat ->
    rejects fn i k ->
    fn (i + k)%nat = Resolved v ->
    retry_loop fn attempts delay rest (Z.of_nat i) lastError slept
    = {| settled := Resolved v; calls := S (i + k);
         sleeps := slept ++ backoff delay i k |}.
Proof.
  induction k as [|k IH]; intros rest i lastError slept Hr Hk Hrej Hres.
  - destruct rest as [|rest]; [lia|]. cbn [retry_loop].
    rewrite Nat2Z.id. rewrite Nat.add_0_r in Hres. rewrite Hres.
    unfold backoff. cbn. rewrite app_nil_r, Nat.add_0_r. reflexivity.
  - destruct rest as [|rest]; [lia|]. cbn [retry_loop].
    rewrite Nat2Z.id.
    destruct (Hrej 0%nat) as (e & He); [lia|].
    rewrite Nat.add_0_r in He. rewrite He.
    destruct (Z.ltb_spec (Z.of_nat i) (attempts - 1)); [|lia].
    assert (Hrun := IH rest (S i) (Some e) (slept ++ [delay * (Z.of_nat i + 1)])).
    rewrite Nat2Z.inj_succ in Hrun. unfold Z.succ in Hrun.
    rewrite Hrun.
    + rewrite backoff_snoc, <- app_assoc.
      replace (S i + k)%nat with (i + S k)%nat by lia. reflexivity.
    + lia.
    + lia.
    + intros n Hn. destruct (Hrej (S n)) as (e' & He'); [lia|].
      exists e'. rewrite <- He'. f_equal. lia.
    + rewrite <- Hres. f_equal. lia.
Qed.

(** X12: when the calls before call number [k] of [fn] are rejected and
    call number [k] resolves, with [k] below [attempts], [retry] resolves
    with that value after exactly [k + 1] calls, having slept [delay],
    [2 * delay], ..., [k * delay] between them. *)
Theorem retry_returns_first_success {T E : Type} (fn : nat -> Settled T E)
    (attempts delay : Z) (k : nat) (v : T) :
  Z.of_nat k < attempts ->
  rejects fn 0 k ->
  fn k = Resolved v ->
  retry fn attempts delay
  = {| settled := Resolved v; calls := S k; sleeps := backoff delay 0 k |}.
Proof.
  intros Hk Hrej Hres. unfold retry.
  apply (retry_loop_resolves fn attempts delay v k (Z.to_nat attempts) 0%nat
           None []); [lia | lia | exact Hrej | exact Hres].
Qed.

Lemma retry_returns_first_success_witness :
  retry (fun n => if (n <? 2)%nat then Rejected n else Resolved 7) 3 1000
  = {| settled := Resolved 7; calls := 3%nat; sleeps := [1000; 2000] |}.
Proof.
  apply (retry_returns_first_success
           (fun n => if (n <? 2)%nat then Rejected n else Resolved 7)
           3 1000 2 7).
  - lia.
  - intros n Hn. exists n. simpl.
    destruct n as [|[|n]]; [reflexivity | reflexivity | lia].
  - reflexivity.
Defined.

Lemma retry_loop_rejects {T E : Type} (fn : nat -> Settled T E)
    (attempts delay : Z) :
  forall (rest : nat) (i : nat) (lastError : option E) (slept : list Z),
    Z.of_nat (S rest) = attempts - Z.of_nat i ->
    rejects fn i (S rest) ->
    exists e,
      fn (i + rest)%nat = Rejected e
      /\ retry_loop fn attempts delay (S rest) (Z.of_nat i) lastError slept
         = {| settled := Rejected (Some e); calls := (i + S rest)%nat;
              sleeps := slept ++ backoff delay i rest |}.
Proof.
  induction rest as [|rest IH]; intros i lastError slept Hr Hrej.
  - destruct (Hrej 0%nat) as (e & He); [lia|]. exists e.
    split; [exact He|]. cbn [retry_loop]. rewrite Nat2Z.id.
    rewrite Nat.add_0_r in He. rewrite He.
    destruct (Z.ltb_spec (Z.of_nat i) (attempts - 1)); [lia|].
    unfold backoff. cbn [seq fmap list_fmap]. rewrite app_nil_r.
    f_equal. lia.
  - destruct (Hrej 0%nat) as (e0 & He0); [lia|].
    rewrite Nat.add_0_r in He0.
    destruct (IH (S i) (Some e0) (slept ++ [delay * (Z.of_nat i + 1)]))
      as (e & He & Hrun).
    + lia.
    + intros n Hn. destruct (Hrej (S n)) as (e' & He'); [lia|].
      exists e'. rewrite <- He'. f_equal. lia.
    + exists e. split; [rewrite <- He; f_equal; lia|].
      rewrite Nat2Z.inj_succ in Hrun. unfold Z.succ in Hrun.
      remember (S rest) as r eqn:Er.
      cbn [retry_loop]. rewrite Nat2Z.id, He0.
      destruct (Z.ltb_spec (Z.of_nat i) (attempts - 1)); [|lia].
      rewrite Hrun, Er, backoff_snoc, <- app_assoc.
      replace (S i + S rest)%nat with (i + S (S rest))%nat by lia. reflexivity.
Qed.

(** X13: when the first [attempts] calls of [fn] are all rejected
    ([attempts] at least 1), [retry] rejects with the error of the last
    one after exactly [attempts] calls; it has slept after every failure
    but the last. *)
Theorem retry_gives_up_with_last_error {T E : Type} (fn : nat -> Settled T E)
    (attempts delay : Z) :
  1 <= attempts ->
  rejects fn 0 (Z.to_nat attempts) ->
  exists e,
    fn (Z.to_nat attempts - 1)%nat = Rejected e
    /\ retry fn attempts delay
       = {| settled := Rejected (Some e); calls := Z.to_nat attempts;
            sleeps := backoff delay 0 (Z.to_nat attempts - 1) |}.
Proof.
  intros Ha Hrej. unfold retry.
  destruct (Z.to_nat attempts) as [|rest] eqn:En; [lia|].
  destruct (retry_loop_rejects fn attempts delay rest 0%nat None [])
    as (e & He & Hrun); [lia | exact Hrej |].
  exists e. replace (S rest - 1)%nat with rest by lia.
  split; [exact He | exact Hrun].
Qed.

Lemma retry_gives_up_with_last_error_witness :
  exists e : nat,
    (fun n : nat => @Rejected Z nat n) (Z.to_nat 3 - 1)%nat = Rejected e
    /\ retry (fun n : nat => @Rejected Z nat n) 3 1000
       = {| settled := Rejected (Some e); calls := Z.to_nat 3;
            sleeps := backoff 1000 0 (Z.to_nat 3 - 1) |}.
Proof.
  apply (retry_gives_up_with_last_error (fun n : nat => @Rejected Z nat n) 3 1000).
  - lia.
  - intros n Hn. exists n. reflexivity.
Defined.

Lemma throttle_from_spaced (delay : Z) (clock : list Z) :
  forall lastCall, spaced delay lastCall (throttle_from delay lastCall clock).
Proof.
  induction clock as [|now clock IH]; intros lastCall; cbn [throttle_from].
  - exact I.
  - unfold throttled. destruct (Z.leb_spec delay (now - lastCall)).
    + cbn [spaced]. split; [assumption | apply IH].
    + apply IH.
Qed.

Lemma throttle_from_sublist (delay : Z) (clock : list Z) :
  forall lastCall, sublist (throttle_from delay lastCall clock) clock.
Proof.
  induction clock as [|now clock IH]; intros lastCall; cbn [throttle_from].
  - constructor.
  - unfold throttled. destruct (Z.leb_spec delay (now - lastCall)).
    + apply sublist_skip, IH.
    + apply sublist_cons, IH.
Qed.

(** X14: whatever the clock readings at which the function returned by
    [throttle(func, delay)] is called, [func] runs at some of them, in
    order, and every two consecutive runs are at least [delay] apart
    (the first one at least [delay] after the epoch). *)
Theorem throttle_spaces_calls (delay : Z) (clock : list Z) :
  sublist (throttle delay clock) clock
  /\ spaced delay 0 (throttle delay clock).
Proof.
  split; [apply throttle_from_sublist | apply throttle_from_spaced].
Qed.

(* ===================================================================== *)
(** * Date strings *)
(* ===================================================================== *)

Lemma digitChar_code (a : Z) :
  0 <= a <= 9 -> Ascii.N_of_ascii (digitChar a) = Z.to_N (48 + a).
Proof.
  intros Ha. unfold digitChar. apply Ascii.N_ascii_embedding. lia.
Qed.

Lemma digitChar_inj (a b : Z) :
  0 <= a <= 9 -> 0 <= b <= 9 -> digitChar a = digitChar b -> a = b.
Proof.
  intros Ha Hb E. apply (f_equal Ascii.N_of_ascii) in E.
  rewrite !digitChar_code in E by assumption. lia.
Qed.

(** A digit is none of ['T'], ['-'] and ['+']. *)
Lemma digitChar_not (a : Z) (code : N) :
  0 <= a <= 9 -> (code < 48 \/ 57 < code)%N -> (code < 256)%N ->
  digitChar a <> Ascii.ascii_of_N code.
Proof.
  intros Ha Hc Hlt E. apply (f_equal Ascii.N_of_ascii) in E.
  rewrite digitChar_code, Ascii.N_ascii_embedding in E by assumption. lia.
Qed.

Lemma digitChar_noT (a : Z) :
  0 <= a <= 9 -> Ascii.eqb (digitChar a) char_T = false.
Proof.
  intros Ha. apply Ascii.eqb_neq. apply digitChar_not; [exact Ha | lia | lia].
Qed.

Lemma pow10_pos (w : nat) : 0 < 10 ^ Z.of_nat w.
Proof. apply Z.pow_pos_nonneg; lia. Qed.

Lemma pow10_S (w : nat) : 10 ^ Z.of_nat (S w) = 10 * 10 ^ Z.of_nat w.
Proof. rewrite Nat2Z.inj_succ, Z.pow_succ_r by lia. reflexivity. Qed.

Lemma padStart_digit (w : nat) (n : Z) :
  0 <= n < 10 ^ Z.of_nat (S w) ->
  0 <= n / 10 ^ Z.of_nat w <= 9
  /\ 0 <= n mod 10 ^ Z.of_nat w < 10 ^ Z.of_nat w.
Proof.
  intros Hn. rewrite pow10_S in Hn. pose proof (pow10_pos w) as Hp.
  split; [|apply Z.mod_pos_bound; lia].
  split; [apply Z.div_pos; lia|].
  assert (n / 10 ^ Z.of_nat w < 10); [|lia].
  apply Z.div_lt_upper_bound; lia.
Qed.

Lemma padStart_inj (w : nat) :
  forall a b, 0 <= a < 10 ^ Z.of_nat w -> 0 <= b < 10 ^ Z.of_nat w ->
    padStart w a = padStart w b -> a = b.
Proof.
  induction w as [|w IH]; intros a b Ha Hb E.
  - cbn in Ha, Hb. lia.
  - cbn [padStart] in E. injection E as Ed Er.
    destruct (padStart_digit w a Ha) as [Da Ma].
    destruct (padStart_digit w b Hb) as [Db Mb].
    apply (digitChar_inj _ _ Da Db) in Ed.
    apply (IH _ _ Ma Mb) in Er.
    pose proof (pow10_pos w) as Hp.
    rewrite (Z.div_mod a (10 ^ Z.of_nat w)), (Z.div_mod b (10 ^ Z.of_nat w)) by lia.
    congruence.
Qed.

Lemma padStart_noT (w : nat) :
  forall a, 0 <= a < 10 ^ Z.of_nat w -> noT (padStart w a) = true.
Proof.
  induction w as [|w IH]; intros a Ha; [reflexivity|].
  destruct (padStart_digit w a Ha) as [Da Ma].
  unfold noT. cbn [padStart String.list_ascii_of_string forallb].
  rewrite (digitChar_noT _ Da). cbn [negb andb]. apply (IH _ Ma).
Qed.

Lemma padStart_length (w : nat) (a : Z) : String.length (padStart w a) = w.
Proof.
  revert a. induction w as [|w IH]; intros a; [reflexivity|].
  cbn [padStart String.length]. rewrite IH. reflexivity.
Qed.

Lemma noT_app (a b : string) : noT (a +:+ b) = noT a && noT b.
Proof.
  unfold noT. induction a as [|c a IH]; [reflexivity|].
  change (String c a +:+ b) with (String c (a +:+ b)).
  cbn [String.list_ascii_of_string forallb]. rewrite IH, andb_assoc. reflexivity.
Qed.

Lemma split_T_0_app (a rest : string) :
  noT a = true -> split_T_0 (a +:+ "T" +:+ rest) = a.
Proof.
  unfold noT. induction a as [|c a IH]; intros H; [reflexivity|].
  change (String c a +:+ "T" +:+ rest)
    with (String c (a +:+ "T" +:+ rest)).
  cbn [String.list_ascii_of_string forallb] in H.
  apply andb_prop in H as [Hc Ha]. apply negb_true_iff in Hc.
  cbn [split_T_0]. rewrite Hc, (IH Ha). reflexivity.
Qed.

Lemma app_inj_length (a a' b b' : string) :
  String.length a = String.length a' ->
  a +:+ b = a' +:+ b' -> a = a' /\ b = b'.
Proof.
  revert a'. induction a as [|c a IH]; intros [|c' a'] Hl E;
    try discriminate Hl.
  - auto.
  - change (String c (a +:+ b) = String c' (a' +:+ b')) in E.
    injection E as -> E. injection Hl as Hl.
    destruct (IH a' Hl E) as [-> ->]. auto.
Qed.

(** The day of the month lies between 1 and 31. *)
Lemma DateFromTime_range (t : Z) : 1 <= JSDate.DateFromTime t <= 31.
Proof.
  pose proof (YearFromDay_spec (JSDate.Day t)) as [Hlo Hhi].
  rewrite DaysInYear_step in Hhi.
  unfold JSDate.DateFromTime, JSDate.MonthFromTime, JSDate.InLeapYear,
    JSDate.DayWithinYear, JSDate.YearFromTime.
  set (y := JSDate.YearFromDay (JSDate.Day t)) in *.
  set (d := JSDate.Day t - JSDate.DayFromYear y).
  assert (Hd : 0 <= d < JSDate.DaysInYear y) by (unfold d; lia).
  assert (Hy : JSDate.DaysInYear y = 365 \/ JSDate.DaysInYear y = 366).
  { unfold JSDate.DaysInYear. repeat (destruct (negb _); [auto|]). auto. }
  clearbody d.
  destruct (Z.eqb_spec (JSDate.DaysInYear y) 366) as [E|E];
    repeat match goal with
           | |- context [d <? ?k] =>
               destruct (Z.ltb_spec d k); [cbv iota beta; lia|]
           end;
    cbv iota beta; lia.
Qed.

(** The year of a valid instant has at most six digits. *)
Lemma YearFromTime_range (t : Z) :
  validTime t -> -999999 <= JSDate.YearFromTime t <= 999999.
Proof.
  unfold validTime, JSDate.maxTime, JSDate.YearFromTime. intros Hv.
  pose proof (YearFromDay_spec (JSDate.Day t)) as [Hlo Hhi].
  assert (Hday : -100000000 <= JSDate.Day t <= 100000000).
  { unfold JSDate.Day, JSDate.msPerDay. Z.to_euclidean_division_equations; lia. }
  set (y := JSDate.YearFromDay (JSDate.Day t)) in *.
  split.
  - destruct (Z_le_gt_dec (-999999) y) as [|Hgt]; [assumption|].
    pose proof (DayFromYear_mono (y + 1) (-999999) ltac:(lia)) as M.
    assert (JSDate.DayFromYear (-999999) < -100000000) by (vm_compute; reflexivity).
    lia.
  - destruct (Z_le_gt_dec y 999999) as [|Hgt]; [assumption|].
    pose proof (DayFromYear_mono 1000000 y ltac:(lia)) as M.
    assert (100000000 < JSDate.DayFromYear 1000000) by (vm_compute; reflexivity).
    lia.
Qed.

Lemma dash_inj (rest rest' : string) :
  "-" +:+ rest = "-" +:+ rest' -> rest = rest'.
Proof.
  intros E. change (String char_minus rest = String char_minus rest') in E.
  congruence.
Qed.

Lemma yearString_noT (y : Z) :
  -999999 <= y <= 999999 -> noT (yearString y) = true.
Proof.
  intros Hy. unfold yearString.
  destruct ((0 <=? y) && (y <=? 9999)) eqn:E.
  - apply andb_prop in E as [E1 E2]. apply Z.leb_le in E1, E2.
    apply padStart_noT. cbn. lia.
  - unfold noT. cbn [String.list_ascii_of_string forallb].
    assert (P : noT (padStart 6 (Z.abs y)) = true)
      by (apply padStart_noT; cbn; lia).
    unfold noT in P. rewrite P. destruct (y <? 0); reflexivity.
Qed.

Lemma app_cons (c : Ascii.ascii) (a b : string) :
  String c a +:+ b = String c (a +:+ b).
Proof. reflexivity. Qed.

Lemma String_inj (c c' : Ascii.ascii) (a a' : string) :
  String c a = String c' a' -> c = c' /\ a = a'.
Proof. intros E. injection E as -> ->. auto. Qed.

Lemma digitChar_not_sign (d : Z) :
  0 <= d <= 9 -> digitChar d <> char_minus /\ digitChar d <> char_plus.
Proof.
  intros D. split; apply digitChar_not; (exact D || lia).
Qed.

(** The three shapes of a year: four digits, or a sign and six digits. *)
Lemma yearString_form (y : Z) :
  -999999 <= y <= 999999 ->
  (exists d rest, 0 <= d <= 9 /\ yearString y = String (digitChar d) rest)
  /\ (0 <= y <= 9999 /\ yearString y = padStart 4 y
      \/ y < 0 /\ yearString y = String char_minus (padStart 6 (- y))
      \/ 9999 < y /\ yearString y = String char_plus (padStart 6 y))
  \/ (forall d rest, 0 <= d <= 9 -> yearString y <> String (digitChar d) rest)
     /\ (y < 0 /\ yearString y = String char_minus (padStart 6 (- y))
         \/ 9999 < y /\ yearString y = String char_plus (padStart 6 y)).
Proof.
  intros Hy. unfold yearString.
  destruct (Z.leb_spec 0 y) as [P|N]; destruct (Z.leb_spec y 9999) as [Q|R];
    cbn [andb]; try lia.
  - left. split; [|left; auto].
    destruct (padStart_digit 3 y ltac:(cbn; lia)) as [D _].
    eexists _, _. split; [exact D | reflexivity].
  - right. destruct (Z.ltb_spec y 0); [lia|]. split.
    + intros d rest D E. injection E as E _.
      destruct (digitChar_not_sign d D) as [_ Np]. congruence.
    + right. rewrite Z.abs_eq by lia. auto.
  - right. destruct (Z.ltb_spec y 0); [|lia]. split.
    + intros d rest D E. injection E as E _.
      destruct (digitChar_not_sign d D) as [Nm _]. congruence.
    + left. rewrite Z.abs_neq by lia. auto.
Qed.

Lemma yearString_inj (y y' : Z) :
  -999999 <= y <= 999999 -> -999999 <= y' <= 999999 ->
  forall rest rest' : string,
    yearString y +:+ "-" +:+ rest = yearString y' +:+ "-" +:+ rest' ->
    y = y' /\ rest = rest'.
Proof.
  intros Hy Hy' rest rest' E.
  destruct (yearString_form y Hy) as [[(d & r & D & Ed) F] | [Nd F]];
    destruct (yearString_form y' Hy') as [[(d' & r' & D' & Ed') F'] | [Nd' F']].
  - destruct F as [[B F] | [[B F] | [B F]]];
      destruct F' as [[B' F'] | [[B' F'] | [B' F']]];
      try (exfalso; rewrite F in Ed; injection Ed as Ed _;
           destruct (digitChar_not_sign d D); congruence);
      try (exfalso; rewrite F' in Ed'; injection Ed' as Ed' _;
           destruct (digitChar_not_sign d' D'); congruence).
    rewrite F, F' in E.
    apply app_inj_length in E as [E1 E2];
      [|rewrite !padStart_length; reflexivity].
    apply padStart_inj in E1; [|cbn; lia ..]. apply dash_inj in E2. auto.
  - exfalso. rewrite Ed, (app_cons _ r) in E.
    destruct F' as [[B' F'] | [B' F']];
      rewrite F', (app_cons _ (padStart 6 _)) in E;
      apply String_inj in E as [E _]; destruct (digitChar_not_sign d D); congruence.
  - exfalso. rewrite Ed', (app_cons _ r') in E.
    destruct F as [[B F] | [B F]];
      rewrite F, (app_cons _ (padStart 6 _)) in E;
      apply String_inj in E as [E _]; destruct (digitChar_not_sign d' D'); congruence.
  - destruct F as [[B F] | [B F]]; destruct F' as [[B' F'] | [B' F']];
      rewrite F, F' in E;
      rewrite (app_cons _ (padStart 6 y)), (app_cons _ (padStart 6 y')) in E
      || rewrite (app_cons _ (padStart 6 (- y))), (app_cons _ (padStart 6 y')) in E
      || rewrite (app_cons _ (padStart 6 y)), (app_cons _ (padStart 6 (- y'))) in E
      || rewrite (app_cons _ (padStart 6 (- y))), (app_cons _ (padStart 6 (- y'))) in E;
      apply String_inj in E as [Ec E]; try discriminate Ec.
    + apply app_inj_length in E as [E1 E2];
        [|rewrite !padStart_length; reflexivity].
      apply padStart_inj in E1; [|cbn; lia ..]. apply dash_inj in E2.
      split; [lia | exact E2].
    + apply app_inj_length in E as [E1 E2];
        [|rewrite !padStart_length; reflexivity].
      apply padStart_inj in E1; [|cbn; lia ..]. apply dash_inj in E2.
      split; [lia | exact E2].
Qed.

Lemma getDateString_isoDate (t : Z) :
  validTime t -> getDateString (Some t) = Some (isoDate t).
Proof.
  intros Hv. unfold getDateString, toISOString. cbn [option_map]. f_equal.
  apply split_T_0_app. unfold isoDate.
  pose proof (MonthFromTime_range t) as Hm.
  pose proof (DateFromTime_range t) as Hd.
  rewrite !noT_app, (yearString_noT _ (YearFromTime_range t Hv)).
  unfold noT at 1 2. cbn [String.list_ascii_of_string forallb].
  fold (noT (padStart 2 (JSDate.MonthFromTime t + 1))).
  fold (noT (padStart 2 (JSDate.DateFromTime t))).
  rewrite !padStart_noT by (cbn; lia). reflexivity.
Qed.

(** X15: [getDateString] names the UTC day: for two valid Dates it gives
    the same string exactly when they fall on the same day (and a Date
    gets the string of the midnight that starts its day). *)
Theorem getDateString_names_the_day (t1 t2 : Z) :
  validTime t1 -> validTime t2 ->
  (getDateString (Some t1) = getDateString (Some t2)
   <-> JSDate.Day t1 = JSDate.Day t2)
  /\ getDateString (getMidnightUTC (Some t1)) = getDateString (Some t1).
Proof.
  intros H1 H2.
  assert (Same : forall a b, JSDate.Day a = JSDate.Day b -> isoDate a = isoDate b).
  { intros a b E. unfold isoDate, JSDate.DateFromTime, JSDate.MonthFromTime,
      JSDate.InLeapYear, JSDate.DayWithinYear, JSDate.YearFromTime.
    rewrite E. reflexivity. }
  split.
  - rewrite !getDateString_isoDate by assumption. split.
    + intros E. assert (E' : isoDate t1 = isoDate t2) by congruence.
      clear E. unfold isoDate in E'.
      apply yearString_inj in E' as [Ey E];
        [|apply YearFromTime_range; assumption ..].
      apply app_inj_length in E as [Em Ed];
        [|rewrite !padStart_length; reflexivity].
      apply dash_inj in Ed.
      pose proof (MonthFromTime_range t1). pose proof (MonthFromTime_range t2).
      pose proof (DateFromTime_range t1). pose proof (DateFromTime_range t2).
      apply padStart_inj in Em; [|cbn; lia ..].
      apply padStart_inj in Ed; [|cbn; lia ..].
      rewrite <- (Z.add_0_r (JSDate.Day t1)), <- (Z.add_0_r (JSDate.Day t2)).
      rewrite <- (MakeDay_shift t1 0), <- (MakeDay_shift t2 0).
      rewrite !Z.add_0_r, Ey, Ed. f_equal. lia.
    + intros E. f_equal. apply Same, E.
  - rewrite (getMidnightUTC_valid t1 H1).
    rewrite !getDateString_isoDate;
      [|assumption | apply midnight_validTime; assumption].
    f_equal. apply Same. apply Day_of_midnight.
Qed.

Lemma getDateString_names_the_day_witness :
  getDateString (Some day0) = Some "2024-11-04"
  /\ (getDateString (Some (day0 + 1000)) = getDateString (Some (day0 + 86399999))
      <-> JSDate.Day (day0 + 1000) = JSDate.Day (day0 + 86399999))
  /\ getDateString (getMidnightUTC (Some (day0 + 1000)))
     = getDateString (Some (day0 + 1000)).
Proof.
  split; [vm_compute; reflexivity|].
  apply (getDateString_names_the_day (day0 + 1000) (day0 + 86399999)).
  - unfold validTime, day0, JSDate.maxTime. lia.
  - unfold validTime, day0, JSDate.maxTime. lia.
Defined.

(* ===================================================================== *)
(** * Authentication *)
(* ===================================================================== *)

Lemma substring_all (t : string) :
  String.substring 0 (String.length t) t = t.
Proof. induction t as [|c t IH]; cbn; [reflexivity | rewrite IH; reflexivity]. Qed.

Lemma substring_Bearer (t : string) :
  String.substring 7 (String.length ("Bearer " +:+ t) - 7) ("Bearer " +:+ t) = t.
Proof.
  cbv [String.append]. cbn. rewrite Nat.sub_0_r. apply substring_all.
Qed.

Lemma prefix_Bearer_append (t : string) :
  String.prefix "Bearer " ("Bearer " +:+ t) = true.
Proof. cbv [String.append]. destruct t; reflexivity. Qed.

Lemma length_zero (t : string) :
  (String.length t =? 0)%nat = true <-> t = "".
Proof. destruct t; cbn; split; intros; try reflexivity; discriminate. Qed.

Lemma prefix_Bearer (h : string) :
  String.prefix "Bearer " h = true -> exists t, h = "Bearer " +:+ t.
Proof.
  intros H.
  do 7 (destruct h as [|c h]; [discriminate|];
        cbn [String.prefix] in H;
        match type of H with
        | (if ?d then _ else _) = true =>
            destruct d as [<-|]; [|discriminate]
        end).
  exists h. reflexivity.
Qed.

Lemma extractTokenFromHeader_inv (h t : string) :
  extractTokenFromHeader (Some h) = Some t -> h = "Bearer " +:+ t.
Proof.
  unfold extractTokenFromHeader.
  destruct (String.length h =? 0)%nat; [discriminate|]. cbn [orb].
  destruct (String.prefix "Bearer " h) eqn:P; [|discriminate].
  destruct (prefix_Bearer h P) as (t' & ->). cbn [negb].
  rewrite substring_Bearer. congruence.
Qed.

Lemma extractTokenFromHeader_append (t : string) :
  extractTokenFromHeader (Some ("Bearer " +:+ t)) = Some t.
Proof.
  unfold extractTokenFromHeader.
  rewrite prefix_Bearer_append, substring_Bearer.
  cbv [String.append]. reflexivity.
Qed.

(** X16: [extractTokenFromHeader] returns a token exactly for the headers
    of the form ['Bearer ' + token], and then that token (the empty one
    for the bare header ['Bearer ']); for every other header, and for a
    missing one, it returns [null]. *)
Theorem extractTokenFromHeader_Bearer (h t : string) :
  (extractTokenFromHeader (Some h) = Some t <-> h = "Bearer " +:+ t)
  /\ extractTokenFromHeader None = None.
Proof.
  split; [|reflexivity]. split.
  - apply extractTokenFromHeader_inv.
  - intros ->. apply extractTokenFromHeader_append.
Qed.

Lemma getUserFromCacheOrDB_world (userId : string) (s : Server) :
  world (getUserFromCacheOrDB userId s).2 = world s.
Proof.
  unfold getUserFromCacheOrDB. destruct (profile_get _ _); [reflexivity|].
  destruct (findUniqueUser _ _) as [[u|]|]; try reflexivity.
  cbn. unfold profile_set. destruct (cache_online _); reflexivity.
Qed.

(** X17: whatever the request, [authMiddleware] leaves the store and the
    token entries of the cache as they are, and when it does not hand
    the request on it answers 401 or 500. *)
Theorem authMiddleware_reads_only (verify : JwtVerify)
    (jwtSecret authorization : option string) (s : Server) :
  world (authMiddleware verify jwtSecret authorization s).2 = world s
  /\ match (authMiddleware verify jwtSecret authorization s).1 with
     | AuthRespond status _ => status = 401 \/ status = 500
     | AuthNext _ => True
     end.
Proof.
  unfold authMiddleware.
  destruct (extractTokenFromHeader authorization) as [token|]; [|cbn; auto].
  destruct (String.length token =? 0)%nat; [cbn; auto|].
  destruct (verifyJwtToken verify jwtSecret token) as [| |decoded]; [cbn; auto ..|].
  destruct (tokenSchema decoded) as [[userId whopUserId]|]; [|cbn; auto].
  pose proof (getUserFromCacheOrDB_world userId s) as W.
  destruct (getUserFromCacheOrDB userId s) as [[[[row|]|]|] s']; cbn in *; auto.
  destruct (bool_decide _); cbn; auto.
Qed.

(** What is known when [authMiddleware] has handed a request on. *)
Lemma authMiddleware_next (verify : JwtVerify)
    (jwtSecret authorization : option string) (s s' : Server) (a : AuthUser) :
  authMiddleware verify jwtSecret authorization s = (AuthNext a, s') ->
  exists token userId row,
    authorization = Some ("Bearer " +:+ token)
    /\ validToken verify jwtSecret token userId (au_whopUserId a)
    /\ (profile_get s (USER_PROFILE userId) = Some (AuthRow row) /\ s' = s
        \/ profile_get s (USER_PROFILE userId) = None
           /\ (exists u, users (db (world s)) !! userId = Some u
                         /\ row = selectAuthRow u)
           /\ s' = profile_set s (USER_PROFILE userId) (AuthRow row))
    /\ a = {| au_id := cu_id row; au_whopUserId := cu_whopUserId row;
              au_username := cu_username row |}.
Proof.
  unfold authMiddleware. intros H.
  destruct authorization as [h|]; [|discriminate].
  destruct (extractTokenFromHeader (Some h)) as [token|] eqn:Ex; [|discriminate].
  apply extractTokenFromHeader_inv in Ex. subst h.
  destruct (String.length token =? 0)%nat eqn:Len; [discriminate|].
  unfold verifyJwtToken in H.
  destruct jwtSecret as [secret|]; [|discriminate].
  destruct (String.length secret =? 0)%nat eqn:LenS; [discriminate|].
  destruct (verify token secret) as [payload|] eqn:V; [|discriminate].
  destruct (tokenSchema payload) as [[userId wid]|] eqn:T; [|discriminate].
  unfold getUserFromCacheOrDB in H.
  assert (Ht : token <> "") by (intros ->; discriminate).
  assert (Hs : secret <> "") by (intros ->; discriminate).
  destruct (profile_get s (USER_PROFILE userId)) as [[row|]|] eqn:G;
    try discriminate.
  - destruct (bool_decide_reflect (cu_whopUserId row = wid)) as [E|];
      [|discriminate].
    injection H as <- <-. exists token, userId, row.
    split; [reflexivity|]. split.
    + split; [exact Ht|]. exists secret, payload. cbn. rewrite E. auto.
    + split; [left; split; [exact G | reflexivity] | reflexivity].
  - unfold findUniqueUser in H. destruct (db_online _); [|discriminate].
    destruct (users (db (world s)) !! userId) as [u|] eqn:U; [|discriminate].
    cbn in H.
    destruct (bool_decide_reflect (whopUserId u = wid)) as [E|];
      [|discriminate].
    injection H as <- <-. exists token, userId, (selectAuthRow u).
    split; [reflexivity|]. split.
    + split; [exact Ht|]. exists secret, payload. cbn. rewrite E. auto.
    + split; [|reflexivity].
      right. split; [exact G|]. split; [exists u; auto | reflexivity].
Qed.

(** X18: [authMiddleware] hands a request on only when its header is
    ['Bearer ' + token] with a token that is not empty, [JWT_SECRET] is
    configured, [jwt.verify] accepts the token under it, and the payload
    names a user whose row (from the cache, else from the store) carries
    the payload's [whopUserId]; [req.user] is then made of that row. *)
Theorem authMiddleware_admits_verified_tokens (verify : JwtVerify)
    (jwtSecret authorization : option string) (s s' : Server) (a : AuthUser) :
  authMiddleware verify jwtSecret authorization s = (AuthNext a, s') ->
  exists token userId row,
    authorization = Some ("Bearer " +:+ token)
    /\ validToken verify jwtSecret token userId (au_whopUserId a)
    /\ (profile_get s (USER_PROFILE userId) = Some (AuthRow row)
        \/ profile_get s (USER_PROFILE userId) = None
           /\ exists u, users (db (world s)) !! userId = Some u
                        /\ row = selectAuthRow u)
    /\ a = {| au_id := cu_id row; au_whopUserId := cu_whopUserId row;
              au_username := cu_username row |}.
Proof.
  intros H.
  destruct (authMiddleware_next _ _ _ _ _ _ H)
    as (token & userId & row & Hh & Hv & Hrow & Ha).
  exists token, userId, row. split; [exact Hh|]. split; [exact Hv|].
  split; [|exact Ha].
  destruct Hrow as [[G _] | (G & Hu & _)]; [left; exact G | right; auto].
Qed.

Lemma authMiddleware_admits_verified_tokens_witness :
  authMiddleware demoVerify (Some "s3cret") (Some "Bearer t-alice") demoServer
  = (AuthNext alice,
     profile_set demoServer (USER_PROFILE "alice")
       (AuthRow (selectAuthRow (alice_row 3 day0 1000))))
  /\ exists token userId row,
       Some "Bearer t-alice" = Some ("Bearer " +:+ token)
       /\ validToken demoVerify (Some "s3cret") token userId (au_whopUserId alice)
       /\ (profile_get demoServer (USER_PROFILE userId) = Some (AuthRow row)
           \/ profile_get demoServer (USER_PROFILE userId) = None
              /\ exists u, users (db (world demoServer)) !! userId = Some u
                           /\ row = selectAuthRow u)
       /\ alice = {| au_id := cu_id row; au_whopUserId := cu_whopUserId row;
                     au_username := cu_username row |}.
Proof.
  split; [reflexivity|].
  apply (authMiddleware_admits_verified_tokens demoVerify (Some "s3cret")
           (Some "Bearer t-alice") demoServer
           (profile_set demoServer (USER_PROFILE "alice")
              (AuthRow (selectAuthRow (alice_row 3 day0 1000))))
           alice).
  reflexivity.
Defined.

(** X19: [optionalAuthMiddleware] lets a request without an
    [Authorization] header pass without [req.user]; but a request whose
    Bearer token is empty or is refused by [jwt.verify] is answered 401,
    as by [authMiddleware]: it is not continued anonymously. *)
Theorem optionalAuthMiddleware_refuses_bad_tokens (verify : JwtVerify)
    (jwtSecret : option string) (s : Server) :
  optionalAuthMiddleware verify jwtSecret None s = (OptNext None, s)
  /\ optionalAuthMiddleware verify jwtSecret (Some "Bearer ") s
     = (OptRespond 401 "UNAUTHORIZED", s)
  /\ (forall token secret,
        token <> "" -> secret <> "" -> verify token secret = None ->
        optionalAuthMiddleware verify (Some secret)
          (Some ("Bearer " +:+ token)) s
        = (OptRespond 401 "INVALID_TOKEN", s)).
Proof.
  split; [reflexivity|]. split; [reflexivity|].
  intros token secret Ht Hs Hv. unfold optionalAuthMiddleware.
  assert (Hl : (String.length ("Bearer " +:+ token) =? 0)%nat = false)
    by (cbv [String.append]; reflexivity).
  rewrite Hl, prefix_Bearer_append. cbn [negb orb].
  unfold authMiddleware.
  rewrite extractTokenFromHeader_append.
  destruct (String.length token =? 0)%nat eqn:Len;
    [apply length_zero in Len; contradiction|].
  unfold verifyJwtToken.
  destruct (String.length secret =? 0)%nat eqn:LenS;
    [apply length_zero in LenS; contradiction|].
  rewrite Hv. reflexivity.
Qed.

(* ===================================================================== *)
(** * The profile routes *)
(* ===================================================================== *)

(** X20: behind [authMiddleware], with the cache up, [GET /profile]
    answers with the row [authMiddleware] has just read or cached under
    the profile key, [{id, whopUserId, username, creditsBalance,
    tokensRemaining, lastTokenReset}]: the statistics are not computed
    and the store is not asked again. *)
Theorem getProfile_behind_auth_serves_cached_row (verify : JwtVerify)
    (jwtSecret authorization : option string) (s s' : Server) (a : AuthUser) :
  keyed s ->
  cache_online (cache (world s)) = true ->
  authMiddleware verify jwtSecret authorization s = (AuthNext a, s') ->
  exists row,
    getProfile (Some a) s' = (ProfileJson (AuthRow row), s')
    /\ a = {| au_id := cu_id row; au_whopUserId := cu_whopUserId row;
              au_username := cu_username row |}.
Proof.
  intros [Kd Kc] Hon H.
  destruct (authMiddleware_next _ _ _ _ _ _ H)
    as (token & userId & row & _ & _ & Hrow & Ha).
  exists row. split; [|exact Ha].
  assert (Hid : au_id a = userId).
  { rewrite Ha. cbn. destruct Hrow as [[G _] | (_ & (u & Hu & ->) & _)].
    - unfold profile_get in G. rewrite Hon in G. apply (Kc _ _ G).
    - cbn. apply (Kd _ _ Hu). }
  unfold getProfile. rewrite Hid.
  assert (G' : profile_get s' (USER_PROFILE userId) = Some (AuthRow row)).
  { destruct Hrow as [[G ->] | (_ & _ & ->)]; [exact G|].
    unfold profile_get, profile_set. rewrite Hon. cbn. rewrite Hon.
    apply lookup_insert_eq. }
  rewrite G'. reflexivity.
Qed.

Lemma demoServer_keyed : keyed demoServer.
Proof.
  split.
  - intros id u H. cbn in H. apply lookup_singleton_Some in H as [<- <-].
    reflexivity.
  - intros id row H. cbn in H. rewrite lookup_empty in H. discriminate.
Qed.

Lemma getProfile_behind_auth_serves_cached_row_witness :
  exists row,
    getProfile (Some alice)
      (authMiddleware demoVerify (Some "s3cret") (Some "Bearer t-alice")
         demoServer).2
    = (ProfileJson (AuthRow row),
       (authMiddleware demoVerify (Some "s3cret") (Some "Bearer t-alice")
          demoServer).2)
    /\ alice = {| au_id := cu_id row; au_whopUserId := cu_whopUserId row;
                  au_username := cu_username row |}.
Proof.
  apply (getProfile_behind_auth_serves_cached_row demoVerify (Some "s3cret")
           (Some "Bearer t-alice") demoServer _ alice demoServer_keyed eq_refl).
  reflexivity.
Defined.

(** A page [GET /profile] has cached has no [whopUserId] member at top
    level: [authMiddleware] refuses its owner. *)
Lemma authMiddleware_refuses_over_page (verify : JwtVerify)
    (jwtSecret : option string) (token userId wid : string) (s : Server)
    (user : User) (balance : Num.number) (stats : UserStats) :
  validToken verify jwtSecret token userId wid ->
  profile_get s (USER_PROFILE userId) = Some (ProfilePage user balance stats) ->
  authMiddleware verify jwtSecret (Some ("Bearer " +:+ token)) s
  = (AuthRespond 401 "INVALID_TOKEN", s).
Proof.
  intros (Ht & secret & payload & -> & Hs & Hv & Hp) G.
  unfold authMiddleware.
  rewrite extractTokenFromHeader_append.
  destruct (String.length token =? 0)%nat eqn:Len;
    [apply length_zero in Len; contradiction|].
  unfold verifyJwtToken.
  destruct (String.length secret =? 0)%nat eqn:LenS;
    [apply length_zero in LenS; contradiction|].
  rewrite Hv, Hp. unfold getUserFromCacheOrDB. rewrite G. reflexivity.
Qed.

(** X21: when [GET /profile] finds nothing under the profile key and
    answers from the store, it caches its page [{user, stats}] under
    that key; while the page is there, [authMiddleware] reads it as the
    user's row, finds no [whopUserId] in it, and answers a request of
    that user with 401 INVALID_TOKEN although the token is valid. *)
Theorem getProfile_from_store_locks_user_out (verify : JwtVerify)
    (jwtSecret : option string) (token wid : string) (a : AuthUser)
    (userData : User) (s : Server) :
  validToken verify jwtSecret token (au_id a) wid ->
  cache_online (cache (world s)) = true ->
  profile_get s (USER_PROFILE (au_id a)) = None ->
  findUniqueUser (db (world s)) (au_id a) = Some (Some userData) ->
  exists page,
    getProfile (Some a) s = (ProfileJson page, (getProfile (Some a) s).2)
    /\ profile_get (getProfile (Some a) s).2 (USER_PROFILE (au_id a)) = Some page
    /\ authMiddleware verify jwtSecret (Some ("Bearer " +:+ token))
         (getProfile (Some a) s).2
       = (AuthRespond 401 "INVALID_TOKEN", (getProfile (Some a) s).2).
Proof.
  intros Hv Hon G Hu. unfold getProfile. rewrite G, Hu. cbv zeta.
  eexists. split; [reflexivity|]. cbn [snd].
  assert (G' : forall page,
            profile_get (profile_set s (USER_PROFILE (au_id a)) page)
              (USER_PROFILE (au_id a)) = Some page).
  { intros page. unfold profile_get, profile_set. rewrite Hon. cbn.
    rewrite Hon. apply lookup_insert_eq. }
  split; [apply G'|].
  eapply authMiddleware_refuses_over_page; [exact Hv | apply G'].
Qed.

Lemma getProfile_from_store_locks_user_out_witness :
  exists page,
    getProfile (Some alice) demoServer
    = (ProfileJson page, (getProfile (Some alice) demoServer).2)
    /\ profile_get (getProfile (Some alice) demoServer).2
         (USER_PROFILE (au_id alice)) = Some page
    /\ authMiddleware demoVerify (Some "s3cret") (Some ("Bearer " +:+ "t-alice"))
         (getProfile (Some alice) demoServer).2
       = (AuthRespond 401 "INVALID_TOKEN", (getProfile (Some alice) demoServer).2).
Proof.
  apply (getProfile_from_store_locks_user_out demoVerify (Some "s3cret")
           "t-alice" "whop_alice" alice (alice_row 3 day0 1000) demoServer).
  - split; [discriminate|].
    exists "s3cret", (BodyObject {[ "userId" := JStr "alice";
                                    "whopUserId" := JStr "whop_alice";
                                    "iat" := JNum (Num.of_Z 1730678400);
                                    "exp" := JNum (Num.of_Z 1731283200) ]}).
    split; [reflexivity|]. split; [discriminate|].
    split; reflexivity.
  - reflexivity.
  - reflexivity.
  - reflexivity.
Defined.

Lemma usernameTakenByOther_false (d : Database) (name userId : string) :
  usernameTakenByOther d name userId = false ->
  forall id u, users d !! id = Some u -> username u = name -> id = userId.
Proof.
  unfold usernameTakenByOther. intros H id u Hu Hn.
  apply bool_decide_eq_false in H.
  destruct (decide (id = userId)) as [E|Hne]; [exact E|].
  exfalso. apply H. exists id, u. auto.
Qed.

Lemma putProfile_inv (now : Z) (u : AuthUser) (b : Body) (s s' : Server)
    (user' : User) :
  putProfile now (Some u) b s = (Updated user', s') ->
  exists row,
    users (db (world s)) !! au_id u = Some row
    /\ users (db (world s')) = <[au_id u := user']> (users (db (world s)))
    /\ user' = (updateUserProfile (db (world s)) (au_id u) row
                  (Some (username user')) now).2
    /\ (username user' = username row
        \/ member (match b with BodyObject o => o | BodyOther => ∅ end)
             "username" = JStr (username user')
           /\ validateUsername (username user') = true
           /\ usernameTakenByOther (db (world s)) (username user') (au_id u)
              = false)
    /\ profiles s' = (if cache_online (cache (world s))
                      then delete (USER_PROFILE (au_id u)) (profiles s)
                      else profiles s)
    /\ cache (world s') = cache (world s).
Proof.
  unfold putProfile. intros H.
  destruct (updateProfileSchema b) eqn:Hs; [|discriminate]. cbn [negb] in H.
  destruct (db_online (db (world s))); [|discriminate]. cbn [negb] in H.
  set (name := match b with
               | BodyObject o =>
                   match member o "username" with
                   | JStr n => if (String.length n =? 0)%nat then None else Some n
                   | _ => None
                   end
               | BodyOther => None
               end) in *.
  destruct (match name with
            | Some n => usernameTakenByOther (db (world s)) n (au_id u)
            | None => false
            end) eqn:Ht; [discriminate|].
  destruct (users (db (world s)) !! au_id u) as [row|] eqn:Hrow; [|discriminate].
  cbn [updateUserProfile] in H. injection H as <- <-.
  exists row. split; [reflexivity|].
  assert (Hp : forall s0 : Server,
            profiles (profile_del s0 (USER_PROFILE (au_id u)))
            = (if cache_online (cache (world s0))
               then delete (USER_PROFILE (au_id u)) (profiles s0)
               else profiles s0)
            /\ world (profile_del s0 (USER_PROFILE (au_id u))) = world s0).
  { intros s0. unfold profile_del. destruct (cache_online _); auto. }
  match goal with
  | |- context [profile_del ?s0 _] => destruct (Hp s0) as [Hp1 Hp2]
  end.
  rewrite Hp1, Hp2. cbn.
  split; [reflexivity|]. split; [destruct name; reflexivity|].
  split; [|split; reflexivity].
  destruct name as [n|] eqn:En; cbn; [right | left; reflexivity].
  subst name. destruct b as [o|]; [|discriminate].
  cbn in Hs. cbn.
  destruct (member o "username") as [| | | |n0|] eqn:Hm; try discriminate.
  destruct (String.length n0 =? 0)%nat eqn:Hl; [discriminate|].
  injection En as <-. split; [reflexivity|]. split; [|exact Ht].
  cbn in Hs. exact Hs.
Qed.

(** X23: [PUT /profile] keeps user names unique: when no two rows carry
    the same user name before the request, none do after it, whatever
    the request and its outcome. *)
Theorem putProfile_keeps_usernames_unique (now : Z) (u : option AuthUser)
    (b : Body) (s : Server) :
  uniqueUsernames (db (world s)) ->
  uniqueUsernames (db (world (putProfile now u b s).2)).
Proof.
  intros Hu.
  destruct (putProfile now u b s) as [answer s'] eqn:H. cbn [snd].
  assert (Same : s' = s -> uniqueUsernames (db (world s')))
    by (intros ->; exact Hu).
  destruct answer as [user'| | |].
  - destruct u as [u|]; [|discriminate].
    destruct (putProfile_inv now u b s s' user' H)
      as (row & Hrow & Hd & _ & Hname & _).
    intros id1 id2 u1 u2 H1 H2 Hn. rewrite Hd in H1, H2.
    destruct (decide (id1 = au_id u)) as [E1|N1],
             (decide (id2 = au_id u)) as [E2|N2].
    + congruence.
    + subst id1. rewrite lookup_insert_eq in H1. injection H1 as <-.
      rewrite lookup_insert_ne in H2 by congruence.
      destruct Hname as [Hsame | (_ & _ & Hfree)].
      * symmetry. apply (Hu _ _ _ _ H2 Hrow). congruence.
      * symmetry. apply (usernameTakenByOther_false _ _ _ Hfree _ _ H2).
        congruence.
    + subst id2. rewrite lookup_insert_eq in H2. injection H2 as <-.
      rewrite lookup_insert_ne in H1 by congruence.
      destruct Hname as [Hsame | (_ & _ & Hfree)].
      * apply (Hu _ _ _ _ H1 Hrow). congruence.
      * apply (usernameTakenByOther_false _ _ _ Hfree _ _ H1). congruence.
    + rewrite lookup_insert_ne in H1 by congruence.
      rewrite lookup_insert_ne in H2 by congruence.
      apply (Hu _ _ _ _ H1 H2 Hn).
  - apply Same. unfold putProfile in H. destruct u as [u|]; [|congruence].
    repeat match type of H with
           | (if ?c then _ else _) = _ => destruct c
           | match ?c with _ => _ end = _ => destruct c
           end; congruence.
  - apply Same. unfold putProfile in H. destruct u as [u|]; [|congruence].
    repeat match type of H with
           | (if ?c then _ else _) = _ => destruct c
           | match ?c with _ => _ end = _ => destruct c
           end; congruence.
  - apply Same. unfold putProfile in H. destruct u as [u|]; [|congruence].
    repeat match type of H with
           | (if ?c then _ else _) = _ => destruct c
           | match ?c with _ => _ end = _ => destruct c
           end; congruence.
Qed.

Lemma twoUsers_unique : uniqueUsernames (db (world twoUsers)).
Proof.
  intros id1 id2 u1 u2 H1 H2 Hn. cbn in H1, H2.
  apply lookup_insert_Some in H1 as [[<- <-] | [N1 H1]];
    apply lookup_insert_Some in H2 as [[<- <-] | [N2 H2]];
    try reflexivity.
  - apply lookup_singleton_Some in H2 as [<- <-]. discriminate.
  - apply lookup_singleton_Some in H1 as [<- <-]. discriminate.
  - apply lookup_singleton_Some in H1 as [<- <-].
    apply lookup_singleton_Some in H2 as [<- <-]. reflexivity.
Qed.

Lemma putProfile_keeps_usernames_unique_witness :
  (putProfile (day0 + 1000) (Some alice)
     rename_bobby twoUsers).1 = UsernameTaken
  /\ uniqueUsernames
       (db (world (putProfile (day0 + 1000) (Some alice)
                     rename_bobby twoUsers).2)).
Proof.
  split; [reflexivity|].
  apply (putProfile_keeps_usernames_unique (day0 + 1000) (Some alice)
           rename_bobby twoUsers
           twoUsers_unique).
Defined.



Lemma foldr_max_bounds (l : list Z) :
  0 <= foldr Z.max 0 l
  /\ (forall x, x ∈ l -> x <= foldr Z.max 0 l)
  /\ (foldr Z.max 0 l = 0 \/ foldr Z.max 0 l ∈ l).
Proof.
  induction l as [|x l (IH0 & IHle & IHin)]; cbn.
  - split; [lia|]. split; [|left; reflexivity].
    intros x Hx. apply elem_of_nil in Hx. contradiction.
  - split; [lia|]. split.
    + intros y Hy. apply elem_of_cons in Hy as [->|Hy]; [lia|].
      specialize (IHle y Hy). lia.
    + destruct (Z.max_spec x (foldr Z.max 0 l)) as [[_ ->] | [_ ->]].
      * destruct IHin as [->|Hin]; [left; reflexivity|].
        right. apply elem_of_cons. right. exact Hin.
      * right. apply elem_of_cons. left. reflexivity.
Qed.

(** X22: the statistics [GET /profile] computes from the store:
    [totalGames] counts the participations of the user, [totalWins] is
    between 0 and [totalGames], and [bestScore] is the highest of 0 and
    the user's scores, so it is never negative. *)
Theorem getProfile_statistics (u : AuthUser) (s s' : Server) (user : User)
    (balance : Num.number) (stats : UserStats) :
  profile_get s (USER_PROFILE (au_id u)) = None ->
  getProfile (Some u) s = (ProfileJson (ProfilePage user balance stats), s') ->
  let mine := filter (fun p => gp_userId p = au_id u)
                     (participants (db (world s))) in
  users (db (world s)) !! au_id u = Some user
  /\ balance = Num.of_cents (creditsBalance user)
  /\ totalGames stats = Z.of_nat (length mine)
  /\ 0 <= totalWins stats <= totalGames stats
  /\ 0 <= bestScore stats
  /\ (forall p, p ∈ mine -> score p <= bestScore stats)
  /\ (bestScore stats = 0 \/ exists p, p ∈ mine /\ score p = bestScore stats)
  /\ world s' = world s.
Proof.
  intros G H mine. unfold getProfile in H. rewrite G in H.
  destruct (findUniqueUser _ _) as [[userData|]|] eqn:Hu; try discriminate.
  cbv zeta in H. injection H as <- <- <- <-.
  fold mine.
  split.
  { unfold findUniqueUser in Hu. destruct (db_online _); congruence. }
  split; [reflexivity|]. cbn [profileStats totalGames totalWins bestScore].
  split; [reflexivity|].
  destruct (foldr_max_bounds (score <$> mine)) as (B0 & Ble & Bin).
  split.
  { split; [lia|]. apply inj_le. apply length_filter. }
  split; [exact B0|]. split.
  { intros p Hp. apply Ble. apply list_elem_of_fmap. exists p. auto. }
  split.
  { destruct Bin as [E|Hin]; [left; exact E | right].
    apply list_elem_of_fmap in Hin as (p & E & Hp). exists p. auto. }
  unfold profile_set. destruct (cache_online _); reflexivity.
Qed.

(* ===================================================================== *)
(** * Pagination *)
(* ===================================================================== *)

Lemma pages_concat {T : Type} (limit : Z) :
  1 <= limit ->
  forall (n : nat) (l : list T),
    Z.of_nat (length l) <= Z.of_nat n * limit ->
    concat (pageOf l limit <$> seq 0 n) = l.
Proof.
  intros Hl. induction n as [|n IH]; intros l Hn.
  - destruct l; [reflexivity | cbn in Hn; lia].
  - cbn [seq fmap list_fmap concat]. rewrite <- fmap_S_seq, <- list_fmap_compose.
    assert (E : (pageOf l limit ∘ S <$> seq 0 n)
                = (pageOf (drop (Z.to_nat limit) l) limit <$> seq 0 n)).
    { apply list_fmap_ext. intros i k _. unfold compose, pageOf.
      rewrite drop_drop. do 2 f_equal; lia. }
    rewrite E, IH.
    + unfold pageOf. cbn [Nat.mul drop]. apply take_drop.
    + rewrite length_drop. lia.
Qed.

Lemma ceil_div_bounds (total limit : Z) :
  0 <= total -> 1 <= limit ->
  0 <= - ((- total) / limit)
  /\ total <= - ((- total) / limit) * limit < total + limit.
Proof. intros Ht Hl. Z.to_euclidean_division_equations; nia. Qed.

(** X25: for a limit of at least 1 and a query that counts its rows,
    [paginate] answers every page from 1 on; the pages 1, ...,
    [totalPages], one after the other, are the rows of the query, each
    row once and in order; [hasNext] says that the next page has a row,
    and [hasPrev] that the page is not the first. *)
Theorem paginate_pages_cover_the_rows {T : Type} (query : Query T)
    (limit : Z) :
  1 <= limit -> countable query = true ->
  exists n : nat,
    concat (pageOf (rows query) limit <$> seq 0 n) = rows query
    /\ forall page : nat,
         exists meta,
           paginate query (Z.of_nat (S page)) limit
           = Some (pageOf (rows query) limit page, meta)
           /\ totalPages meta = Pages (Z.of_nat n)
           /\ pg_total meta = Z.of_nat (length (rows query))
           /\ (hasNext meta = true
               <-> pageOf (rows query) limit (S page) <> [])
           /\ (hasPrev meta = true <-> (0 < page)%nat).
Proof.
  intros Hl Hc.
  set (total := Z.of_nat (length (rows query))).
  destruct (ceil_div_bounds total limit ltac:(lia) Hl) as (Hn0 & Hn1 & Hn2).
  set (n := - ((- total) / limit)) in *.
  exists (Z.to_nat n). split.
  - apply pages_concat; [exact Hl|]. fold total. lia.
  - intros page. unfold paginate. rewrite Hc. fold total.
    assert (Ep : Z.of_nat (S page) - 1 = Z.of_nat page) by lia. rewrite Ep.
    pose proof (Nat2Z.is_nonneg page) as Hp.
    destruct (Z.ltb_spec (Z.of_nat page * limit) 0); [nia|].
    destruct (Z.ltb_spec limit 0); [lia|]. cbn [orb].
    eexists. split.
    { unfold pageOf. rewrite Z2Nat.inj_mul, Nat2Z.id by lia. reflexivity. }
    cbn [totalPages pg_total hasNext hasPrev].
    unfold Math_ceil_div. destruct (Z.eqb_spec limit 0); [lia|]. fold n.
    split; [f_equal; lia|]. split; [reflexivity|]. split.
    + cbn [lt_pages]. rewrite Z.ltb_lt. unfold pageOf.
      assert (El : Z.of_nat (S page * Z.to_nat limit)
                   = Z.of_nat (S page) * limit) by nia.
      split.
      * intros Hlt Hnil.
        apply (f_equal length) in Hnil. rewrite length_take, length_drop in Hnil.
        cbn [length] in Hnil. nia.
      * intros Hne. destruct (Z.lt_ge_cases (Z.of_nat (S page)) n) as [|Hge];
          [assumption|].
        exfalso. apply Hne. rewrite drop_ge; [apply take_nil|]. nia.
    + rewrite Z.ltb_lt. lia.
Qed.

Lemma paginate_pages_cover_the_rows_witness :
  paginate {| rows := [10; 20; 30; 40; 50]; countable := true |} 3 2
  = Some ([50],
          {| pg_page := 3; pg_limit := 2; pg_total := 5;
             totalPages := Pages 3; hasNext := false; hasPrev := true |})
  /\ exists n : nat,
       concat (pageOf [10; 20; 30; 40; 50] 2 <$> seq 0 n) = [10; 20; 30; 40; 50]
       /\ forall page : nat,
            exists meta,
              paginate {| rows := [10; 20; 30; 40; 50]; countable := true |}
                (Z.of_nat (S page)) 2
              = Some (pageOf [10; 20; 30; 40; 50] 2 page, meta)
              /\ totalPages meta = Pages (Z.of_nat n)
              /\ pg_total meta = Z.of_nat (length [10; 20; 30; 40; 50])
              /\ (hasNext meta = true
                  <-> pageOf [10; 20; 30; 40; 50] 2 (S page) <> [])
              /\ (hasPrev meta = true <-> (0 < page)%nat).
Proof.
  split; [reflexivity|].
  apply (paginate_pages_cover_the_rows
           {| rows := [10; 20; 30; 40; 50]; countable := true |} 2);
    [lia | reflexivity].
Defined.

(* ===================================================================== *)
(** * The error handler *)
(* ===================================================================== *)

Lemma messageSwitch_status (message : string) :
  (messageSwitch message).1 ∈ errorStatuses.
Proof.
  unfold messageSwitch, errorStatuses.
  repeat (destruct (bool_decide _); [cbn; set_solver|]).
  cbn. set_solver.
Qed.

Lemma handlePrismaError_status (code : option string) :
  (handlePrismaError code).1 ∈ errorStatuses.
Proof.
  assert (D : (handlePrismaError code).1 = 409
              \/ (handlePrismaError code).1 = 400
              \/ (handlePrismaError code).1 = 404
              \/ (handlePrismaError code).1 = 500
              \/ (handlePrismaError code).1 = 504
              \/ (handlePrismaError code).1 = 503).
  { unfold handlePrismaError.
    repeat match goal with
           | |- context [match ?x with _ => _ end] => destruct x
           end; cbn; tauto. }
  unfold errorStatuses.
  destruct D as [-> | [-> | [-> | [-> | [-> | ->]]]]]; set_solver.
Qed.

(** X26: [errorHandler] answers every error.  The status is one of 400,
    401, 402, 403, 404, 409, 500, 503 and 504, except for an error that
    carries a [code] and a [statusCode] of its own (and is none of the
    library errors): that one is answered with its own [statusCode] and
    [code], whatever they are. *)
Theorem errorHandler_statuses (error : Thrown) :
  (errorHandler error).1 ∈ errorStatuses
  \/ err_class error = OtherError
     /\ err_statusCode error = Some (errorHandler error).1
     /\ err_code error = Some (errorHandler error).2.
Proof.
  unfold errorHandler.
  destruct (err_class error).
  - left. cbn. unfold errorStatuses. set_solver.
  - left. apply handlePrismaError_status.
  - left. cbn. unfold errorStatuses. set_solver.
  - destruct (bool_decide _); [left; cbn; unfold errorStatuses; set_solver|].
    destruct (bool_decide _); [left; cbn; unfold errorStatuses; set_solver|].
    destruct (err_code error) as [code|];
      [|left; apply messageSwitch_status].
    destruct (err_statusCode error) as [statusCode|];
      [|left; apply messageSwitch_status].
    destruct (negb _ && negb _); [|left; apply messageSwitch_status].
    right. cbn. auto.
Qed.

(** X27: each error class of [errorHandler.ts] is answered with the
    status and the code its constructor sets: ValidationError 400
    VALIDATION_ERROR, AuthenticationError 401 and AuthorizationError 403
    UNAUTHORIZED, NotFoundError 404 USER_NOT_FOUND (whatever the
    resource), ConflictError 409 VALIDATION_ERROR, PaymentError 402
    PAYMENT_FAILED; an AppError with a code and a status other than 0
    with those, and with an empty code or the status 0 as a plain error:
    by its message, 500 INTERNAL_ERROR by default. *)
Theorem errorHandler_answers_error_classes (message : string) :
  errorHandler (ValidationError message) = (400, "VALIDATION_ERROR")
  /\ errorHandler (AuthenticationError message) = (401, "UNAUTHORIZED")
  /\ errorHandler (AuthorizationError message) = (403, "UNAUTHORIZED")
  /\ errorHandler (NotFoundError message) = (404, "USER_NOT_FOUND")
  /\ errorHandler (ConflictError message) = (409, "VALIDATION_ERROR")
  /\ errorHandler (PaymentError message) = (402, "PAYMENT_FAILED")
  /\ (forall code statusCode,
        code <> "" -> statusCode <> 0 ->
        errorHandler (AppError code message statusCode) = (statusCode, code))
  /\ (forall code, errorHandler (AppError code message 0) = messageSwitch message)
  /\ (forall statusCode,
        errorHandler (AppError "" message statusCode) = messageSwitch message).
Proof.
  do 6 (split; [reflexivity|]). split; [|split].
  - intros code statusCode Hc Hs. unfold errorHandler, AppError. cbn.
    destruct (String.length code =? 0)%nat eqn:Hl;
      [apply length_zero in Hl; contradiction|].
    destruct (Z.eqb_spec statusCode 0); [contradiction | reflexivity].
  - intros code. unfold errorHandler, AppError. cbn.
    rewrite andb_false_r. reflexivity.
  - intros statusCode. reflexivity.
Qed.

(* ===================================================================== *)
(** * Further examples *)
(* ===================================================================== *)

Lemma getProfile_statistics_witness :
  (getProfile (Some alice) playedServer).1
  = ProfileJson (ProfilePage (alice_row 3 day0 1000) (Num.of_Z 10) aliceStats)
  /\ 0 <= totalWins aliceStats <= totalGames aliceStats
  /\ (forall p, p ∈ filter (fun p => gp_userId p = au_id alice)
                      (participants (db (world playedServer))) ->
         score p <= bestScore aliceStats)
  /\ world (getProfile (Some alice) playedServer).2 = world playedServer.
Proof.
  split; [vm_compute; reflexivity|].
  destruct (getProfile_statistics alice playedServer
              (getProfile (Some alice) playedServer).2
              (alice_row 3 day0 1000) (Num.of_Z 10) aliceStats
              eq_refl ltac:(vm_compute; reflexivity))
    as (_ & _ & _ & Hw & _ & Hb & _ & Hs).
  split; [exact Hw|]. split; [exact Hb | exact Hs].
Defined.

Lemma validateEntryFee_spec_witness :
  Num.wf (Num.of_cents 1050) = true
  /\ (validateEntryFee (Num.of_cents 1050) = true
      <-> exists q, Num.F2Q (Num.of_cents 1050) = Some q
                    /\ (1 <= q)%Q /\ (q <= 100)%Q).
Proof.
  split; [reflexivity|].
  apply (validateEntryFee_spec (Num.of_cents 1050)). reflexivity.
Defined.

Lemma validateSessionSize_spec_witness :
  Num.wf (Num.of_Z 4) = true
  /\ (validateSessionSize (Num.of_Z 4) = true
      <-> exists (q : Q) (n : Z),
            Num.F2Q (Num.of_Z 4) = Some q /\ (q == inject_Z n)%Q /\ 1 <= n <= 8).
Proof.
  split; [reflexivity|].
  apply (validateSessionSize_spec (Num.of_Z 4)). reflexivity.
Defined.

Lemma requireTokens_rejects_short_count_witness :
  gateCount alice spent_world = Some 0
  /\ (guarded (requireTokens 1 (day0 + 1000) (Some alice)) (joinSession "s1")
        spent_world).1
     = fail 403 NO_TOKENS_REMAINING
         (TokenShortage 1 (Some 0)
            (JSDate.Day (day0 + 1000) * JSDate.msPerDay + JSDate.msPerDay))
  /\ db (guarded (requireTokens 1 (day0 + 1000) (Some alice))
           (joinSession "s1") spent_world).2 = db spent_world.
Proof.
  split; [reflexivity|].
  apply (requireTokens_rejects_short_count 1 (day0 + 1000) 0 alice spent_world
           (joinSession "s1")).
  - unfold validTime, day0, JSDate.maxTime. lia.
  - unfold validTime, day0, JSDate.maxTime, JSDate.msPerDay. lia.
  - reflexivity.
  - lia.
Defined.
